(** * Tock Binary Format headers and footers (tockloader/tbfh.py)

    A shallow embedding of the TBF codec of tockloader: the [struct]
    little-endian packing it relies on, the TLV classes, the header parser
    [TBFHeader.__init__], the header mutators, [TBFHeader.get_binary], and the
    footer credentials TLV with its [verify] method.

    Python values are modelled as follows.
    - [bytes] / [bytearray] are lists of bytes; a slice [b[i:j]] is
      [slice i j b].
    - Python integers are unbounded, hence [Z].
    - An instance of a TLV class is its class tag together with its instance
      dictionary (a finite map from attribute names to values): the source
      creates attributes conditionally in [__init__] and reads and writes them
      by name ([getattr] / [setattr] in [modify_tlv]).
    - An exception is the [Raise] outcome of [result]; methods that mutate
      the header are state transformers that return the outcome together with
      the state the header is left in. *)

From Stdlib Require Import ZArith List Lia String Bool.
From coqutil Require Import Byte Word.LittleEndianList.
From stdpp Require Import gmap strings list fin_maps.
From Equations Require Import Equations.

Local Open Scope Z_scope.

Abbreviation byte := Init.Byte.byte.
Abbreviation bytes := (list byte).

#[global] Instance byte_eq_dec : EqDecision byte := Stdlib.Strings.Byte.byte_eq_dec.

(** ** Exceptions and outcomes *)

Inductive exn : Type :=
| StructError
| KeyError (key : string)
| AttributeError (name : string)
| TypeError
| UnicodeDecodeError
| UnicodeEncodeError
| UnboundLocalError (name : string)
| TockLoaderException (msg : string).

Inductive result (A : Type) : Type :=
| Ok (a : A)
| Raise (e : exn).
Arguments Ok {A} a.
Arguments Raise {A} e.

#[global] Instance result_ret : MRet result := @Ok.
#[global] Instance result_bind : MBind result := fun A B f m =>
  match m with
  | Ok a => f a
  | Raise e => Raise e
  end.

(** ** Helpers: [roundup], slices, [struct] *)

Definition roundup (x to : Z) : Z :=
  if x mod to =? 0 then x else x + to - x mod to.

(** [b[i:j]] for [0 <= i <= j]. *)
Definition slice (i j : nat) (b : bytes) : bytes := firstn (j - i) (skipn i b).

(** [len(b)] as a Python integer. *)
Definition len {A} (l : list A) : Z := Z.of_nat (length l).

(** [b"\0" * n] ([n <= 0] gives the empty string). *)
Definition zeros (n : Z) : bytes := repeat Byte.x00 (Z.to_nat n).

(** Format characters of [struct]: their sizes in bytes.  All formats in the
    source start with ["<"]: little-endian, no alignment. *)
Definition H : nat := 2.
Definition I : nat := 4.

Definition fmt_size (fmt : list nat) : nat := fold_right Nat.add 0%nat fmt.

Fixpoint unpack_fields (fmt : list nat) (buffer : bytes) : list Z :=
  match fmt with
  | [] => []
  | w :: fmt' => le_combine (firstn w buffer) :: unpack_fields fmt' (skipn w buffer)
  end.

(** [struct.unpack(fmt, buffer)]: the buffer must have exactly the size of
    the format. *)
Definition struct_unpack (fmt : list nat) (buffer : bytes) : result (list Z) :=
  if Nat.eqb (length buffer) (fmt_size fmt)
  then Ok (unpack_fields fmt buffer)
  else Raise StructError.

(** [struct.pack(fmt, v1, v2, ...)]: one value per format character, each in
    the range of its unsigned format. *)
Fixpoint struct_pack (fmt : list nat) (vals : list Z) : result bytes :=
  match fmt, vals with
  | [], [] => Ok []
  | w :: fmt', v :: vals' =>
      if (0 <=? v) && (v <? 2 ^ (8 * Z.of_nat w))
      then rest ← struct_pack fmt' vals'; Ok (le_split w v ++ rest)
      else Raise StructError
  | _, _ => Raise StructError
  end.

(** [struct.pack_into("<I", buf, offset, v)]. *)
Definition pack_into_I (buf : bytes) (offset : nat) (v : Z) : result bytes :=
  if (Z.of_nat offset + 4 <=? len buf) && (0 <=? v) && (v <? 2 ^ 32)
  then Ok (firstn offset buf ++ le_split 4 v ++ skipn (offset + 4) buf)
  else Raise StructError.

(** ** The header checksum ([TBFHeader._checksum]) *)

(** The buffer after [buffer += bytes([0] * padding)]. *)
Definition _checksum_pad (buffer : bytes) : bytes :=
  let padding := len buffer mod 4 in
  if padding =? 0 then buffer else buffer ++ zeros (4 - padding).

(** [for i in range(0, len(buffer), 4): checksum ^= unpack("<I", buffer[i:i+4])[0]],
    [n] is the number of iterations left. *)
Fixpoint xor_words (n : nat) (buffer : bytes) (checksum : Z) : Z :=
  match n with
  | O => checksum
  | S n' => xor_words n' (skipn 4 buffer) (Z.lxor checksum (le_combine (firstn 4 buffer)))
  end.

Definition _checksum (buffer : bytes) : Z :=
  let buffer := _checksum_pad buffer in
  xor_words (length buffer / 4) buffer 0.

(** ** UTF-8, as [bytes.decode("utf-8")] and [str.encode("utf-8")] do it

    A Python [str] is a list of code points. *)

Definition cont (b : byte) : bool :=
  (0x80 <=? byte.unsigned b) && (byte.unsigned b <=? 0xBF).

Definition between (lo x hi : Z) : bool := (lo <=? x) && (x <=? hi).

Fixpoint utf8_decode (b : bytes) : option (list Z) :=
  match b with
  | [] => Some []
  | b0 :: r0 =>
      let u0 := byte.unsigned b0 in
      if u0 <? 0x80 then (u0 ::.) <$> utf8_decode r0
      else match r0 with
      | [] => None
      | b1 :: r1 =>
          let u1 := byte.unsigned b1 in
          if between 0xC2 u0 0xDF then
            if cont b1
            then (((u0 - 0xC0) * 64 + (u1 - 0x80)) ::.) <$> utf8_decode r1
            else None
          else match r1 with
          | [] => None
          | b2 :: r2 =>
              let u2 := byte.unsigned b2 in
              if between 0xE0 u0 0xEF then
                if (if u0 =? 0xE0 then between 0xA0 u1 0xBF
                    else if u0 =? 0xED then between 0x80 u1 0x9F
                    else cont b1) && cont b2
                then (((u0 - 0xE0) * 4096 + (u1 - 0x80) * 64 + (u2 - 0x80)) ::.)
                       <$> utf8_decode r2
                else None
              else match r2 with
              | [] => None
              | b3 :: r3 =>
                  let u3 := byte.unsigned b3 in
                  if between 0xF0 u0 0xF4 then
                    if (if u0 =? 0xF0 then between 0x90 u1 0xBF
                        else if u0 =? 0xF4 then between 0x80 u1 0x8F
                        else cont b1) && cont b2 && cont b3
                    then (((u0 - 0xF0) * 262144 + (u1 - 0x80) * 4096
                           + (u2 - 0x80) * 64 + (u3 - 0x80)) ::.)
                           <$> utf8_decode r3
                    else None
                  else None
              end
          end
      end
  end.

Definition utf8_encode_char (c : Z) : option bytes :=
  if between 0 c 0x7F then Some [byte.of_Z c]
  else if between 0x80 c 0x7FF then
    Some [byte.of_Z (0xC0 + c / 64); byte.of_Z (0x80 + c mod 64)]
  else if between 0xD800 c 0xDFFF then None
  else if between 0x800 c 0xFFFF then
    Some [byte.of_Z (0xE0 + c / 4096); byte.of_Z (0x80 + c / 64 mod 64);
          byte.of_Z (0x80 + c mod 64)]
  else if between 0x10000 c 0x10FFFF then
    Some [byte.of_Z (0xF0 + c / 262144); byte.of_Z (0x80 + c / 4096 mod 64);
          byte.of_Z (0x80 + c / 64 mod 64); byte.of_Z (0x80 + c mod 64)]
  else None.

Fixpoint utf8_encode (s : list Z) : option bytes :=
  match s with
  | [] => Some []
  | c :: s' =>
      match utf8_encode_char c, utf8_encode s' with
      | Some e, Some r => Some (e ++ r)
      | _, _ => None
      end
  end.

(** ** TLV objects

    The values an attribute of a TLV object can hold. *)

Inductive pyval : Type :=
| PInt (z : Z)
| PBool (b : bool)
| PBytes (b : bytes)
| PStr (s : list Z)
| PRegions (l : list (Z * Z)).

Inductive tlv_class : Type :=
| TBFTLVUnknown
| TBFTLVMain
| TBFTLVProgram
| TBFTLVWriteableFlashRegions
| TBFTLVPackageName
| TBFTLVPicOption1
| TBFTLVFixedAddress
| TBFTLVKernelVersion.

Record TBFTLV : Type := mkTLV {
  class_of : tlv_class;
  attrs : gmap string pyval
}.

(** The class attribute [TLVID] ([TBFTLVUnknown] has none). *)
Definition TLVID (c : tlv_class) : option Z :=
  match c with
  | TBFTLVUnknown => None
  | TBFTLVMain => Some 0x01
  | TBFTLVProgram => Some 0x09
  | TBFTLVWriteableFlashRegions => Some 0x02
  | TBFTLVPackageName => Some 0x03
  | TBFTLVPicOption1 => Some 0x04
  | TBFTLVFixedAddress => Some 0x05
  | TBFTLVKernelVersion => Some 0x08
  end.

(** Attribute lookup: the instance dictionary first, then the class.  Only
    data attributes are modelled; the names of methods are not attributes
    here. *)
Definition getattr (t : TBFTLV) (name : string) : option pyval :=
  match attrs t !! name with
  | Some v => Some v
  | None => if String.eqb name "TLVID" then PInt <$> TLVID (class_of t) else None
  end.

Definition setattr (t : TBFTLV) (name : string) (v : pyval) : TBFTLV :=
  mkTLV (class_of t) (<[name := v]> (attrs t)).

(** [t.name] in an expression. *)
Definition attr (t : TBFTLV) (name : string) : result pyval :=
  match getattr t name with
  | Some v => Ok v
  | None => Raise (AttributeError name)
  end.

(** A value used as an argument of an integer format of [struct.pack]. *)
Definition pack_arg (v : pyval) : result Z :=
  match v with
  | PInt z => Ok z
  | PBool b => Ok (Z.b2z b)
  | _ => Raise StructError
  end.

(** [v + n] and [v == n] for an integer [n]. *)
Definition py_add (v : pyval) (n : Z) : result pyval :=
  match v with
  | PInt z => Ok (PInt (z + n))
  | PBool b => Ok (PInt (Z.b2z b + n))
  | _ => Raise TypeError
  end.

Definition py_eq_int (v : pyval) (n : Z) : bool :=
  match v with
  | PInt z => z =? n
  | PBool b => Z.b2z b =? n
  | _ => false
  end.

(** [t.pack()] for the classes that pack a fixed list of integer attributes:
    the arguments are evaluated in order, then packed. *)
Fixpoint attr_args (t : TBFTLV) (names : list string) : result (list pyval) :=
  match names with
  | [] => Ok []
  | n :: names' => v ← attr t n; vs ← attr_args t names'; Ok (v :: vs)
  end.

Fixpoint pack_args (vs : list pyval) : result (list Z) :=
  match vs with
  | [] => Ok []
  | v :: vs' => z ← pack_arg v; zs ← pack_args vs'; Ok (z :: zs)
  end.

Definition pack_fixed (t : TBFTLV) (length : Z) (fmt : list nat) (names : list string)
  : result bytes :=
  tlvid ← attr t "TLVID";
  vs ← attr_args t names;
  zs ← pack_args (tlvid :: PInt length :: vs);
  struct_pack (H :: H :: fmt) zs.

Definition main_attrs : list string :=
  ["init_fn_offset"; "protected_size"; "minimum_ram_size"]%string.
Definition program_attrs : list string :=
  ["init_fn_offset"; "protected_size"; "minimum_ram_size"; "binary_end_offset";
   "app_version"]%string.
Definition pic_option_1_attrs : list string :=
  ["text_offset"; "data_offset"; "data_size"; "bss_memory_offset"; "bss_size";
   "relocation_data_offset"; "relocation_data_size"; "got_offset"; "got_size";
   "minimum_stack_length"]%string.
Definition fixed_address_attrs : list string :=
  ["fixed_address_ram"; "fixed_address_flash"]%string.
Definition kernel_version_attrs : list string :=
  ["kernel_major"; "kernel_minor"]%string.

(** [out += struct.pack("<II", wfr[0], wfr[1])] for each region. *)
Fixpoint pack_regions (l : list (Z * Z)) : result bytes :=
  match l with
  | [] => Ok []
  | wfr :: l' =>
      b ← struct_pack [I; I] [wfr.1; wfr.2];
      rest ← pack_regions l';
      Ok (b ++ rest)
  end.

(** [tlv.pack()], dispatched on the class of the object. *)
Definition pack (t : TBFTLV) : result bytes :=
  match class_of t with
  | TBFTLVUnknown =>
      tipe ← attr t "tipe";
      buffer ← attr t "buffer";
      match buffer with
      | PBytes buffer =>
          tipe ← pack_arg tipe;
          out ← struct_pack [H; H] [tipe; len buffer];
          let out := out ++ buffer in
          let padding := (4 - (len out mod 4)) mod 4 in
          Ok (out ++ zeros padding)
      | PStr s => tipe ← pack_arg tipe; _ ← struct_pack [H; H] [tipe; len s]; Raise TypeError
      | PRegions l => tipe ← pack_arg tipe; _ ← struct_pack [H; H] [tipe; len l]; Raise TypeError
      | _ => Raise TypeError
      end
  | TBFTLVMain => pack_fixed t 12 [I; I; I] main_attrs
  | TBFTLVProgram => pack_fixed t 20 [I; I; I; I; I] program_attrs
  | TBFTLVWriteableFlashRegions =>
      tlvid ← attr t "TLVID";
      regions ← attr t "writeable_flash_regions";
      match regions with
      | PRegions regions =>
          tlvid ← pack_arg tlvid;
          out ← struct_pack [H; H] [tlvid; len regions * 8];
          rest ← pack_regions regions;
          Ok (out ++ rest)
      | _ => Raise TypeError
      end
  | TBFTLVPackageName =>
      name ← attr t "package_name";
      match name with
      | PStr name =>
          match utf8_encode name with
          | Some encoded_name =>
              tlvid ← attr t "TLVID";
              tlvid ← pack_arg tlvid;
              out ← struct_pack [H; H] [tlvid; len encoded_name];
              let out := out ++ encoded_name in
              let padding_length := roundup (len encoded_name) 4 - len encoded_name in
              Ok (if padding_length >? 0 then out ++ zeros padding_length else out)
          | None => Raise UnicodeEncodeError
          end
      | _ => Raise (AttributeError "encode")
      end
  | TBFTLVPicOption1 => pack_fixed t 40 [I; I; I; I; I; I; I; I; I; I] pic_option_1_attrs
  | TBFTLVFixedAddress => pack_fixed t 8 [I; I] fixed_address_attrs
  | TBFTLVKernelVersion => pack_fixed t 4 [H; H] kernel_version_attrs
  end.

(** [tlv.get_size()]. *)
Definition get_size (t : TBFTLV) : result Z :=
  b ← pack t; Ok (len b).

(** [tlv.get_tlvid()]. *)
Definition get_tlvid (t : TBFTLV) : result pyval :=
  match class_of t with
  | TBFTLVUnknown => attr t "tipe"
  | _ => attr t "TLVID"
  end.

(** *** Constructors *)

Fixpoint zip_attrs (names : list string) (vals : list Z) (m : gmap string pyval)
  : gmap string pyval :=
  match names, vals with
  | n :: names', v :: vals' => zip_attrs names' vals' (<[n := PInt v]> m)
  | _, _ => m
  end.

(** The constructors of the fixed-length classes: [valid] is set to [False],
    and when the buffer has the expected length the fields are unpacked into
    attributes and [valid] is set to [True]. *)
Definition init_fixed (c : tlv_class) (length : nat) (fmt : list nat)
    (names : list string) (buffer : bytes) : TBFTLV :=
  let d : gmap string pyval := {[ "valid"%string := PBool false ]} in
  if Nat.eqb (List.length buffer) length
  then mkTLV c (<["valid"%string := PBool true]> (zip_attrs names (unpack_fields fmt buffer) d))
  else mkTLV c d.

Definition TBFTLVUnknown_init (tipe : Z) (buffer : bytes) : TBFTLV :=
  mkTLV TBFTLVUnknown
    (<["buffer"%string := PBytes buffer]> {[ "tipe"%string := PInt tipe ]}).

Definition TBFTLVMain_init : bytes -> TBFTLV :=
  init_fixed TBFTLVMain 12 [I; I; I] main_attrs.

Definition TBFTLVProgram_init : bytes -> TBFTLV :=
  init_fixed TBFTLVProgram 20 [I; I; I; I; I] program_attrs.

(** [for i in range(0, int(len(buffer) / 8))]: the pairs are read from
    [buffer[i*8 : (i+1)*8]]; [n] counts the iterations left. *)
Fixpoint unpack_regions (n : nat) (buffer : bytes) : list (Z * Z) :=
  match n with
  | O => []
  | S n' =>
      (le_combine (firstn 4 buffer), le_combine (firstn 4 (skipn 4 buffer)))
        :: unpack_regions n' (skipn 8 buffer)
  end.

Definition TBFTLVWriteableFlashRegions_init (buffer : bytes) : TBFTLV :=
  let d : gmap string pyval := {[ "valid"%string := PBool false ]} in
  if len buffer mod 8 =? 0
  then mkTLV TBFTLVWriteableFlashRegions
         (<["writeable_flash_regions"%string :=
              PRegions (unpack_regions (Z.to_nat (len buffer / 8)) buffer)]> d)
  else mkTLV TBFTLVWriteableFlashRegions d.

Definition TBFTLVPackageName_init (buffer : bytes) : result TBFTLV :=
  match utf8_decode buffer with
  | Some name =>
      Ok (mkTLV TBFTLVPackageName
            (<["valid"%string := PBool true]> {[ "package_name"%string := PStr name ]}))
  | None => Raise UnicodeDecodeError
  end.

Definition TBFTLVPicOption1_init : bytes -> TBFTLV :=
  init_fixed TBFTLVPicOption1 40 [I; I; I; I; I; I; I; I; I; I] pic_option_1_attrs.

Definition TBFTLVFixedAddress_init : bytes -> TBFTLV :=
  init_fixed TBFTLVFixedAddress 8 [I; I] fixed_address_attrs.

Definition TBFTLVKernelVersion_init : bytes -> TBFTLV :=
  init_fixed TBFTLVKernelVersion 4 [H; H] kernel_version_attrs.

(** ** The header *)

Definition HEADER_TYPE_MAIN : Z := 0x01.
Definition HEADER_TYPE_WRITEABLE_FLASH_REGIONS : Z := 0x02.
Definition HEADER_TYPE_PACKAGE_NAME : Z := 0x03.
Definition HEADER_TYPE_PIC_OPTION_1 : Z := 0x04.
Definition HEADER_TYPE_FIXED_ADDRESSES : Z := 0x05.
Definition HEADER_TYPE_KERNEL_VERSION : Z := 0x08.
Definition HEADER_TYPE_PROGRAM : Z := 0x09.

(** The attributes of a [TBFHeader] object.  [version] is only assigned
    when the buffer holds at least two bytes. *)
Record TBFHeader : Type := mkHeader {
  valid : bool;
  app : bool;
  modified : bool;
  fields : gmap string Z;
  tlvs : list TBFTLV;
  version : option Z
}.

(** The state of the TLV loop of [__init__]: the unread part of the buffer,
    the number of header bytes left, and the TLVs appended so far. *)
Record parse_state : Type := mkParse {
  ps_buffer : bytes;
  ps_remaining : Z;
  ps_tlvs : list TBFTLV
}.

(** What one iteration does with the TLV whose prefix was just read:
    [buffer] and [remaining] are past the 4-byte prefix. *)
Definition parse_dispatch (tipe length : Z) (buffer : bytes) (remaining : Z)
    (tlvs : list TBFTLV) : result (list TBFTLV) :=
  if tipe =? HEADER_TYPE_MAIN then
    if (remaining >=? 12) && (length =? 12)
    then Ok (tlvs ++ [TBFTLVMain_init (slice 0 12 buffer)])
    else Ok tlvs
  else if tipe =? HEADER_TYPE_PROGRAM then
    if (remaining >=? 20) && (length =? 20)
    then Ok (tlvs ++ [TBFTLVProgram_init (slice 0 20 buffer)])
    else Ok tlvs
  else if tipe =? HEADER_TYPE_WRITEABLE_FLASH_REGIONS then
    if remaining >=? length
    then Ok (tlvs ++ [TBFTLVWriteableFlashRegions_init (slice 0 (Z.to_nat length) buffer)])
    else Ok tlvs
  else if tipe =? HEADER_TYPE_PACKAGE_NAME then
    if remaining >=? length
    then t ← TBFTLVPackageName_init (slice 0 (Z.to_nat length) buffer); Ok (tlvs ++ [t])
    else Ok tlvs
  else if tipe =? HEADER_TYPE_PIC_OPTION_1 then
    if (remaining >=? 40) && (length =? 40)
    then Ok (tlvs ++ [TBFTLVPicOption1_init (slice 0 40 buffer)])
    else Ok tlvs
  else if tipe =? HEADER_TYPE_FIXED_ADDRESSES then
    if (remaining >=? 8) && (length =? 8)
    then Ok (tlvs ++ [TBFTLVFixedAddress_init (slice 0 8 buffer)])
    else Ok tlvs
  else if tipe =? HEADER_TYPE_KERNEL_VERSION then
    if (remaining >=? 4) && (length =? 4)
    then Ok (tlvs ++ [TBFTLVKernelVersion_init (slice 0 4 buffer)])
    else Ok tlvs
  else
    Ok (tlvs ++ [TBFTLVUnknown_init tipe (slice 0 (Z.to_nat length) buffer)]).

(** The body of [while remaining >= 4]. *)
Definition parse_tlv (s : parse_state) : result parse_state :=
  base ← struct_unpack [H; H] (slice 0 4 (ps_buffer s));
  let buffer := skipn 4 (ps_buffer s) in
  let tipe := nth 0 base 0 in
  let length := nth 1 base 0 in
  let remaining := ps_remaining s - 4 in
  tlvs ← parse_dispatch tipe length buffer remaining (ps_tlvs s);
  let length := roundup length 4 in
  Ok (mkParse (skipn (Z.to_nat length) buffer) (remaining - length) tlvs).

Definition inspect {A} (a : A) : {b | a = b} := exist _ a eq_refl.

(** [while remaining >= 4: ...].  Every iteration takes at least the four
    bytes of a prefix off [remaining]. *)
Equations? parse_tlvs (s : parse_state) : result (list TBFTLV)
  by wf (Z.to_nat (ps_remaining s)) lt :=
  parse_tlvs s with inspect (ps_remaining s >=? 4) := {
    | exist _ false _ => Ok (ps_tlvs s)
    | exist _ true Hloop with inspect (parse_tlv s) := {
        | exist _ (Ok s') Hbody => parse_tlvs s'
        | exist _ (Raise e) _ => Raise e } }.
Proof.
  unfold parse_tlv in Hbody.
  destruct (struct_unpack _ _) as [base|] eqn:Hbase; simpl in Hbody; [|discriminate].
  destruct (parse_dispatch _ _ _ _ _); simpl in Hbody; [|discriminate].
  injection Hbody as <-. simpl.
  unfold struct_unpack in Hbase. destruct (Nat.eqb _ _); [|discriminate].
  injection Hbase as <-. simpl.
  pose proof (le_combine_bound (firstn H (skipn H (slice 0 4 (ps_buffer s))))) as [Hlen _].
  unfold roundup. destruct (_ =? 0).
  - lia.
  - pose proof (Z.mod_pos_bound
      (le_combine (firstn H (skipn H (slice 0 4 (ps_buffer s))))) 4). lia.
Qed.

Definition v1_fields : list string :=
  ["total_size"; "entry_offset"; "rel_data_offset"; "rel_data_size"; "text_offset";
   "text_size"; "got_offset"; "got_size"; "data_offset"; "data_size";
   "bss_mem_offset"; "bss_mem_size"; "min_stack_len"; "min_app_heap_len";
   "min_kernel_heap_len"; "package_name_offset"; "package_name_size";
   "checksum"]%string.

(** [self.fields[name] = base[i]] for the names in order. *)
Fixpoint set_fields (names : list string) (base : list Z) (fields : gmap string Z)
  : gmap string Z :=
  match names, base with
  | n :: names', v :: base' => set_fields names' base' (<[n := v]> fields)
  | _, _ => fields
  end.

(** [self.fields[key]] in an expression. *)
Definition getitem (fields : gmap string Z) (key : string) : result Z :=
  match fields !! key with
  | Some v => Ok v
  | None => Raise (KeyError key)
  end.

(** [TBFHeader.__init__(buffer)]. *)
Definition TBFHeader_init (buffer : bytes) : result TBFHeader :=
  let full_buffer := buffer in
  if len buffer <? 2 then Ok (mkHeader false false false ∅ [] None)
  else
    base ← struct_unpack [H] (slice 0 2 buffer);
    let version := nth 0 base 0 in
    let buffer := skipn 2 buffer in
    if (version =? 1) && (len buffer >=? 74) then
      let checksum := _checksum (slice 0 72 full_buffer) in
      let buffer := skipn 2 buffer in
      base ← struct_unpack (repeat I 18) (slice 0 72 buffer);
      let fields := set_fields v1_fields base ∅ in
      stored ← getitem fields "checksum";
      Ok (mkHeader (if checksum =? stored then true else false) true false
            fields [] (Some version))
    else if (version =? 2) && (len buffer >=? 14) then
      base ← struct_unpack [H; I; I; I] (slice 0 14 buffer);
      let buffer := skipn 14 buffer in
      let fields :=
        set_fields ["header_size"; "total_size"; "flags"; "checksum"]%string base ∅ in
      header_size ← getitem fields "header_size";
      if (len full_buffer >=? header_size) && (header_size >=? 16) then
        nbuf ← pack_into_I (slice 0 (Z.to_nat header_size) full_buffer) 12 0;
        let checksum := _checksum nbuf in
        let remaining := header_size - 16 in
        if (remaining >? 0) && (len buffer >=? remaining) then
          tlvs ← parse_tlvs (mkParse buffer remaining []);
          stored ← getitem fields "checksum";
          Ok (mkHeader (if checksum =? stored then true else true) true false
                fields tlvs (Some version))
        else
          stored ← getitem fields "checksum";
          Ok (mkHeader (if checksum =? stored then true else false) false false
                fields [] (Some version))
      else Ok (mkHeader false false false fields [] (Some version))
    else Ok (mkHeader false false false ∅ [] (Some version)).

(** ** Methods of the header

    A method that mutates [self] is an [action]: it maps the state of the
    header to an outcome and the state the header is left in (also when an
    exception is raised part-way). *)

Definition action (A : Type) : Type := TBFHeader → result A * TBFHeader.

#[global] Instance action_ret : MRet action := fun A a self => (Ok a, self).
#[global] Instance action_bind : MBind action := fun A B f m self =>
  match m self with
  | (Ok a, self') => f a self'
  | (Raise e, self') => (Raise e, self')
  end.

Definition raise {A} (e : exn) : action A := fun self => (Raise e, self).
Definition get : action TBFHeader := fun self => (Ok self, self).
Definition put (h : TBFHeader) : action unit := fun _ => (Ok tt, h).
(** An expression that reads [self] and may raise. *)
Definition eval {A} (f : TBFHeader → result A) : action A := fun self => (f self, self).

Definition with_modified (b : bool) (h : TBFHeader) : TBFHeader :=
  mkHeader (valid h) (app h) b (fields h) (tlvs h) (version h).
Definition with_fields (f : gmap string Z) (h : TBFHeader) : TBFHeader :=
  mkHeader (valid h) (app h) (modified h) f (tlvs h) (version h).
Definition with_tlvs (l : list TBFTLV) (h : TBFHeader) : TBFHeader :=
  mkHeader (valid h) (app h) (modified h) (fields h) l (version h).

(** [self.version] in an expression. *)
Definition get_version (self : TBFHeader) : result Z :=
  match version self with
  | Some v => Ok v
  | None => Raise (AttributeError "version")
  end.

(** [self.fields[key] = v] and [self.modified = True]. *)
Definition setitem (key : string) (v : Z) : action unit :=
  fun self => (Ok tt, with_fields (<[key := v]> (fields self)) self).
Definition set_modified : action unit :=
  fun self => (Ok tt, with_modified true self).

(** [TBFHeader.is_valid], [is_app], [is_modified]. *)
Definition is_valid (self : TBFHeader) : bool := valid self.
Definition is_app (self : TBFHeader) : bool := app self.
Definition is_modified (self : TBFHeader) : bool := modified self.

(** [TBFHeader.set_flag(flag_name, flag_value)]. *)
Definition set_flag (flag_name : string) (flag_value : bool) : action unit :=
  version ← eval get_version;
  self ← get;
  if (version =? 1) || negb (valid self) then mret tt
  else if String.eqb flag_name "enable" then
    flags ← eval (fun self => getitem (fields self) "flags");
    setitem "flags" (if flag_value then Z.lor flags 0x01 else Z.land flags (Z.lnot 0x01));;
    set_modified
  else if String.eqb flag_name "sticky" then
    flags ← eval (fun self => getitem (fields self) "flags");
    setitem "flags" (if flag_value then Z.lor flags 0x02 else Z.land flags (Z.lnot 0x02));;
    set_modified
  else mret tt.

(** [TBFHeader.set_app_size(size)]. *)
Definition set_app_size (size : Z) : action unit :=
  setitem "total_size" size;;
  set_modified.

(** [TBFHeader._get_tlv(tlvid)]: a reference to the first TLV whose id is
    [tlvid], as its position in [self.tlvs], or [None]. *)
Fixpoint _get_tlv_from (i : nat) (tlvs : list TBFTLV) (tlvid : Z) : result (option nat) :=
  match tlvs with
  | [] => Ok None
  | tlv :: tlvs' =>
      id ← get_tlvid tlv;
      if py_eq_int id tlvid then Ok (Some i) else _get_tlv_from (S i) tlvs' tlvid
  end.

Definition _get_tlv (tlvid : Z) (self : TBFHeader) : result (option nat) :=
  _get_tlv_from 0 (tlvs self) tlvid.

(** [TBFHeader._get_binary_tlv()]. *)
Definition _get_binary_tlv (self : TBFHeader) : result (option nat) :=
  tlv ← _get_tlv HEADER_TYPE_PROGRAM self;
  match tlv with
  | None => _get_tlv HEADER_TYPE_MAIN self
  | Some _ => Ok tlv
  end.

(** [tlv.name] where [tlv] is a reference returned by [_get_tlv]; reading an
    attribute of [None] raises [AttributeError]. *)
Definition ref_attr (tlv : option nat) (name : string) (self : TBFHeader) : result pyval :=
  match tlv ≫= (tlvs self !!.) with
  | Some t => attr t name
  | None => Raise (AttributeError name)
  end.

(** [tlv.name += n]: the object the reference points to is updated in
    place. *)
Definition ref_iadd (tlv : nat) (name : string) (n : Z) : action unit :=
  v ← eval (ref_attr (Some tlv) name);
  v' ← eval (fun _ => py_add v n);
  self ← get;
  put (with_tlvs (alter (fun t => setattr t name v') tlv (tlvs self)) self).

(** [if tlv: tlv.name += n]. *)
Definition ref_iadd_if (tlv : option nat) (name : string) (n : Z) : action unit :=
  match tlv with
  | Some r => ref_iadd r name n
  | None => mret tt
  end.

(** The first loop of [delete_tlv]: the indices of the TLVs to delete, last
    first, and the sum of their sizes. *)
Fixpoint delete_scan (i : nat) (tlvs : list TBFTLV) (tlvid : Z)
    (indices : list nat) (size : Z) : result (list nat * Z) :=
  match tlvs with
  | [] => Ok (indices, size)
  | tlv :: tlvs' =>
      id ← get_tlvid tlv;
      if py_eq_int id tlvid
      then sz ← get_size tlv; delete_scan (S i) tlvs' tlvid (i :: indices) (size + sz)
      else delete_scan (S i) tlvs' tlvid indices size
  end.

(** The second loop: [self.tlvs.pop(index)] and [self.modified = True] for
    each index. *)
Fixpoint delete_pop (indices : list nat) : action unit :=
  match indices with
  | [] => mret tt
  | index :: indices' =>
      self ← get;
      put (with_tlvs (delete index (tlvs self)) self);;
      set_modified;;
      delete_pop indices'
  end.

(** [TBFHeader.delete_tlv(tlvid)]. *)
Definition delete_tlv (tlvid : Z) : action unit :=
  r ← eval (fun self => delete_scan 0 (tlvs self) tlvid [] 0);
  let indices := r.1 in
  let size := r.2 in
  delete_pop indices;;
  header_size ← eval (fun self => getitem (fields self) "header_size");
  setitem "header_size" (header_size - size);;
  tlv_main ← eval (_get_tlv HEADER_TYPE_MAIN);
  tlv_program ← eval (_get_tlv HEADER_TYPE_PROGRAM);
  ref_iadd_if tlv_main "protected_size" size;;
  ref_iadd_if tlv_program "protected_size" size;;
  ref_iadd_if tlv_main "init_fn_offset" size;;
  ref_iadd_if tlv_program "init_fn_offset" size.

(** The loop of [modify_tlv]: [self.tlvs[i]] for [i] from [i] on, [n]
    iterations left. *)
Fixpoint modify_loop (n i : nat) (tlvid : Z) (field : string) (value : Z) : action unit :=
  match n with
  | O => mret tt
  | S n' =>
      self ← get;
      match tlvs self !! i with
      | None => mret tt
      | Some tlv =>
          id ← eval (fun _ => get_tlvid tlv);
          (if py_eq_int id tlvid then
             match getattr tlv field with
             | None => raise (TockLoaderException "Field is not in TLV")
             | Some _ =>
                 put (with_tlvs (<[i := setattr tlv field (PInt value)]> (tlvs self)) self);;
                 set_modified
             end
           else mret tt);;
          modify_loop n' (S i) tlvid field value
      end
  end.

(** [TBFHeader.modify_tlv(tlvid, field, value)]. *)
Definition modify_tlv (tlvid : Z) (field : string) (value : Z) : action unit :=
  if tlvid =? 0 then setitem field value
  else
    self ← get;
    modify_loop (length (tlvs self)) 0 tlvid field value.

(** An operand of integer arithmetic or of an ordering comparison with an
    integer. *)
Definition as_int (v : pyval) : result Z :=
  match v with
  | PInt z => Ok z
  | PBool b => Ok (Z.b2z b)
  | _ => Raise TypeError
  end.

(** [TBFHeader.adjust_starting_address(address)]. *)
Definition adjust_starting_address (address : Z) : action unit :=
  tlv_fixed_addr ← eval (_get_tlv HEADER_TYPE_FIXED_ADDRESSES);
  match tlv_fixed_addr with
  | None => mret tt
  | Some _ =>
      tlv_program ← eval _get_binary_tlv;
      header_size ← eval (fun self => getitem (fields self) "header_size");
      protected_size ← eval (ref_attr tlv_program "protected_size");
      protected_size ← eval (fun _ => as_int protected_size);
      fixed_address_flash ← eval (ref_attr tlv_fixed_addr "fixed_address_flash");
      fixed_address_flash ← eval (fun _ => as_int fixed_address_flash);
      if negb (address + header_size + protected_size =? fixed_address_flash) then
        if address + header_size + protected_size <? fixed_address_flash then
          let delta := fixed_address_flash - (address + header_size + protected_size) in
          ref_iadd_if tlv_program "protected_size" delta;;
          ref_iadd_if tlv_program "init_fn_offset" delta
        else
          raise (TockLoaderException "Cannot shrink the header. This is a tockloader bug.")
      else mret tt
  end.

Definition v1_pack_fields : list string :=
  ["total_size"; "entry_offset"; "rel_data_offset"; "rel_data_size"; "text_offset";
   "text_size"; "got_offset"; "got_size"; "data_offset"; "data_size";
   "bss_mem_offset"; "bss_mem_size"; "min_stack_len"; "min_app_heap_len";
   "min_kernel_heap_len"; "package_name_offset"; "package_name_size"]%string.

Fixpoint getitems (fields : gmap string Z) (keys : list string) : result (list Z) :=
  match keys with
  | [] => Ok []
  | k :: keys' => v ← getitem fields k; vs ← getitems fields keys'; Ok (v :: vs)
  end.

(** [for tlv in self.tlvs: buf += tlv.pack()]. *)
Fixpoint pack_tlvs (buf : bytes) (tlvs : list TBFTLV) : result bytes :=
  match tlvs with
  | [] => Ok buf
  | tlv :: tlvs' => b ← pack tlv; pack_tlvs (buf ++ b) tlvs'
  end.

(** [TBFHeader.get_binary()].  In the version 2 branch [buf] is a
    [bytearray], which [_checksum] extends in place when it pads it. *)
Definition get_binary (self : TBFHeader) : result bytes :=
  version ← get_version self;
  if version =? 1 then
    vals ← getitems (fields self) v1_pack_fields;
    buf ← struct_pack (repeat I 19) (version :: vals);
    let checksum := _checksum buf in
    c ← struct_pack [I] [checksum];
    Ok (buf ++ c)
  else if version =? 2 then
    vals ← getitems (fields self) ["header_size"; "total_size"; "flags"]%string;
    buf ← struct_pack [H; H; I; I; I] (version :: vals ++ [0]);
    buf ← (if app self then pack_tlvs buf (tlvs self) else Ok buf);
    let checksum := _checksum buf in
    let buf := _checksum_pad buf in
    buf ← pack_into_I buf 12 checksum;
    tlv_binary ← _get_binary_tlv self;
    match tlv_binary with
    | Some _ =>
        protected_size ← ref_attr tlv_binary "protected_size" self;
        protected_size ← as_int protected_size;
        if protected_size >? 0 then Ok (buf ++ zeros protected_size) else Ok buf
    | None => Ok buf
    end
  else Raise (UnboundLocalError "buf").

(** [TBFHeaderPadding.__init__(size)]. *)
Definition TBFHeaderPadding_init (size : Z) : result TBFHeader :=
  let fields : gmap string Z :=
    <["flags"%string := 0]> (<["total_size"%string := size]>
      {[ "header_size"%string := 16 ]}) in
  let self := mkHeader true false false fields [] (Some 2) in
  buf ← get_binary self;
  Ok (with_fields (<["checksum"%string := _checksum buf]> fields) self).

(** ** Accessors of the header *)

(** [TBFHeader.is_enabled()] and [is_sticky()]. *)
Definition is_enabled (self : TBFHeader) : result bool :=
  if negb (valid self) then Ok false
  else
    version ← get_version self;
    if version =? 1 then Ok true
    else flags ← getitem (fields self) "flags"; Ok (Z.land flags 0x01 =? 0x01).

Definition is_sticky (self : TBFHeader) : result bool :=
  if negb (valid self) then Ok false
  else
    version ← get_version self;
    if version =? 1 then Ok false
    else flags ← getitem (fields self) "flags"; Ok (Z.land flags 0x02 =? 0x02).

(** [TBFHeader.get_app_size()] and [get_header_size()]. *)
Definition get_app_size (self : TBFHeader) : result Z :=
  getitem (fields self) "total_size".

Definition get_header_size (self : TBFHeader) : result Z :=
  version ← get_version self;
  if version =? 1 then Ok 74 else getitem (fields self) "header_size".

(** [TBFHeader.get_size_before_app()]. *)
Definition get_size_before_app (self : TBFHeader) : result Z :=
  version ← get_version self;
  if version =? 1 then Ok 74
  else
    header_size ← getitem (fields self) "header_size";
    binary_tlv ← _get_binary_tlv self;
    protected_size ← ref_attr binary_tlv "protected_size" self;
    protected_size ← as_int protected_size;
    Ok (header_size + protected_size).

(** What [get_app_name] returns: the package name, or the pair
    [(package_name_offset, package_name_size)] of a version 1 header. *)
Inductive app_name : Type :=
| NameOf (package_name : pyval)
| NameAt (package_name_offset package_name_size : Z).

(** [TBFHeader.get_app_name()]. *)
Definition get_app_name (self : TBFHeader) : result app_name :=
  tlv ← _get_tlv HEADER_TYPE_PACKAGE_NAME self;
  match tlv with
  | Some _ => name ← ref_attr tlv "package_name" self; Ok (NameOf name)
  | None =>
      match fields self !! "package_name_offset", fields self !! "package_name_size" with
      | Some offset, Some size => Ok (NameAt offset size)
      | _, _ => Ok (NameOf (PStr []))
      end
  end.

(** [TBFHeader.get_app_version()]. *)
Definition get_app_version (self : TBFHeader) : result pyval :=
  tlv ← _get_tlv HEADER_TYPE_PROGRAM self;
  match tlv with
  | Some _ => ref_attr tlv "app_version" self
  | None => Ok (PInt 0)
  end.

(** [TBFHeader.has_fixed_addresses()] and [get_fixed_addresses()]. *)
Definition has_fixed_addresses (self : TBFHeader) : result bool :=
  tlv ← _get_tlv HEADER_TYPE_FIXED_ADDRESSES self;
  Ok (match tlv with Some _ => true | None => false end).

Definition get_fixed_addresses (self : TBFHeader) : result (option (pyval * pyval)) :=
  tlv ← _get_tlv HEADER_TYPE_FIXED_ADDRESSES self;
  match tlv with
  | Some _ =>
      fixed_address_ram ← ref_attr tlv "fixed_address_ram" self;
      fixed_address_flash ← ref_attr tlv "fixed_address_flash" self;
      Ok (Some (fixed_address_ram, fixed_address_flash))
  | None => Ok None
  end.

(** [TBFHeader.has_kernel_version()] and [get_kernel_version()]. *)
Definition has_kernel_version (self : TBFHeader) : result bool :=
  tlv ← _get_tlv HEADER_TYPE_KERNEL_VERSION self;
  Ok (match tlv with Some _ => true | None => false end).

Definition get_kernel_version (self : TBFHeader) : result (option (pyval * pyval)) :=
  tlv ← _get_tlv HEADER_TYPE_KERNEL_VERSION self;
  match tlv with
  | Some _ =>
      kernel_major ← ref_attr tlv "kernel_major" self;
      kernel_minor ← ref_attr tlv "kernel_minor" self;
      Ok (Some (kernel_major, kernel_minor))
  | None => Ok None
  end.

(** [TBFHeader.has_footer()]. *)
Definition has_footer (self : TBFHeader) : result bool :=
  tlv ← _get_tlv HEADER_TYPE_PROGRAM self;
  match tlv with
  | Some _ =>
      footer_start ← ref_attr tlv "binary_end_offset" self;
      total_size ← getitem (fields self) "total_size";
      footer_start ← as_int footer_start;
      Ok (footer_start <? total_size)
  | None => Ok false
  end.

(** [TBFHeader.get_binary_end_offset()] and [get_footer_size()]. *)
Definition get_binary_end_offset (self : TBFHeader) : result pyval :=
  tlv ← _get_tlv HEADER_TYPE_PROGRAM self;
  match tlv with
  | Some _ => ref_attr tlv "binary_end_offset" self
  | None => total_size ← getitem (fields self) "total_size"; Ok (PInt total_size)
  end.

Definition get_footer_size (self : TBFHeader) : result Z :=
  footer_start ← get_binary_end_offset self;
  total_size ← getitem (fields self) "total_size";
  footer_start ← as_int footer_start;
  Ok (total_size - footer_start).

(** ** The footer credentials TLV

    [hashlib] and [Crypto] are libraries outside the repository: the digest
    functions and the PKCS#1 v1.5 signature check are parameters of the
    model.  [pkcs1_15_verify key blob signature] stands for
    [pkcs1_15.new(key).verify(SHA512.new(blob), signature)] not raising. *)

Module Credentials.

Definition CREDENTIALS_TYPE_RESERVED : Z := 0x00.
Definition CREDENTIALS_TYPE_CLEARTEXTID : Z := 0x01.
Definition CREDENTIALS_TYPE_RSA3072KEY : Z := 0x02.
Definition CREDENTIALS_TYPE_RSA4096KEY : Z := 0x03.
Definition CREDENTIALS_TYPE_RSA3072KEYID : Z := 0x04.
Definition CREDENTIALS_TYPE_RSA4096KEYID : Z := 0x05.
Definition CREDENTIALS_TYPE_SHA256 : Z := 0x06.
Definition CREDENTIALS_TYPE_SHA384 : Z := 0x07.
Definition CREDENTIALS_TYPE_SHA512 : Z := 0x08.

(** The attributes of a [TBFFooterTLVCredentials] object;
    [credentials_type] and [buffer] are only assigned for the recognised
    credential types. *)
Record TBFFooterTLVCredentials : Type := mkCredentials {
  valid : bool;
  verified : string;
  credentials_type : option Z;
  buffer : option bytes
}.

Definition with_verified (v : string) (c : TBFFooterTLVCredentials) :=
  mkCredentials (valid c) v (credentials_type c) (buffer c).
Definition with_valid (b : bool) (c : TBFFooterTLVCredentials) :=
  mkCredentials b (verified c) (credentials_type c) (buffer c).

Definition bytes_eqb (a b : bytes) : bool := bool_decide (a = b).

(** [int.from_bytes(b, "big")]. *)
Definition int_from_bytes_big (b : bytes) : Z := le_combine (rev b).

(** The credential types [verify] checks with a digest. *)
Definition is_hash_type (credentials_type : Z) : Prop :=
  credentials_type = CREDENTIALS_TYPE_SHA256 ∨
  credentials_type = CREDENTIALS_TYPE_SHA384 ∨
  credentials_type = CREDENTIALS_TYPE_SHA512.

Section Verify.

Variables sha256 sha384 sha512 : bytes → bytes.

(** The digest function that belongs to a hash credential type. *)
Definition digest (credentials_type : Z) : bytes → bytes :=
  if credentials_type =? CREDENTIALS_TYPE_SHA256 then sha256
  else if credentials_type =? CREDENTIALS_TYPE_SHA384 then sha384
  else sha512.

Variable RsaKey : Type.
Variable key_n : RsaKey → Z.
Variable pkcs1_15_verify : RsaKey → bytes → bytes → bool.

(** [for key in keys: if pub_key_n == key.n: ...; break]. *)
Fixpoint verify_keys (keys : list RsaKey) (pub_key_n : Z) (integrity_blob signature : bytes)
    (self : TBFFooterTLVCredentials) : TBFFooterTLVCredentials :=
  match keys with
  | [] => self
  | key :: keys' =>
      if pub_key_n =? key_n key then
        if pkcs1_15_verify key integrity_blob signature
        then with_verified "yes" self
        else with_verified "no" self
      else verify_keys keys' pub_key_n integrity_blob signature self
  end.

(** [self.buffer == hash] sets [verified] to "yes" or "no". *)
Definition verify_hash (hash : bytes) (self : TBFFooterTLVCredentials)
  : result unit * TBFFooterTLVCredentials :=
  match buffer self with
  | None => (Raise (AttributeError "buffer"), self)
  | Some buffer =>
      if bytes_eqb buffer hash
      then (Ok tt, with_verified "yes" self)
      else (Ok tt, with_verified "no" self)
  end.

(** [TBFFooterTLVCredentials.verify(keys, integrity_blob)]. *)
Definition verify (keys : list RsaKey) (integrity_blob : option bytes)
    (self : TBFFooterTLVCredentials) : result unit * TBFFooterTLVCredentials :=
  match integrity_blob with
  | None => (Ok tt, self)
  | Some integrity_blob =>
      match credentials_type self with
      | None => (Raise (AttributeError "credentials_type"), self)
      | Some credentials_type =>
          if credentials_type =? CREDENTIALS_TYPE_SHA256 then
            verify_hash (sha256 integrity_blob) self
          else if credentials_type =? CREDENTIALS_TYPE_SHA384 then
            verify_hash (sha384 integrity_blob) self
          else if credentials_type =? CREDENTIALS_TYPE_SHA512 then
            verify_hash (sha512 integrity_blob) self
          else if credentials_type =? CREDENTIALS_TYPE_RSA4096KEY then
            match buffer self with
            | None => (Raise (AttributeError "buffer"), self)
            | Some buffer =>
                let pub_key_n_bytes := slice 0 512 buffer in
                let signature := slice 512 1024 buffer in
                let pub_key_n := int_from_bytes_big pub_key_n_bytes in
                (Ok tt, verify_keys keys pub_key_n integrity_blob signature self)
            end
          else (Ok tt, self)
      end
  end.

(** The branch of [__init__] for a hash credential: the body is stored,
    [valid] is set when the body has [length] bytes, then [verify] runs. *)
Definition init_hash (credentials_type : Z) (length : Z) (buffer : bytes)
    (integrity_blob : option bytes) (self : TBFFooterTLVCredentials)
  : result TBFFooterTLVCredentials :=
  let self := mkCredentials (valid self) (verified self) (Some credentials_type)
                (Some (skipn 4 buffer)) in
  let self := if len (skipn 4 buffer) =? length then with_valid true self else self in
  match verify [] integrity_blob self with
  | (Ok _, self) => Ok self
  | (Raise e, _) => Raise e
  end.

(** [TBFFooterTLVCredentials.__init__(buffer, integrity_blob)]. *)
Definition TBFFooterTLVCredentials_init (buffer : bytes) (integrity_blob : option bytes)
  : result TBFFooterTLVCredentials :=
  let self := mkCredentials false "unknown" None None in
  if len buffer >=? 4 then
    base ← struct_unpack [I] (slice 0 4 buffer);
    let credentials_type := nth 0 base 0 in
    if credentials_type =? CREDENTIALS_TYPE_RESERVED then
      Ok (mkCredentials true (verified self) (Some CREDENTIALS_TYPE_RESERVED)
            (Some (skipn 4 buffer)))
    else if credentials_type =? CREDENTIALS_TYPE_SHA256 then
      init_hash CREDENTIALS_TYPE_SHA256 64 buffer integrity_blob self
    else if credentials_type =? CREDENTIALS_TYPE_SHA384 then
      init_hash CREDENTIALS_TYPE_SHA384 96 buffer integrity_blob self
    else if credentials_type =? CREDENTIALS_TYPE_SHA512 then
      init_hash CREDENTIALS_TYPE_SHA512 128 buffer integrity_blob self
    else if credentials_type =? CREDENTIALS_TYPE_RSA4096KEY then
      let self := mkCredentials (valid self) (verified self)
                    (Some CREDENTIALS_TYPE_RSA4096KEY) (Some (skipn 4 buffer)) in
      Ok (if len (skipn 4 buffer) =? 1024 then with_valid true self else self)
    else Ok self
  else Ok self.

End Verify.

(** The class attribute [TLVID], and [get_tlvid()], which the class inherits
    from [TBFTLV]. *)
Definition TLVID : Z := 0x80.

Definition get_tlvid (self : TBFFooterTLVCredentials) : Z := TLVID.

(** [TBFFooterTLVCredentials.pack()]. *)
Definition pack (self : TBFFooterTLVCredentials) : result bytes :=
  match buffer self with
  | None => Raise (AttributeError "buffer")
  | Some buffer =>
      match credentials_type self with
      | None => Raise (AttributeError "credentials_type")
      | Some credentials_type =>
          buf ← struct_pack [H; H; I] [TLVID; 4 + len buffer; credentials_type];
          Ok (buf ++ buffer)
      end
  end.

End Credentials.

(** ** The footer ([TBFFooter])

    [Crypto.PublicKey.RSA.importKey] is a parameter as well; it returns a key
    or raises. *)

Module Footer.

Definition FOOTER_TYPE_CREDENTIALS : Z := 0x80.

(** The attributes of a [TBFFooter] object. *)
Record TBFFooter : Type := mkFooter {
  version : Z;
  tlvs : list Credentials.TBFFooterTLVCredentials;
  modified : bool
}.

Section Methods.

Variables sha256 sha384 sha512 : bytes → bytes.
Variable RsaKey : Type.
Variable key_n : RsaKey → Z.
Variable pkcs1_15_verify : RsaKey → bytes → bytes → bool.
Variable importKey : bytes → result RsaKey.

(** The body of the loop of [__init__]: the state is the unread buffer and
    the TLVs appended so far. *)
Definition footer_tlv (integrity_blob : option bytes)
    (s : bytes * list Credentials.TBFFooterTLVCredentials)
  : result (bytes * list Credentials.TBFFooterTLVCredentials) :=
  base ← struct_unpack [H; H] (slice 0 4 s.1);
  let buffer := skipn 4 s.1 in
  let tlv_type := nth 0 base 0 in
  let tlv_length := nth 1 base 0 in
  let remaining := len buffer in
  tlvs ← (if tlv_type =? FOOTER_TYPE_CREDENTIALS then
            if remaining >=? tlv_length then
              tlv ← Credentials.TBFFooterTLVCredentials_init sha256 sha384 sha512
                      RsaKey key_n pkcs1_15_verify
                      (slice 0 (Z.to_nat tlv_length) buffer) integrity_blob;
              Ok (s.2 ++ [tlv])
            else Ok s.2
          else Ok s.2);
  Ok (skipn (Z.to_nat tlv_length) buffer, tlvs).

(** [position = 0; while position < len(buffer): ...]: [position] is never
    assigned again, so the loop runs until the buffer is empty.  Every
    iteration takes the four bytes of a prefix off the buffer. *)
Equations? footer_tlvs (integrity_blob : option bytes)
    (s : bytes * list Credentials.TBFFooterTLVCredentials)
  : result (list Credentials.TBFFooterTLVCredentials)
  by wf (length s.1) lt :=
  footer_tlvs integrity_blob s with inspect (0 <? len s.1) := {
    | exist _ false _ => Ok s.2
    | exist _ true Hloop with inspect (footer_tlv integrity_blob s) := {
        | exist _ (Ok s') Hbody => footer_tlvs integrity_blob s'
        | exist _ (Raise e) _ => Raise e } }.
Proof.
  unfold footer_tlv in Hbody.
  destruct (struct_unpack _ _) as [base|] eqn:Hbase; simpl in Hbody; [|discriminate].
  match type of Hbody with (?m ≫= _) = _ => destruct m; simpl in Hbody; [|discriminate] end.
  injection Hbody as <-. simpl.
  unfold struct_unpack in Hbase.
  destruct (Nat.eqb _ _) eqn:Hlen; [|discriminate].
  apply Nat.eqb_eq in Hlen. change (fmt_size [H; H]) with 4%nat in Hlen.
  unfold slice in Hlen. rewrite length_firstn, length_skipn in Hlen.
  cbn [fst] in Hlen. rewrite !length_skipn. lia.
Qed.

(** [TBFFooter.__init__(tbfh, app_binary, buffer)]. *)
Definition TBFFooter_init (tbfh : TBFHeader) (app_binary : option bytes) (buffer : bytes)
  : result TBFFooter :=
  version ← get_version tbfh;
  integrity_blob ←
    match app_binary with
    | Some app_binary => header ← get_binary tbfh; Ok (Some (header ++ app_binary))
    | None => Ok None
    end;
  tlvs ← footer_tlvs integrity_blob (buffer, []);
  Ok (mkFooter version tlvs false).

(** The first loop of [delete_tlv]: the indices of the TLVs to delete, last
    first. *)
Fixpoint delete_scan (i : nat) (tlvs : list Credentials.TBFFooterTLVCredentials)
    (tlvid : Z) (indices : list nat) : list nat :=
  match tlvs with
  | [] => indices
  | tlv :: tlvs' =>
      if Credentials.get_tlvid tlv =? tlvid
      then delete_scan (S i) tlvs' tlvid (i :: indices)
      else delete_scan (S i) tlvs' tlvid indices
  end.

(** The second loop: [self.tlvs.pop(index)] and [self.modified = True]. *)
Fixpoint delete_pop (indices : list nat) (self : TBFFooter) : TBFFooter :=
  match indices with
  | [] => self
  | index :: indices' =>
      delete_pop indices' (mkFooter (version self) (delete index (tlvs self)) true)
  end.

(** [TBFFooter.delete_tlv(tlvid)]. *)
Definition delete_tlv (tlvid : Z) (self : TBFFooter) : TBFFooter :=
  delete_pop (delete_scan 0 (tlvs self) tlvid []) self.

(** [for public_key in public_keys: keys.append(RSA.importKey(public_key))]. *)
Fixpoint import_keys (public_keys : list bytes) (keys : list RsaKey)
  : result (list RsaKey) :=
  match public_keys with
  | [] => Ok keys
  | public_key :: public_keys' =>
      key ← importKey public_key; import_keys public_keys' (keys ++ [key])
  end.

(** [for tlv in self.tlvs: tlv.verify(keys, integrity_blob)]: the TLV objects
    are updated in place, up to the one whose [verify] raises. *)
Fixpoint verify_tlvs (keys : list RsaKey) (integrity_blob : option bytes)
    (tlvs : list Credentials.TBFFooterTLVCredentials)
  : result unit * list Credentials.TBFFooterTLVCredentials :=
  match tlvs with
  | [] => (Ok tt, [])
  | tlv :: tlvs' =>
      match Credentials.verify sha256 sha384 sha512 RsaKey key_n pkcs1_15_verify
              keys integrity_blob tlv with
      | (Ok _, tlv') =>
          let r := verify_tlvs keys integrity_blob tlvs' in (r.1, tlv' :: r.2)
      | (Raise e, tlv') => (Raise e, tlv' :: tlvs')
      end
  end.

(** [TBFFooter.verify_credentials(public_keys, integrity_blob)];
    [public_keys] may be [None]. *)
Definition verify_credentials (public_keys : option (list bytes))
    (integrity_blob : option bytes) (self : TBFFooter) : result unit * TBFFooter :=
  match
    match public_keys with
    | Some (_ :: _ as public_keys) => import_keys public_keys []
    | _ => Ok []
    end
  with
  | Ok keys =>
      let r := verify_tlvs keys integrity_blob (tlvs self) in
      (r.1, mkFooter (version self) r.2 (modified self))
  | Raise e => (Raise e, self)
  end.

(** [for tlv in self.tlvs: buf += tlv.pack()]. *)
Fixpoint pack_tlvs (buf : bytes) (tlvs : list Credentials.TBFFooterTLVCredentials)
  : result bytes :=
  match tlvs with
  | [] => Ok buf
  | tlv :: tlvs' => b ← Credentials.pack tlv; pack_tlvs (buf ++ b) tlvs'
  end.

(** [TBFFooter.get_binary()]. *)
Definition get_binary (self : TBFFooter) : result bytes :=
  if version self =? 2 then pack_tlvs [] (tlvs self) else Ok [].

End Methods.

End Footer.

(** ** Vocabulary of the statements

    The base fields of a version 2 header as they lie in the buffer. *)

Definition hdr_version (b : bytes) : Z := le_combine (slice 0 2 b).
Definition hdr_header_size (b : bytes) : Z := le_combine (slice 2 4 b).
Definition hdr_total_size (b : bytes) : Z := le_combine (slice 4 8 b).
Definition hdr_flags (b : bytes) : Z := le_combine (slice 8 12 b).
Definition hdr_checksum (b : bytes) : Z := le_combine (slice 12 16 b).

Definition hdr_fields (b : bytes) : gmap string Z :=
  <["checksum"%string := hdr_checksum b]> (<["flags"%string := hdr_flags b]>
    (<["total_size"%string := hdr_total_size b]>
       (<["header_size"%string := hdr_header_size b]> ∅))).

(** The checksum of the header in [b]: over its first [header_size] bytes,
    with the checksum word at offset 12 zeroed. *)
Definition hdr_computed_checksum (b : bytes) : Z :=
  let header := firstn (Z.to_nat (hdr_header_size b)) b in
  _checksum (firstn 12 header ++ zeros 4 ++ skipn 16 header).

(** The TLV type ids with a fixed payload length, and that length. *)
Definition expected_length (tipe : Z) : option Z :=
  if tipe =? HEADER_TYPE_MAIN then Some 12
  else if tipe =? HEADER_TYPE_PROGRAM then Some 20
  else if tipe =? HEADER_TYPE_PIC_OPTION_1 then Some 40
  else if tipe =? HEADER_TYPE_FIXED_ADDRESSES then Some 8
  else if tipe =? HEADER_TYPE_KERNEL_VERSION then Some 4
  else None.

Definition fixed_length_class (c : tlv_class) : bool :=
  match c with
  | TBFTLVMain | TBFTLVProgram | TBFTLVPicOption1 | TBFTLVFixedAddress
  | TBFTLVKernelVersion => true
  | _ => false
  end.

Definition known_type (tipe : Z) : bool :=
  (tipe =? HEADER_TYPE_MAIN) || (tipe =? HEADER_TYPE_PROGRAM)
  || (tipe =? HEADER_TYPE_WRITEABLE_FLASH_REGIONS) || (tipe =? HEADER_TYPE_PACKAGE_NAME)
  || (tipe =? HEADER_TYPE_PIC_OPTION_1) || (tipe =? HEADER_TYPE_FIXED_ADDRESSES)
  || (tipe =? HEADER_TYPE_KERNEL_VERSION).

(** The objects the TLV loop of the parser appends: a fixed-length class is
    only constructed from a buffer of its length, and an unknown record
    carries a type id that is none of the known ones. *)
Inductive parsed_tlv : TBFTLV → Prop :=
| parsed_main b : length b = 12%nat → parsed_tlv (TBFTLVMain_init b)
| parsed_program b : length b = 20%nat → parsed_tlv (TBFTLVProgram_init b)
| parsed_wfr b : parsed_tlv (TBFTLVWriteableFlashRegions_init b)
| parsed_name b t : TBFTLVPackageName_init b = Ok t → parsed_tlv t
| parsed_pic b : length b = 40%nat → parsed_tlv (TBFTLVPicOption1_init b)
| parsed_fixed b : length b = 8%nat → parsed_tlv (TBFTLVFixedAddress_init b)
| parsed_kernel b : length b = 4%nat → parsed_tlv (TBFTLVKernelVersion_init b)
| parsed_unknown tipe b :
    known_type tipe = false → 0 <= tipe < 2 ^ 16 → parsed_tlv (TBFTLVUnknown_init tipe b).

(** "Kept in the TLV sequence as a not-valid instance of the class". *)
Definition kept_as_invalid (c : tlv_class) (h : TBFHeader) : Prop :=
  ∃ t, t ∈ tlvs h ∧ class_of t = c ∧ getattr t "valid" = Some (PBool false).

(** The base fields of a version 1 header as they lie in the buffer. *)
Definition hdr_v1_base (b : bytes) : list Z := unpack_fields (repeat I 18) (slice 4 76 b).
Definition hdr_v1_fields (b : bytes) : gmap string Z := set_fields v1_fields (hdr_v1_base b) ∅.

(** A version 2 header buffer: the base fields, then the TLV stream. *)
Definition v2_header (total_size flags checksum : Z) (stream : bytes) : bytes :=
  le_split 2 2 ++ le_split 2 (16 + len stream) ++ le_split 4 total_size
    ++ le_split 4 flags ++ le_split 4 checksum ++ stream.

(** One TLV of a stream: prefix, payload, padding to four bytes. *)
Definition tlv_record (tipe : Z) (payload : bytes) : bytes :=
  le_split 2 tipe ++ le_split 2 (len payload) ++ payload
    ++ zeros (roundup (len payload) 4 - len payload).

(** [self._get_binary_tlv().name]. *)
Definition binary_tlv_attr (name : string) (self : TBFHeader) : result pyval :=
  tlv ← _get_binary_tlv self; ref_attr tlv name self.

(** An application header: a Main TLV (init_fn_offset 41, protected_size 0,
    minimum_ram_size 4096) and a FixedAddress TLV (RAM 0x20004000, flash
    0x30080); and the header object the parser builds from it. *)
Definition example_app : bytes :=
  v2_header 8192 1 0
    (tlv_record 1 (le_split 4 41 ++ le_split 4 0 ++ le_split 4 4096)
     ++ tlv_record 5 (le_split 4 0x20004000 ++ le_split 4 0x30080)).

Definition example_app_header : TBFHeader :=
  mkHeader true true false (hdr_fields example_app)
    [TBFTLVMain_init (le_split 4 41 ++ le_split 4 0 ++ le_split 4 4096);
     TBFTLVFixedAddress_init (le_split 4 0x20004000 ++ le_split 4 0x30080)]
    (Some 2).

(** A padding header whose stored checksum is wrong, and its header
    object. *)
Definition example_bad_padding : bytes := v2_header 512 1 0xdeadbeef [].

Definition example_bad_padding_header : TBFHeader :=
  mkHeader false false false (hdr_fields example_bad_padding) [] (Some 2).

(** [tlv.get_tlvid() == tlvid]. *)
Definition tlv_matches (tlvid : Z) (t : TBFTLV) : bool :=
  match get_tlvid t with
  | Ok v => py_eq_int v tlvid
  | Raise _ => false
  end.

(** The sum of [get_size()] over a list of TLVs. *)
Fixpoint sizes_sum (l : list TBFTLV) : result Z :=
  match l with
  | [] => Ok 0
  | t :: l' => sz ← get_size t; rest ← sizes_sum l'; Ok (sz + rest)
  end.

(** [self._get_tlv(tlvid).name]. *)
Definition tlv_attr (tlvid : Z) (name : string) (self : TBFHeader) : result pyval :=
  tlv ← _get_tlv tlvid self; ref_attr tlv name self.

(** The first TLV of a list whose id is [tlvid], and the positions from [i]
    on of all of them. *)
Fixpoint find_tlv (tlvid : Z) (l : list TBFTLV) : option TBFTLV :=
  match l with
  | [] => None
  | t :: l' => if tlv_matches tlvid t then Some t else find_tlv tlvid l'
  end.

Fixpoint match_positions (tlvid : Z) (i : nat) (l : list TBFTLV) : list nat :=
  match l with
  | [] => []
  | t :: l' =>
      if tlv_matches tlvid t then i :: match_positions tlvid (S i) l'
      else match_positions tlvid (S i) l'
  end.

(** A TLV object the mutators can work on: it has an id, and when that is
    the id of Main or of Program its [protected_size] and [init_fn_offset]
    are integers. *)
Definition tlv_ok (t : TBFTLV) : Prop :=
  (∃ v, get_tlvid t = Ok v) ∧
  (tlv_matches HEADER_TYPE_MAIN t = true ∨ tlv_matches HEADER_TYPE_PROGRAM t = true →
   ∃ P I0, getattr t "protected_size" = Some (PInt P) ∧
           getattr t "init_fn_offset" = Some (PInt I0)).

(** The same, as a test. *)
Definition is_int (v : option pyval) : bool :=
  match v with
  | Some (PInt _) => true
  | _ => false
  end.

Definition tlv_okb (t : TBFTLV) : bool :=
  match get_tlvid t with
  | Ok _ =>
      if tlv_matches HEADER_TYPE_MAIN t || tlv_matches HEADER_TYPE_PROGRAM t
      then is_int (getattr t "protected_size") && is_int (getattr t "init_fn_offset")
      else true
  | Raise _ => false
  end.

(** An application header with a Main TLV (init_fn_offset 41, protected_size
    0, minimum_ram_size 4096), a PackageName TLV ("blink") and a KernelVersion
    TLV (2.1). *)
Definition example_named_app : bytes :=
  v2_header 8192 1 0
    (tlv_record 1 (le_split 4 41 ++ le_split 4 0 ++ le_split 4 4096)
     ++ tlv_record 3 [Byte.x62; Byte.x6c; Byte.x69; Byte.x6e; Byte.x6b]
     ++ tlv_record 8 (le_split 2 2 ++ le_split 2 1)).

(** [if tlv: tlv.name = v] on the list of TLVs. *)
Definition assign_if (tlv : option nat) (name : string) (v : pyval) (l : list TBFTLV)
  : list TBFTLV :=
  match tlv with
  | Some r => alter (λ t, setattr t name v) r l
  | None => l
  end.

(** ** Well-formed version 2 header buffers

    The payload of a TLV of type [tipe] is well formed: it has the length of
    its variant, a WriteableFlashRegions payload is a sequence of 8-byte
    pairs, a PackageName payload is UTF-8. *)
Definition wf_payload (tipe : Z) (payload : bytes) : bool :=
  if tipe =? HEADER_TYPE_MAIN then len payload =? 12
  else if tipe =? HEADER_TYPE_PROGRAM then len payload =? 20
  else if tipe =? HEADER_TYPE_WRITEABLE_FLASH_REGIONS then len payload mod 8 =? 0
  else if tipe =? HEADER_TYPE_PACKAGE_NAME then
    match utf8_decode payload with Some _ => true | None => false end
  else if tipe =? HEADER_TYPE_PIC_OPTION_1 then len payload =? 40
  else if tipe =? HEADER_TYPE_FIXED_ADDRESSES then len payload =? 8
  else if tipe =? HEADER_TYPE_KERNEL_VERSION then len payload =? 4
  else true.

Definition is_zero (b : byte) : bool := bool_decide (b = Byte.x00).

(** A well-formed TLV at the head of the stream [s]: prefix, payload of the
    declared length, zero padding to four bytes.  The result is the size of
    the TLV on the wire. *)
Definition wf_record (s : bytes) : option nat :=
  if len s <? 4 then None
  else
    let tipe := le_combine (slice 0 2 s) in
    let length := Z.to_nat (le_combine (slice 2 4 s)) in
    let padded := Z.to_nat (roundup (le_combine (slice 2 4 s)) 4) in
    if len s <? 4 + Z.of_nat padded then None
    else if wf_payload tipe (slice 4 (4 + length) s)
            && forallb is_zero (slice (4 + length) (4 + padded) s)
    then Some (4 + padded)%nat
    else None.

(** The stream is a sequence of well-formed TLVs; [fuel] bounds their
    number. *)
Fixpoint wf_stream (fuel : nat) (s : bytes) : bool :=
  match s with
  | [] => true
  | _ :: _ =>
      match fuel with
      | O => false
      | S fuel' =>
          match wf_record s with
          | Some n => wf_stream fuel' (skipn n s)
          | None => false
          end
      end
  end.

(** A well-formed version 2 header buffer: version 2, [header_size] is the
    length of the buffer (the base fields and the TLV stream), the stored
    checksum is the computed one, the TLVs are well formed. *)
Definition well_formed_v2 (b : bytes) : bool :=
  (16 <=? len b) && (hdr_version b =? 2) && (hdr_header_size b =? len b)
  && (hdr_computed_checksum b =? hdr_checksum b)
  && wf_stream (length b) (skipn 16 b).

(** The number of zero bytes [get_binary] appends for the protected
    region. *)
Definition protected_padding (h : TBFHeader) : Z :=
  match binary_tlv_attr "protected_size" h ≫= as_int with
  | Ok p => if p >? 0 then p else 0
  | Raise _ => 0
  end.

(** A version 2 header buffer with its checksum filled in. *)
Definition v2_header_sealed (total_size flags : Z) (stream : bytes) : bytes :=
  v2_header total_size flags (_checksum (v2_header total_size flags 0 stream)) stream.

(** Two well-formed application headers: one with a Main TLV, a PackageName
    TLV ("blink") and a KernelVersion TLV, and one whose Main TLV declares a
    protected region of 8 bytes. *)
Definition example_sealed_app : bytes :=
  v2_header_sealed 8192 1
    (tlv_record 1 (le_split 4 41 ++ le_split 4 0 ++ le_split 4 4096)
     ++ tlv_record 3 [Byte.x62; Byte.x6c; Byte.x69; Byte.x6e; Byte.x6b]
     ++ tlv_record 8 (le_split 2 2 ++ le_split 2 1)).

Definition example_protected_app : bytes :=
  v2_header_sealed 8192 1
    (tlv_record 1 (le_split 4 41 ++ le_split 4 8 ++ le_split 4 4096)).

Definition example_protected_app_header : TBFHeader :=
  mkHeader true true false (hdr_fields example_protected_app)
    [TBFTLVMain_init (le_split 4 41 ++ le_split 4 8 ++ le_split 4 4096)] (Some 2).

(** [t.protected_size = P'; t.init_fn_offset = I']. *)
Definition bump (P' I' : Z) (t : TBFTLV) : TBFTLV :=
  setattr (setattr t "protected_size" (PInt P')) "init_fn_offset" (PInt I').

(** [if tlv.get_tlvid() == tlvid: setattr(tlv, field, value)]. *)
Definition modify_one (tlvid : Z) (field : string) (value : Z) (t : TBFTLV) : TBFTLV :=
  if tlv_matches tlvid t then setattr t field (PInt value) else t.

(** The header after the loop of [modify_tlv] has gone over the TLVs [pre],
    which are followed by [post]. *)
Definition modified_prefix (tlvid : Z) (field : string) (value : Z)
    (pre post : list TBFTLV) (self : TBFHeader) : TBFHeader :=
  mkHeader (valid self) (app self)
    (modified self || existsb (tlv_matches tlvid) pre)
    (fields self) (map (modify_one tlvid field value) pre ++ post) (version self).

(** A TLV [modify_tlv] can work on: it has an id, and when that is [tlvid]
    it has the attribute [field]. *)
Definition modifiable (tlvid : Z) (field : string) (t : TBFTLV) : Prop :=
  (∃ v, get_tlvid t = Ok v) ∧
  (tlv_matches tlvid t = true → is_Some (getattr t field)).

(** An unsigned integer of [bits] bits, as [struct.unpack] returns it. *)
Definition is_uint (bits : Z) (v : pyval) : Prop :=
  ∃ z, v = PInt z ∧ 0 <= z < 2 ^ bits.

(** ** Vocabulary for the footer

    The credential types the constructor of the credentials TLV knows. *)
Definition recognised_credentials (credentials_type : Z) : bool :=
  (credentials_type =? Credentials.CREDENTIALS_TYPE_RESERVED)
  || (credentials_type =? Credentials.CREDENTIALS_TYPE_SHA256)
  || (credentials_type =? Credentials.CREDENTIALS_TYPE_SHA384)
  || (credentials_type =? Credentials.CREDENTIALS_TYPE_SHA512)
  || (credentials_type =? Credentials.CREDENTIALS_TYPE_RSA4096KEY).

(** One TLV of a footer: type, length, body; there is no padding. *)
Definition footer_record (tipe : Z) (body : bytes) : bytes :=
  le_split 2 tipe ++ le_split 2 (len body) ++ body.

(** The body of a credentials TLV the constructor knows: the credential
    type, then the credential. *)
Definition credentials_body (body : bytes) : Prop :=
  4 <= len body < 2 ^ 16 ∧ recognised_credentials (le_combine (slice 0 4 body)) = true.

(** A footer made of credentials TLVs with these bodies. *)
Definition credentials_footer (bodies : list bytes) : bytes :=
  concat (map (footer_record Footer.FOOTER_TYPE_CREDENTIALS) bodies).

(** * Properties *)

(** ** Lists of bytes *)

Lemma len_app {A} (l1 l2 : list A) : len (l1 ++ l2) = len l1 + len l2.
Proof. unfold len. rewrite length_app. lia. Qed.

Lemma len_nonneg {A} (l : list A) : 0 <= len l.
Proof. unfold len. lia. Qed.

Lemma len_zeros n : 0 <= n → len (zeros n) = n.
Proof. intros Hn. unfold len, zeros. rewrite repeat_length. lia. Qed.

Lemma len_le_split n v : len (le_split n v) = Z.of_nat n.
Proof. unfold len. by rewrite length_le_split. Qed.

Lemma slice_0 n (b : bytes) : slice 0 n b = firstn n b.
Proof. unfold slice. rewrite Nat.sub_0_r. reflexivity. Qed.

Lemma slice_skipn k i j (b : bytes) : slice i j (skipn k b) = slice (k + i) (k + j) b.
Proof.
  unfold slice. rewrite skipn_skipn.
  replace (k + j - (k + i))%nat with (j - i)%nat by lia.
  by rewrite (Nat.add_comm i k).
Qed.

(** ** WriteableFlashRegions *)

Lemma unpack_regions_length n buffer : length (unpack_regions n buffer) = n.
Proof. revert buffer. induction n as [|n IH]; intros buffer; simpl; [done|]. by rewrite IH. Qed.

Lemma unpack_regions_lookup n buffer i :
  (i < n)%nat →
  unpack_regions n buffer !! i =
    Some (le_combine (slice (8 * i) (8 * i + 4) buffer),
          le_combine (slice (8 * i + 4) (8 * i + 8) buffer)).
Proof.
  revert buffer i. induction n as [|n IH]; intros buffer i Hi; [lia|].
  destruct i as [|i]; simpl.
  - reflexivity.
  - rewrite IH by lia. rewrite !slice_skipn.
    repeat f_equal; lia.
Qed.

Lemma TBFTLVWriteableFlashRegions_valid buffer :
  getattr (TBFTLVWriteableFlashRegions_init buffer) "valid" = Some (PBool false).
Proof.
  unfold TBFTLVWriteableFlashRegions_init, getattr.
  destruct (len buffer mod 8 =? 0); simpl.
  - rewrite lookup_insert_ne by done. by rewrite lookup_singleton_eq.
  - by rewrite lookup_singleton_eq.
Qed.

(** C10: for every buffer whose length is a multiple of 8, the constructor of
    the WriteableFlashRegions TLV stores the list of (offset, length) pairs
    read from the successive 8-byte groups of the buffer, and the [valid]
    attribute of the object is [False]. *)
Theorem writeable_flash_regions_never_valid (buffer : bytes) :
  len buffer mod 8 = 0 →
  let tlv := TBFTLVWriteableFlashRegions_init buffer in
  getattr tlv "valid" = Some (PBool false) ∧
  ∃ regions : list (Z * Z),
    getattr tlv "writeable_flash_regions" = Some (PRegions regions) ∧
    len regions = len buffer / 8 ∧
    ∀ i : nat, (i < length regions)%nat →
      regions !! i =
        Some (le_combine (slice (8 * i) (8 * i + 4) buffer),
              le_combine (slice (8 * i + 4) (8 * i + 8) buffer)).
Proof.
  intros Hlen tlv. split; [apply TBFTLVWriteableFlashRegions_valid|].
  exists (unpack_regions (Z.to_nat (len buffer / 8)) buffer).
  subst tlv. unfold TBFTLVWriteableFlashRegions_init, getattr.
  rewrite Hlen. simpl. rewrite lookup_insert_eq. split; [done|]. split.
  - unfold len at 1. rewrite unpack_regions_length.
    pose proof (len_nonneg buffer). apply Z2Nat.id. apply Z.div_pos; lia.
  - intros i Hi. rewrite unpack_regions_length in Hi.
    by apply unpack_regions_lookup.
Qed.

Lemma writeable_flash_regions_never_valid_witness :
  let buffer := le_split 4 0x30000 ++ le_split 4 0x400 ++ le_split 4 0x38000 ++ le_split 4 0x800 in
  let tlv := TBFTLVWriteableFlashRegions_init buffer in
  getattr tlv "valid" = Some (PBool false) ∧
  ∃ regions : list (Z * Z),
    getattr tlv "writeable_flash_regions" = Some (PRegions regions) ∧
    len regions = len buffer / 8 ∧
    ∀ i : nat, (i < length regions)%nat →
      regions !! i =
        Some (le_combine (slice (8 * i) (8 * i + 4) buffer),
              le_combine (slice (8 * i + 4) (8 * i + 8) buffer)).
Proof.
  apply (writeable_flash_regions_never_valid
           (le_split 4 0x30000 ++ le_split 4 0x400 ++ le_split 4 0x38000 ++ le_split 4 0x800)).
  reflexivity.
Defined.

(** ** [struct]: packing and unpacking *)

Lemma firstn_le_split_app n v (r : bytes) : firstn n (le_split n v ++ r) = le_split n v.
Proof.
  rewrite firstn_app, length_le_split, Nat.sub_diag. simpl.
  rewrite app_nil_r. apply firstn_all2. by rewrite length_le_split.
Qed.

Lemma skipn_le_split_app n v (r : bytes) : skipn n (le_split n v ++ r) = r.
Proof.
  rewrite skipn_app, length_le_split, Nat.sub_diag. simpl.
  rewrite skipn_all2; [done|]. by rewrite length_le_split.
Qed.

Lemma le_combine_le_split_small n v :
  0 <= v < 2 ^ (8 * Z.of_nat n) → le_combine (le_split n v) = v.
Proof.
  intros Hv. rewrite le_combine_split. apply Z.mod_small.
  by rewrite Z.mul_comm.
Qed.

(** ** The footer credentials TLV *)

Section CredentialsProperties.

Import Credentials.

Variables sha256 sha384 sha512 : bytes → bytes.
Variable RsaKey : Type.
Variable key_n : RsaKey → Z.
Variable pkcs1_15_verify : RsaKey → bytes → bytes → bool.

Local Abbreviation verify := (verify sha256 sha384 sha512 RsaKey key_n pkcs1_15_verify).
Local Abbreviation TBFFooterTLVCredentials_init :=
  (TBFFooterTLVCredentials_init sha256 sha384 sha512 RsaKey key_n pkcs1_15_verify).
Local Abbreviation init_hash := (init_hash sha256 sha384 sha512 RsaKey key_n pkcs1_15_verify).
Local Abbreviation digest := (digest sha256 sha384 sha512).

Lemma verify_hash_type keys blob self ct body :
  is_hash_type ct →
  credentials_type self = Some ct →
  buffer self = Some body →
  verify keys (Some blob) self =
    (Ok tt, with_verified (if bytes_eqb body (digest ct blob) then "yes" else "no") self).
Proof.
  intros Hct Htype Hbuf. unfold Credentials.verify, verify_hash, digest.
  rewrite Htype, Hbuf.
  destruct Hct as [-> | [-> | ->]]; simpl; by destruct (bytes_eqb _ _).
Qed.

Lemma verify_no_blob keys self : verify keys None self = (Ok tt, self).
Proof. reflexivity. Qed.

Lemma unpack_credentials_type ct body :
  0 <= ct < 2 ^ 32 →
  struct_unpack [I] (slice 0 4 (le_split 4 ct ++ body)) = Ok [ct].
Proof.
  intros Hct. rewrite slice_0. fold I. rewrite firstn_le_split_app.
  unfold struct_unpack. rewrite length_le_split.
  change (Nat.eqb I (fmt_size [I])) with true. cbn [unpack_fields].
  rewrite firstn_all2 by (by rewrite length_le_split).
  by rewrite le_combine_le_split_small.
Qed.

Lemma init_hash_type ct body blob :
  is_hash_type ct →
  TBFFooterTLVCredentials_init (le_split 4 ct ++ body) blob =
    init_hash ct (if ct =? CREDENTIALS_TYPE_SHA256 then 64
                  else if ct =? CREDENTIALS_TYPE_SHA384 then 96 else 128)
      (le_split 4 ct ++ body) blob (mkCredentials false "unknown" None None).
Proof.
  intros Hct. unfold Credentials.TBFFooterTLVCredentials_init.
  assert ((len (le_split 4 ct ++ body) >=? 4) = true) as ->.
  { apply Z.geb_le. rewrite len_app, len_le_split. pose proof (len_nonneg body). lia. }
  rewrite unpack_credentials_type by (destruct Hct as [-> | [-> | ->]]; done).
  by destruct Hct as [-> | [-> | ->]].
Qed.

Lemma init_hash_result ct n body blob :
  is_hash_type ct →
  init_hash ct n (le_split 4 ct ++ body) blob (mkCredentials false "unknown" None None) =
    Ok (mkCredentials (len body =? n)
          match blob with
          | None => "unknown"
          | Some blob => if bytes_eqb body (digest ct blob) then "yes" else "no"
          end
          (Some ct) (Some body)).
Proof.
  intros Hct. unfold Credentials.init_hash.
  rewrite !skipn_le_split_app. cbn [valid verified].
  destruct blob as [blob|].
  - destruct (len body =? n); unfold with_valid; cbn [valid verified credentials_type buffer];
      by rewrite (verify_hash_type [] blob _ ct body).
  - by destruct (len body =? n).
Qed.

(** C1: what the constructor does for a hash credential.  The [valid] flag is
    set exactly when the body is 64, 96 or 128 bytes long: twice the length of
    a SHA-256, SHA-384 or SHA-512 digest.  A body of the digest length (32,
    48 or 64 bytes under the matching type) is therefore recorded as not
    valid. *)
Theorem hash_credential_valid_length (body : bytes) (blob : option bytes) :
  (∃ c, TBFFooterTLVCredentials_init (le_split 4 CREDENTIALS_TYPE_SHA256 ++ body) blob = Ok c ∧
        valid c = (len body =? 64)) ∧
  (∃ c, TBFFooterTLVCredentials_init (le_split 4 CREDENTIALS_TYPE_SHA384 ++ body) blob = Ok c ∧
        valid c = (len body =? 96)) ∧
  (∃ c, TBFFooterTLVCredentials_init (le_split 4 CREDENTIALS_TYPE_SHA512 ++ body) blob = Ok c ∧
        valid c = (len body =? 128)) ∧
  (∃ c, TBFFooterTLVCredentials_init
          (le_split 4 CREDENTIALS_TYPE_SHA256 ++ repeat Byte.x00 32) blob = Ok c ∧
        valid c = false).
Proof.
  repeat split.
  - eexists. rewrite init_hash_type, init_hash_result by (left; done). done.
  - eexists. rewrite init_hash_type, init_hash_result by (right; left; done). done.
  - eexists. rewrite init_hash_type, init_hash_result by (right; right; done). done.
  - eexists. rewrite init_hash_type, init_hash_result by (left; done). done.
Qed.

(** C9: verification of a hash credential.  Without the covered blob,
    [verify] leaves the object as it is, and the constructor leaves
    [verified] at "unknown".  With the blob, [verified] becomes "yes" when
    the body of the TLV is the digest of the blob and "no" when it differs;
    the constructor, which calls [verify], gives the same verdict. *)
Theorem verify_hash_credential (ct : Z) (body : bytes) (keys : list RsaKey)
    (self : TBFFooterTLVCredentials) :
  is_hash_type ct →
  credentials_type self = Some ct →
  buffer self = Some body →
  verify keys None self = (Ok tt, self) ∧
  (∃ c, TBFFooterTLVCredentials_init (le_split 4 ct ++ body) None = Ok c ∧
        verified c = "unknown"%string) ∧
  ∀ blob : bytes,
    (body = digest ct blob →
       verified (verify keys (Some blob) self).2 = "yes"%string ∧
       ∃ c, TBFFooterTLVCredentials_init (le_split 4 ct ++ body) (Some blob) = Ok c ∧
            verified c = "yes"%string) ∧
    (body ≠ digest ct blob →
       verified (verify keys (Some blob) self).2 = "no"%string ∧
       ∃ c, TBFFooterTLVCredentials_init (le_split 4 ct ++ body) (Some blob) = Ok c ∧
            verified c = "no"%string).
Proof.
  intros Hct Htype Hbuf. split; [apply verify_no_blob|]. split.
  - eexists. rewrite init_hash_type, init_hash_result by done. done.
  - intros blob. rewrite (verify_hash_type keys blob self ct body) by done.
    split; intros Hbody.
    + assert (bytes_eqb body (digest ct blob) = true) as Heq
        by (by apply bool_decide_eq_true).
      split; [by rewrite Heq|].
      eexists. rewrite init_hash_type, init_hash_result by done. simpl.
      by rewrite Heq.
    + assert (bytes_eqb body (digest ct blob) = false) as Heq
        by (by apply bool_decide_eq_false).
      split; [by rewrite Heq|].
      eexists. rewrite init_hash_type, init_hash_result by done. simpl.
      by rewrite Heq.
Qed.

End CredentialsProperties.

(** The theorem at a stand-in for the digest functions (the header checksum,
    on 32 bytes): a body that is the digest verifies, also on an object built
    by hand. *)
Lemma verify_hash_credential_witness :
  let sha := λ blob : bytes, le_split 32 (_checksum blob) in
  let blob := [Byte.x54; Byte.x6f; Byte.x63; Byte.x6b] in
  let self := Credentials.mkCredentials false "unknown"
                (Some Credentials.CREDENTIALS_TYPE_SHA256) (Some (sha blob)) in
  Credentials.verified
    (Credentials.verify sha sha sha unit (λ _, 0) (λ _ _ _, false) [] (Some blob) self).2
    = "yes"%string.
Proof.
  intros sha blob self.
  destruct (verify_hash_credential sha sha sha unit (λ _, 0) (λ _ _ _, false)
              Credentials.CREDENTIALS_TYPE_SHA256 (sha blob) [] self)
    as (_ & _ & Hblob); [left; reflexivity | reflexivity | reflexivity |].
  destruct (Hblob blob) as [Hyes _].
  apply Hyes. reflexivity.
Defined.

(** ** Arithmetic on lengths *)

Lemma len_firstn {A} n (l : list A) : len (firstn n l) = Z.min (Z.of_nat n) (len l).
Proof. unfold len. rewrite length_firstn. lia. Qed.

Lemma len_skipn {A} n (l : list A) : len (skipn n l) = Z.max 0 (len l - Z.of_nat n).
Proof. unfold len. rewrite length_skipn. lia. Qed.

(** Lengths of slices and concatenations, then linear arithmetic. *)
Ltac list_len :=
  unfold len, slice, zeros, H, I in *;
  repeat (rewrite ?length_firstn, ?length_skipn, ?length_app, ?length_le_split,
            ?repeat_length, ?length_cons, ?length_nil in * );
  simpl fmt_size in *; try lia.

(** A comparison of the source that is known to hold or to fail. *)
Ltac bool_lia :=
  rewrite ?Z.geb_leb, ?Z.gtb_ltb;
  first [ apply Z.leb_le | apply Z.ltb_lt | apply Z.leb_gt | apply Z.ltb_ge
        | apply Z.eqb_eq | apply Z.eqb_neq | apply Nat.eqb_eq | apply Nat.eqb_neq ];
  list_len.

Lemma roundup_4_bounds x : 0 <= x → x <= roundup x 4 < x + 4 ∧ roundup x 4 mod 4 = 0.
Proof.
  intros Hx. unfold roundup. destruct (x mod 4 =? 0) eqn:Hmod.
  - apply Z.eqb_eq in Hmod. lia.
  - apply Z.eqb_neq in Hmod. pose proof (Z.mod_pos_bound x 4).
    split; [lia|]. rewrite (Z.div_mod x 4) at 1 by lia.
    replace (4 * (x / 4) + x mod 4 + 4 - x mod 4) with ((x / 4 + 1) * 4) by lia.
    apply Z.mod_mul. lia.
Qed.

(** ** The header parser *)

Lemma struct_unpack_exact fmt (b : bytes) :
  length b = fmt_size fmt → struct_unpack fmt b = Ok (unpack_fields fmt b).
Proof. intros Hlen. unfold struct_unpack. by rewrite Hlen, Nat.eqb_refl. Qed.

Lemma unpack_base_v2 (b : bytes) :
  16 <= len b →
  struct_unpack [H; I; I; I] (slice 0 14 (skipn 2 b)) =
    Ok [hdr_header_size b; hdr_total_size b; hdr_flags b; hdr_checksum b].
Proof.
  intros Hlen. rewrite struct_unpack_exact by list_len.
  cbn [unpack_fields].
  unfold hdr_header_size, hdr_total_size, hdr_flags, hdr_checksum, slice, H, I.
  rewrite ?skipn_firstn_comm, ?firstn_firstn, ?skipn_skipn. done.
Qed.

Lemma unpack_version (b : bytes) :
  2 <= len b → struct_unpack [H] (slice 0 2 b) = Ok [hdr_version b].
Proof.
  intros Hlen. rewrite struct_unpack_exact by list_len.
  cbn [unpack_fields]. unfold hdr_version, slice, H.
  by rewrite ?firstn_firstn.
Qed.

Lemma pack_into_I_zero (b : bytes) :
  16 <= len b → pack_into_I b 12 0 = Ok (firstn 12 b ++ zeros 4 ++ skipn 16 b).
Proof.
  intros Hlen. unfold pack_into_I.
  assert ((Z.of_nat 12 + 4 <=? len b) = true) as -> by bool_lia. done.
Qed.

(** The constructor on a buffer that holds the base fields of a version 2
    header. *)
Lemma TBFHeader_init_v2 (b : bytes) :
  16 <= len b →
  hdr_version b = 2 →
  TBFHeader_init b =
    if (len b >=? hdr_header_size b) && (hdr_header_size b >=? 16) then
      if hdr_header_size b - 16 >? 0 then
        tlvs ← parse_tlvs (mkParse (skipn 16 b) (hdr_header_size b - 16) []);
        Ok (mkHeader true true false (hdr_fields b) tlvs (Some 2))
      else
        Ok (mkHeader (hdr_computed_checksum b =? hdr_checksum b) false false
              (hdr_fields b) [] (Some 2))
    else Ok (mkHeader false false false (hdr_fields b) [] (Some 2)).
Proof.
  intros Hlen Hver. unfold TBFHeader_init.
  assert ((len b <? 2) = false) as -> by bool_lia.
  rewrite unpack_version by lia.
  cbn [mbind result_bind nth]. rewrite Hver. cbn [Z.eqb Pos.eqb andb].
  assert ((len (skipn 2 b) >=? 14) = true) as -> by (rewrite len_skipn; bool_lia).
  rewrite unpack_base_v2 by done.
  cbn [mbind result_bind set_fields]. fold (hdr_fields b).
  assert (getitem (hdr_fields b) "header_size" = Ok (hdr_header_size b)) as -> by done.
  assert (getitem (hdr_fields b) "checksum" = Ok (hdr_checksum b)) as -> by done.
  cbn [mbind result_bind].
  destruct ((len b >=? hdr_header_size b) && (hdr_header_size b >=? 16)) eqn:Hsize; [|done].
  apply andb_prop in Hsize as [Hsize1 Hsize2].
  rewrite Z.geb_leb in Hsize1, Hsize2. apply Z.leb_le in Hsize1, Hsize2.
  rewrite pack_into_I_zero by (rewrite slice_0, len_firstn; lia).
  cbn [mbind result_bind]. rewrite skipn_skipn. simpl Nat.add.
  destruct (hdr_header_size b - 16 >? 0) eqn:Happ.
  - assert ((len (skipn 16 b) >=? hdr_header_size b - 16) = true) as ->
      by (rewrite len_skipn; bool_lia).
    cbn [andb]. destruct (parse_tlvs _); [|done]. cbn [mbind result_bind].
    by destruct (_ =? _).
  - cbn [andb]. rewrite slice_0. unfold hdr_computed_checksum.
    by destruct (_ =? _).
Qed.

Lemma parse_tlvs_loop s :
  parse_tlvs s =
    if ps_remaining s >=? 4 then s' ← parse_tlv s; parse_tlvs s' else Ok (ps_tlvs s).
Proof.
  rewrite parse_tlvs_equation_1. unfold parse_tlvs_unfold_clause_1.
  generalize (inspect (ps_remaining s >=? 4)).
  intros [[] Hloop]; simpl.
  - destruct (parse_tlv s); by rewrite Hloop.
  - by rewrite Hloop.
Qed.

Lemma unpack_prefix (buffer : bytes) :
  4 <= len buffer →
  struct_unpack [H; H] (slice 0 4 buffer) =
    Ok [le_combine (slice 0 2 buffer); le_combine (slice 2 4 buffer)].
Proof.
  intros Hlen. rewrite struct_unpack_exact by list_len.
  cbn [unpack_fields]. unfold slice, H.
  by rewrite ?skipn_firstn_comm, ?firstn_firstn, ?skipn_skipn.
Qed.

Lemma unpack_prefix_range (buffer : bytes) :
  0 <= le_combine (slice 0 2 buffer) < 2 ^ 16 ∧ 0 <= le_combine (slice 2 4 buffer) < 2 ^ 16.
Proof.
  split.
  - pose proof (le_combine_bound (slice 0 2 buffer)) as Hb.
    assert (2 ^ (8 * Z.of_nat (length (slice 0 2 buffer))) <= 2 ^ 16); [|lia].
    apply Z.pow_le_mono_r; list_len.
  - pose proof (le_combine_bound (slice 2 4 buffer)) as Hb.
    assert (2 ^ (8 * Z.of_nat (length (slice 2 4 buffer))) <= 2 ^ 16); [|lia].
    apply Z.pow_le_mono_r; list_len.
Qed.

(** One iteration of the loop, on a buffer that holds a whole prefix. *)
Lemma parse_tlv_step s :
  4 <= len (ps_buffer s) →
  parse_tlv s =
    let tipe := le_combine (slice 0 2 (ps_buffer s)) in
    let length := le_combine (slice 2 4 (ps_buffer s)) in
    tlvs ← parse_dispatch tipe length (skipn 4 (ps_buffer s)) (ps_remaining s - 4) (ps_tlvs s);
    Ok (mkParse (skipn (Z.to_nat (roundup length 4)) (skipn 4 (ps_buffer s)))
          (ps_remaining s - 4 - roundup length 4) tlvs).
Proof. intros Hlen. unfold parse_tlv. by rewrite unpack_prefix. Qed.

Lemma parse_tlv_remaining s s' :
  parse_tlv s = Ok s' → ps_remaining s' <= ps_remaining s - 4.
Proof.
  unfold parse_tlv. intros Hbody.
  destruct (struct_unpack _ _) as [base|] eqn:Hbase; simpl in Hbody; [|discriminate].
  destruct (parse_dispatch _ _ _ _ _); simpl in Hbody; [|discriminate].
  injection Hbody as <-. cbn [ps_remaining].
  unfold struct_unpack in Hbase. destruct (Nat.eqb _ _); [|discriminate].
  injection Hbase as <-. cbn [unpack_fields nth].
  pose proof (le_combine_bound (firstn H (skipn H (slice 0 4 (ps_buffer s))))) as [Hlen _].
  pose proof (roundup_4_bounds _ Hlen). lia.
Qed.

(** The rule of the TLV loop: an invariant of the body holds when the loop
    exits, and an exception of the body is the outcome of the loop. *)
Lemma parse_tlvs_rule (Inv : parse_state → Prop) (Post : result (list TBFTLV) → Prop) :
  (∀ s, Inv s → ps_remaining s < 4 → Post (Ok (ps_tlvs s))) →
  (∀ s, Inv s → 4 <= ps_remaining s →
     match parse_tlv s with Ok s' => Inv s' | Raise e => Post (Raise e) end) →
  ∀ s, Inv s → Post (parse_tlvs s).
Proof.
  intros Hexit Hbody s.
  remember (Z.to_nat (ps_remaining s)) as n eqn:Hn.
  revert s Hn. induction (lt_wf n) as [n _ IH]. intros s -> Hinv.
  rewrite parse_tlvs_loop.
  destruct (ps_remaining s >=? 4) eqn:Hloop.
  - apply Z.geb_le in Hloop. specialize (Hbody s Hinv Hloop).
    destruct (parse_tlv s) as [s'|e] eqn:Hstep; simpl; [|done].
    apply parse_tlv_remaining in Hstep.
    eapply IH; [|done|done]. lia.
  - apply Hexit; [done|]. lia.
Qed.

(** What one TLV adds to the list: nothing, or an object as the
    constructors build it; the only exception is a package name that is not
    UTF-8. *)
Lemma parse_dispatch_outcome tipe length buffer remaining tlvs :
  0 <= tipe < 2 ^ 16 → 0 <= length → remaining <= len buffer →
  parse_dispatch tipe length buffer remaining tlvs = Raise UnicodeDecodeError ∨
  parse_dispatch tipe length buffer remaining tlvs = Ok tlvs ∨
  ∃ t, parse_dispatch tipe length buffer remaining tlvs = Ok (tlvs ++ [t]) ∧ parsed_tlv t.
Proof.
  intros Htipe Hlength Hrem. unfold parse_dispatch.
  repeat match goal with
  | |- context [if ?c then _ else _] => destruct c eqn:?
  end; auto.
  all: try (right; right; eexists; split; [reflexivity|]).
  all: repeat match goal with
  | Hc : (_ && _) = true |- _ => apply andb_prop in Hc as [? ?]
  | Hc : (_ >=? _) = true |- _ => rewrite Z.geb_leb in Hc; apply Z.leb_le in Hc
  | Hc : (_ =? _) = true |- _ => apply Z.eqb_eq in Hc
  end.
  - apply parsed_main. list_len.
  - apply parsed_program. list_len.
  - apply parsed_wfr.
  - destruct (TBFTLVPackageName_init _) as [t|e] eqn:Hname; simpl.
    + right. right. exists t. split; [done|]. by eapply parsed_name.
    + left. unfold TBFTLVPackageName_init in Hname.
      destruct (utf8_decode _); [discriminate|]. by injection Hname as <-.
  - apply parsed_pic. list_len.
  - apply parsed_fixed. list_len.
  - apply parsed_kernel. list_len.
  - apply parsed_unknown; [|done]. unfold known_type.
    repeat match goal with Hc : (_ =? _) = false |- _ => rewrite Hc; clear Hc end. done.
Qed.

(** The TLV loop returns a list of parsed objects, or raises the decoding
    error of a package name. *)
Lemma parse_tlvs_outcome s :
  ps_remaining s <= len (ps_buffer s) →
  Forall parsed_tlv (ps_tlvs s) →
  parse_tlvs s = Raise UnicodeDecodeError ∨
  ∃ tlvs, parse_tlvs s = Ok tlvs ∧ Forall parsed_tlv tlvs.
Proof.
  intros Hrem Hall.
  apply (parse_tlvs_rule
           (λ s, ps_remaining s <= len (ps_buffer s) ∧ Forall parsed_tlv (ps_tlvs s))
           (λ r, r = Raise UnicodeDecodeError ∨ ∃ tlvs, r = Ok tlvs ∧ Forall parsed_tlv tlvs));
    [| |done].
  - intros s' [_ Hall'] _. right. eauto.
  - clear s Hrem Hall. intros s [Hrem Hall] Hloop.
    rewrite parse_tlv_step by lia. cbn zeta.
    pose proof (unpack_prefix_range (ps_buffer s)) as [Htipe Hlength].
    pose proof (roundup_4_bounds _ (proj1 Hlength)) as [Hround _].
    destruct (parse_dispatch_outcome (le_combine (slice 0 2 (ps_buffer s)))
                (le_combine (slice 2 4 (ps_buffer s))) (skipn 4 (ps_buffer s))
                (ps_remaining s - 4) (ps_tlvs s)) as [-> | [-> | (t & -> & Ht)]];
      [done|lia|rewrite len_skipn; lia| | |]; cbn [mbind result_bind].
    + by left.
    + split; [|done]. cbn [ps_remaining ps_buffer]. rewrite !len_skipn. lia.
    + split.
      * cbn [ps_remaining ps_buffer]. rewrite !len_skipn. lia.
      * cbn [ps_tlvs]. apply Forall_app. split; [done|]. by apply Forall_singleton.
Qed.

(** The constructor, case by case. *)
Lemma TBFHeader_init_cases (b : bytes) :
  TBFHeader_init b =
    if len b <? 2 then Ok (mkHeader false false false ∅ [] None)
    else if (hdr_version b =? 1) && (len b >=? 76) then
      Ok (mkHeader (_checksum (slice 0 72 b) =? nth 17 (hdr_v1_base b) 0) true false
            (hdr_v1_fields b) [] (Some 1))
    else if (hdr_version b =? 2) && (len b >=? 16) then
      if (len b >=? hdr_header_size b) && (hdr_header_size b >=? 16) then
        if hdr_header_size b - 16 >? 0 then
          tlvs ← parse_tlvs (mkParse (skipn 16 b) (hdr_header_size b - 16) []);
          Ok (mkHeader true true false (hdr_fields b) tlvs (Some 2))
        else
          Ok (mkHeader (hdr_computed_checksum b =? hdr_checksum b) false false
                (hdr_fields b) [] (Some 2))
      else Ok (mkHeader false false false (hdr_fields b) [] (Some 2))
    else Ok (mkHeader false false false ∅ [] (Some (hdr_version b))).
Proof.
  destruct (len b <? 2) eqn:Hshort.
  { unfold TBFHeader_init. by rewrite Hshort. }
  apply Z.ltb_ge in Hshort.
  destruct ((hdr_version b =? 1) && (len b >=? 76)) eqn:Hv1.
  { apply andb_prop in Hv1 as [Hver Hlen].
    rewrite Z.geb_leb in Hlen. apply Z.leb_le in Hlen.
    unfold TBFHeader_init.
    assert ((len b <? 2) = false) as -> by bool_lia.
    rewrite unpack_version by lia. cbn [mbind result_bind nth]. rewrite Hver.
    assert ((len (skipn 2 b) >=? 74) = true) as -> by (rewrite len_skipn; bool_lia).
    cbn [andb]. rewrite struct_unpack_exact by list_len.
    cbn [mbind result_bind]. rewrite skipn_skipn. simpl Nat.add.
    rewrite (slice_skipn 4 0 72 b). simpl Nat.add.
    fold (hdr_v1_base b). fold (hdr_v1_fields b).
    assert (getitem (hdr_v1_fields b) "checksum" = Ok (nth 17 (hdr_v1_base b) 0)) as -> by done.
    cbn [mbind result_bind]. apply Z.eqb_eq in Hver. rewrite Hver.
    by destruct (_ =? _). }
  destruct ((hdr_version b =? 2) && (len b >=? 16)) eqn:Hv2.
  { apply andb_prop in Hv2 as [Hver Hlen].
    rewrite Z.geb_leb in Hlen. apply Z.leb_le in Hlen. apply Z.eqb_eq in Hver.
    by apply TBFHeader_init_v2. }
  unfold TBFHeader_init.
  assert ((len b <? 2) = false) as -> by bool_lia.
  rewrite unpack_version by lia. cbn [mbind result_bind nth].
  replace (len (skipn 2 b) >=? 74) with (len b >=? 76)
    by (rewrite len_skipn, !Z.geb_leb; apply eq_true_iff_eq; rewrite !Z.leb_le; lia).
  rewrite Hv1.
  replace (len (skipn 2 b) >=? 14) with (len b >=? 16)
    by (rewrite len_skipn, !Z.geb_leb; apply eq_true_iff_eq; rewrite !Z.leb_le; lia).
  by rewrite Hv2.
Qed.

(** The outcome of the constructor: a header whose TLVs are parsed objects,
    or the decoding error of a package name. *)
Lemma TBFHeader_init_outcome (b : bytes) :
  TBFHeader_init b = Raise UnicodeDecodeError ∨
  ∃ h, TBFHeader_init b = Ok h ∧ Forall parsed_tlv (tlvs h).
Proof.
  rewrite TBFHeader_init_cases.
  repeat match goal with
  | |- context [if ?c then _ else _] => destruct c eqn:?
  end; try (right; eexists; split; [reflexivity|]; by apply Forall_nil).
  assert (hdr_header_size b - 16 <= len (skipn 16 b)) as Hrem.
  { repeat match goal with
    | Hc : (_ && _) = true |- _ => apply andb_prop in Hc as [? ?]
    | Hc : (_ >=? _) = true |- _ => rewrite Z.geb_leb in Hc; apply Z.leb_le in Hc
    end. rewrite len_skipn. lia. }
  destruct (parse_tlvs_outcome (mkParse (skipn 16 b) (hdr_header_size b - 16) []) Hrem
              (Forall_nil_2 _)) as [-> | (tlvs & -> & Hall)]; cbn [mbind result_bind].
  - by left.
  - right. eexists. split; [reflexivity|done].
Qed.

(** C3: a version 2 header whose stored checksum differs from the checksum
    computed over its [header_size] bytes (checksum word zeroed).  When the
    header is a padding slot ([header_size] is 16) the parser returns a header
    that is not valid.  When it is an application slot the header the parser
    returns is valid all the same; the only other outcome of the parser is the
    decoding error of a package name. *)
Theorem checksum_mismatch_validity (b : bytes) :
  hdr_version b = 2 →
  16 <= hdr_header_size b <= len b →
  hdr_computed_checksum b ≠ hdr_checksum b →
  (hdr_header_size b = 16 →
     ∃ h, TBFHeader_init b = Ok h ∧ is_app h = false ∧ is_valid h = false) ∧
  (hdr_header_size b > 16 →
     (∃ h, TBFHeader_init b = Ok h ∧ is_app h = true ∧ is_valid h = true) ∨
     TBFHeader_init b = Raise UnicodeDecodeError).
Proof.
  intros Hver Hsize Hsum.
  rewrite TBFHeader_init_v2 by (done || lia).
  assert (((len b >=? hdr_header_size b) && (hdr_header_size b >=? 16)) = true) as ->.
  { apply andb_true_intro. split; bool_lia. }
  split; intros Hslot.
  - assert ((hdr_header_size b - 16 >? 0) = false) as -> by bool_lia.
    eexists. split; [reflexivity|]. split; [done|].
    unfold is_valid. cbn [valid]. by apply Z.eqb_neq.
  - assert ((hdr_header_size b - 16 >? 0) = true) as -> by bool_lia.
    assert (hdr_header_size b - 16 <= len (skipn 16 b)) as Hrem
      by (rewrite len_skipn; lia).
    destruct (parse_tlvs_outcome (mkParse (skipn 16 b) (hdr_header_size b - 16) []) Hrem
                (Forall_nil_2 _)) as [-> | (tlvs & -> & _)]; cbn [mbind result_bind].
    + by right.
    + left. eexists. split; [reflexivity|done].
Qed.

Lemma checksum_mismatch_validity_witness :
  (∃ h, TBFHeader_init example_bad_padding = Ok h ∧
        is_app h = false ∧ is_valid h = false) ∧
  ((∃ h, TBFHeader_init
           (v2_header 512 1 0xdeadbeef (tlv_record 1 (le_split 12 0x29))) = Ok h ∧
         is_app h = true ∧ is_valid h = true) ∨
   TBFHeader_init (v2_header 512 1 0xdeadbeef (tlv_record 1 (le_split 12 0x29)))
     = Raise UnicodeDecodeError).
Proof.
  split.
  - apply (checksum_mismatch_validity example_bad_padding);
      [vm_compute; reflexivity | vm_compute; split; discriminate
      | vm_compute; discriminate | vm_compute; reflexivity].
  - apply (checksum_mismatch_validity
             (v2_header 512 1 0xdeadbeef (tlv_record 1 (le_split 12 0x29))));
      [vm_compute; reflexivity | vm_compute; split; discriminate
      | vm_compute; discriminate | vm_compute; reflexivity].
Defined.

(** ** TLV objects as the parser builds them *)

Lemma init_fixed_valid c n fmt names buffer :
  length buffer = n →
  getattr (init_fixed c n fmt names buffer) "valid" = Some (PBool true).
Proof.
  intros Hlen. unfold init_fixed, getattr. rewrite Hlen, Nat.eqb_refl. simpl.
  by rewrite lookup_insert_eq.
Qed.

Lemma init_fixed_class c n fmt names buffer :
  class_of (init_fixed c n fmt names buffer) = c.
Proof. unfold init_fixed. by destruct (Nat.eqb _ _). Qed.

Lemma TBFTLVWriteableFlashRegions_class buffer :
  class_of (TBFTLVWriteableFlashRegions_init buffer) = TBFTLVWriteableFlashRegions.
Proof. unfold TBFTLVWriteableFlashRegions_init. by destruct (_ =? _). Qed.

Lemma TBFTLVPackageName_init_Ok buffer t :
  TBFTLVPackageName_init buffer = Ok t →
  ∃ name, utf8_decode buffer = Some name ∧
    t = mkTLV TBFTLVPackageName
          (<["valid"%string := PBool true]> {[ "package_name"%string := PStr name ]}).
Proof.
  unfold TBFTLVPackageName_init. destruct (utf8_decode buffer) as [name|]; [|done].
  intros [= <-]. eauto.
Qed.

Lemma parsed_tlv_valid t :
  parsed_tlv t →
  (fixed_length_class (class_of t) = true → getattr t "valid" = Some (PBool true)) ∧
  (class_of t = TBFTLVWriteableFlashRegions → getattr t "valid" = Some (PBool false)).
Proof.
  destruct 1 as [b Hb|b Hb|b|b t Ht|b Hb|b Hb|b Hb|tipe b Hk Hr].
  all: try (split; [intros _; by apply init_fixed_valid|];
            unfold TBFTLVMain_init, TBFTLVProgram_init, TBFTLVPicOption1_init,
              TBFTLVFixedAddress_init, TBFTLVKernelVersion_init;
            by rewrite init_fixed_class).
  - rewrite TBFTLVWriteableFlashRegions_class. split; [done|].
    intros _. apply TBFTLVWriteableFlashRegions_valid.
  - apply TBFTLVPackageName_init_Ok in Ht as (name & _ & ->). done.
  - done.
Qed.

Lemma parse_dispatch_mismatch tipe n length buffer remaining tlvs :
  expected_length tipe = Some n → length ≠ n →
  parse_dispatch tipe length buffer remaining tlvs = Ok tlvs.
Proof.
  intros Hexp Hne. unfold parse_dispatch.
  repeat match goal with
  | |- context [if ?c =? ?d then _ else _] => destruct (c =? d) eqn:?
  end;
  try (match goal with Hc : (_ =? _) = true |- _ => apply Z.eqb_eq in Hc; subst tipe end;
       vm_compute in Hexp; try discriminate; injection Hexp as <-;
       (destruct (_ && _) eqn:Hc; [|done]);
       apply andb_prop in Hc as [_ Hc]; apply Z.eqb_eq in Hc; done).
  unfold expected_length in Hexp.
  repeat match goal with Hc : (_ =? _) = false |- _ => rewrite Hc in Hexp; clear Hc end.
  discriminate.
Qed.

(** C8, as the code has it.  In an iteration of the TLV loop whose prefix
    carries a fixed-length type id (Main, Program, PicOption1, FixedAddress,
    KernelVersion) with another length than the expected one, nothing is
    appended to the TLV list and the cursor moves past the declared length,
    rounded up to four bytes.  A WriteableFlashRegions record that fits in
    the rest of the header is appended, as an instance that is not valid.
    Hence, in the TLV list of every header the parser returns, the instances
    of the fixed-length classes are all valid and the WriteableFlashRegions
    instances are all not valid. *)
Theorem malformed_known_tlv (s : parse_state) :
  4 <= len (ps_buffer s) →
  let tipe := le_combine (slice 0 2 (ps_buffer s)) in
  let length := le_combine (slice 2 4 (ps_buffer s)) in
  let next tlvs :=
    mkParse (skipn (Z.to_nat (roundup length 4)) (skipn 4 (ps_buffer s)))
      (ps_remaining s - 4 - roundup length 4) tlvs in
  (∀ n, expected_length tipe = Some n → length ≠ n →
     parse_tlv s = Ok (next (ps_tlvs s))) ∧
  (tipe = HEADER_TYPE_WRITEABLE_FLASH_REGIONS → length <= ps_remaining s - 4 →
     ∃ t, parse_tlv s = Ok (next (ps_tlvs s ++ [t])) ∧
          class_of t = TBFTLVWriteableFlashRegions ∧
          getattr t "valid" = Some (PBool false)) ∧
  (∀ b h t, TBFHeader_init b = Ok h → t ∈ tlvs h →
     (fixed_length_class (class_of t) = true → getattr t "valid" = Some (PBool true)) ∧
     (class_of t = TBFTLVWriteableFlashRegions → getattr t "valid" = Some (PBool false))).
Proof.
  intros Hlen tipe length next. rewrite parse_tlv_step by done. cbn zeta.
  fold tipe length. subst next. clearbody tipe length. split; [|split].
  - intros n Hexp Hne. by rewrite (parse_dispatch_mismatch tipe n).
  - intros Htipe Hfit. unfold parse_dispatch. rewrite Htipe. simpl.
    assert ((ps_remaining s - 4 >=? length) = true) as -> by bool_lia.
    eexists. split; [reflexivity|]. split.
    + apply TBFTLVWriteableFlashRegions_class.
    + apply TBFTLVWriteableFlashRegions_valid.
  - intros b h t Hinit Ht.
    destruct (TBFHeader_init_outcome b) as [Hraise | (h' & Hok & Hall)]; [congruence|].
    assert (h' = h) as -> by congruence.
    apply parsed_tlv_valid. rewrite Forall_forall in Hall. by apply Hall.
Qed.

Lemma malformed_known_tlv_witness :
  parse_tlv (mkParse (tlv_record 1 (le_split 16 0x29)) 20 []) =
    Ok (mkParse [] 0 []).
Proof.
  pose proof (malformed_known_tlv (mkParse (tlv_record 1 (le_split 16 0x29)) 20 []))
    as Hskip.
  destruct Hskip as [Hskip _]; [vm_compute; discriminate|].
  apply (Hskip 12); [reflexivity | vm_compute; discriminate].
Defined.

(** C8, as the claim states it, fails: the parser drops a Main record whose
    declared length is 16 instead of keeping it as a not-valid instance. *)
Lemma malformed_main_not_kept :
  let b := v2_header 512 1 0 (tlv_record 1 (le_split 16 0x29)) in
  let h := mkHeader true true false (hdr_fields b) [] (Some 2) in
  TBFHeader_init b = Ok h ∧ tlvs h = [] ∧ ¬ kept_as_invalid TBFTLVMain h.
Proof.
  intros b h. split; [vm_compute; reflexivity|]. split; [reflexivity|].
  intros (t & Ht & _). simpl in Ht. by apply elem_of_nil in Ht.
Qed.

(** ** The mutators *)

Lemma with_fields_id h : with_fields (fields h) h = h.
Proof. by destruct h. Qed.

Lemma with_tlvs_id h : with_tlvs (tlvs h) h = h.
Proof. by destruct h. Qed.

Lemma set_app_size_spec size h :
  set_app_size size h =
    (Ok tt, with_modified true (with_fields (<["total_size"%string := size]> (fields h)) h)).
Proof. reflexivity. Qed.

Lemma modify_tlv_base_fields field value h :
  modify_tlv 0 field value h = (Ok tt, with_fields (<[field := value]> (fields h)) h).
Proof. reflexivity. Qed.

(** C6, as the code has it.  A header the parser returns with version 1, or
    as not valid, has no TLVs.  On such a header [set_flag] returns without
    doing anything (when the version was read), [modify_tlv] with a nonzero
    TLV id and [adjust_starting_address] find no TLV and change nothing, and
    [delete_tlv] changes nothing when the base fields hold [header_size].
    [set_app_size] and [modify_tlv] with id 0 have no guard: they write the
    base field on every header, and [set_app_size] sets [modified]. *)
Theorem mutators_on_v1_or_invalid (b : bytes) (h : TBFHeader) :
  TBFHeader_init b = Ok h →
  version h = Some 1 ∨ valid h = false →
  tlvs h = [] ∧
  (∀ flag_name flag_value,
     is_Some (version h) → set_flag flag_name flag_value h = (Ok tt, h)) ∧
  (∀ tlvid field value, tlvid ≠ 0 → modify_tlv tlvid field value h = (Ok tt, h)) ∧
  (∀ address, adjust_starting_address address h = (Ok tt, h)) ∧
  (∀ tlvid, is_Some (fields h !! "header_size") → delete_tlv tlvid h = (Ok tt, h)) ∧
  (∀ size,
     set_app_size size h =
       (Ok tt, with_modified true
                 (with_fields (<["total_size"%string := size]> (fields h)) h))) ∧
  (∀ field value,
     modify_tlv 0 field value h = (Ok tt, with_fields (<[field := value]> (fields h)) h)).
Proof.
  intros Hinit Hcase.
  assert (tlvs h = []) as Htlvs.
  { rewrite TBFHeader_init_cases in Hinit.
    repeat match type of Hinit with
    | context [if ?c then _ else _] => destruct c eqn:?
    end; try (by injection Hinit as <-).
    destruct (parse_tlvs _); [|done]. injection Hinit as <-.
    by destruct Hcase. }
  split; [done|]. repeat split.
  - intros flag_name flag_value [v Hv].
    unfold set_flag, eval, get_version, get, mbind, action_bind. rewrite Hv.
    destruct Hcase as [Hv1 | Hinv].
    + rewrite Hv1 in Hv. by injection Hv as <-.
    + rewrite Hinv. by rewrite orb_true_r.
  - intros tlvid field value Hid. unfold modify_tlv.
    assert ((tlvid =? 0) = false) as -> by bool_lia.
    unfold get, mbind, action_bind. by rewrite Htlvs.
  - intros address. unfold adjust_starting_address, eval, _get_tlv, mbind, action_bind.
    by rewrite Htlvs.
  - intros tlvid [hs Hhs].
    unfold delete_tlv, eval, _get_tlv, getitem, setitem, mbind, action_bind.
    rewrite Htlvs. cbn. rewrite Hhs. cbn. rewrite Htlvs. cbn.
    rewrite Z.sub_0_r, insert_id by done. by rewrite with_fields_id.
Qed.

Lemma mutators_on_v1_or_invalid_witness :
  TBFHeader_init example_bad_padding = Ok example_bad_padding_header ∧
  set_flag "enable" false example_bad_padding_header = (Ok tt, example_bad_padding_header) ∧
  delete_tlv 3 example_bad_padding_header = (Ok tt, example_bad_padding_header).
Proof.
  assert (TBFHeader_init example_bad_padding = Ok example_bad_padding_header) as Hinit
    by (vm_compute; reflexivity).
  split; [done|].
  pose proof (mutators_on_v1_or_invalid example_bad_padding example_bad_padding_header
                Hinit (or_intror eq_refl)) as (_ & Hflag & _ & _ & Hdelete & _).
  split; [apply Hflag | apply Hdelete]; by eexists.
Defined.

(** C6, as the claim states it, fails: on a header that is not valid
    [set_app_size] overwrites [total_size] and sets [modified]. *)
Lemma set_app_size_not_guarded :
  let h := example_bad_padding_header in
  TBFHeader_init example_bad_padding = Ok h ∧
  valid h = false ∧
  fields h !! "total_size"%string = Some 512 ∧
  fields (set_app_size 1024 h).2 !! "total_size"%string = Some 1024 ∧
  modified h = false ∧
  modified (set_app_size 1024 h).2 = true ∧
  (set_app_size 1024 h).2 ≠ h.
Proof.
  intros h. split; [vm_compute; reflexivity|].
  split; [reflexivity|]. split; [vm_compute; reflexivity|].
  split; [vm_compute; reflexivity|]. split; [reflexivity|]. split; [reflexivity|].
  intros Heq. apply (f_equal modified) in Heq. discriminate.
Qed.

(** C7: two mutators change the header and leave [modified] at [False].
    On the header parsed from [example_app], [modify_tlv] with id 0 overwrites
    the base field [total_size], and [adjust_starting_address] grows
    [protected_size] of the Main TLV from 0 to 84; after either call
    [is_modified] still returns [False]. *)
Theorem modified_not_set :
  let h := example_app_header in
  TBFHeader_init example_app = Ok h ∧
  is_modified h = false ∧
  (let h' := (modify_tlv 0 "total_size" 16384 h).2 in
   fields h !! "total_size"%string = Some 8192 ∧
   fields h' !! "total_size"%string = Some 16384 ∧
   is_modified h' = false) ∧
  (let h' := (adjust_starting_address 0x30000 h).2 in
   binary_tlv_attr "protected_size" h = Ok (PInt 0) ∧
   binary_tlv_attr "protected_size" h' = Ok (PInt 84) ∧
   is_modified h' = false).
Proof.
  intros h. repeat split; vm_compute; reflexivity.
Qed.

Lemma ref_attr_Some tlv name self v :
  ref_attr (Some tlv) name self = Ok v →
  ∃ t, tlvs self !! tlv = Some t ∧ getattr t name = Some v.
Proof.
  unfold ref_attr. cbn [mbind option_bind].
  destruct (tlvs self !! tlv) as [t|]; [|done].
  unfold attr. destruct (getattr t name) as [v'|] eqn:Hattr; [|done].
  intros [= <-]. eauto.
Qed.

Lemma getattr_setattr t name v : getattr (setattr t name v) name = Some v.
Proof. unfold getattr, setattr. cbn. by rewrite lookup_insert_eq. Qed.

Lemma getattr_setattr_ne t name name' v :
  name ≠ name' → getattr (setattr t name v) name' = getattr t name'.
Proof. intros Hne. unfold getattr, setattr. cbn. by rewrite lookup_insert_ne. Qed.

(** [tlv.name += n] on an integer attribute. *)
Lemma ref_iadd_int tlv name n self z :
  ref_attr (Some tlv) name self = Ok (PInt z) →
  ref_iadd tlv name n self =
    (Ok tt, with_tlvs (alter (λ t, setattr t name (PInt (z + n))) tlv (tlvs self)) self).
Proof.
  intros Hattr. unfold ref_iadd, eval, get, put, mbind, action_bind.
  by rewrite Hattr.
Qed.

(** C5, as the code has it.  On a header with a FixedAddress TLV (flash
    address [F]) and a Main or Program TLV (protected size [P], init function
    offset [I0]), with header size [H]: when [address + H + P < F] the call
    adds [F - (address + H + P)] to [protected_size] and to [init_fn_offset]
    of that TLV, and the header is otherwise as before; when
    [address + H + P > F] the call raises and the header is as before; when
    the two are equal nothing changes. *)
Theorem adjust_starting_address_effect (self : TBFHeader) (address H P I0 F : Z)
    (tlv_fixed_addr tlv_program : nat) :
  _get_tlv HEADER_TYPE_FIXED_ADDRESSES self = Ok (Some tlv_fixed_addr) →
  _get_binary_tlv self = Ok (Some tlv_program) →
  getitem (fields self) "header_size" = Ok H →
  ref_attr (Some tlv_program) "protected_size" self = Ok (PInt P) →
  ref_attr (Some tlv_program) "init_fn_offset" self = Ok (PInt I0) →
  ref_attr (Some tlv_fixed_addr) "fixed_address_flash" self = Ok (PInt F) →
  (address + H + P < F →
     let delta := F - (address + H + P) in
     adjust_starting_address address self =
       (Ok tt,
        with_tlvs
          (alter (λ t, setattr (setattr t "protected_size" (PInt (P + delta)))
                         "init_fn_offset" (PInt (I0 + delta)))
             tlv_program (tlvs self)) self)) ∧
  (address + H + P > F →
     adjust_starting_address address self =
       (Raise (TockLoaderException "Cannot shrink the header. This is a tockloader bug."),
        self)) ∧
  (address + H + P = F → adjust_starting_address address self = (Ok tt, self)).
Proof.
  intros Hfixed Hbinary Hsize Hprot Hinit Hflash.
  unfold adjust_starting_address, eval, mbind, action_bind.
  rewrite Hfixed, Hbinary, Hsize, Hprot, Hflash. cbn [as_int].
  split; [|split]; intros Hcmp.
  - assert ((address + H + P =? F) = false) as -> by bool_lia.
    assert ((address + H + P <? F) = true) as -> by bool_lia.
    cbn [negb ref_iadd_if]. rewrite (ref_iadd_int _ _ _ _ P) by done.
    destruct (ref_attr_Some _ _ _ _ Hinit) as (t & Ht & Hattr).
    rewrite (ref_iadd_int _ _ _ _ I0).
    + cbn [with_tlvs tlvs valid app modified fields version].
      rewrite list_alter_alter_eq. by destruct self.
    + unfold ref_attr. cbn [with_tlvs tlvs mbind option_bind].
      rewrite list_lookup_alter_eq, Ht. cbn [fmap option_fmap option_map].
      unfold attr. by rewrite getattr_setattr_ne, Hattr.
  - assert ((address + H + P =? F) = false) as -> by bool_lia.
    assert ((address + H + P <? F) = false) as -> by bool_lia.
    done.
  - assert ((address + H + P =? F) = true) as -> by bool_lia. done.
Qed.

Lemma adjust_starting_address_effect_witness :
  let h := example_app_header in
  TBFHeader_init example_app = Ok h ∧
  binary_tlv_attr "protected_size" (adjust_starting_address 0x30000 h).2 = Ok (PInt 84) ∧
  adjust_starting_address 0x30080 h =
    (Raise (TockLoaderException "Cannot shrink the header. This is a tockloader bug."), h).
Proof.
  intros h. split; [vm_compute; reflexivity|].
  assert (_get_tlv HEADER_TYPE_FIXED_ADDRESSES h = Ok (Some 1%nat)) as Hfixed
    by (vm_compute; reflexivity).
  assert (_get_binary_tlv h = Ok (Some 0%nat)) as Hbinary by (vm_compute; reflexivity).
  assert (getitem (fields h) "header_size" = Ok 44) as Hsize by (vm_compute; reflexivity).
  assert (ref_attr (Some 0%nat) "protected_size" h = Ok (PInt 0)) as Hprot
    by (vm_compute; reflexivity).
  assert (ref_attr (Some 0%nat) "init_fn_offset" h = Ok (PInt 41)) as Hoff
    by (vm_compute; reflexivity).
  assert (ref_attr (Some 1%nat) "fixed_address_flash" h = Ok (PInt 0x30080)) as Hflash
    by (vm_compute; reflexivity).
  split.
  - destruct (adjust_starting_address_effect h 0x30000 44 0 41 0x30080 1%nat 0%nat
                Hfixed Hbinary Hsize Hprot Hoff Hflash) as (Hgrow & _).
    rewrite Hgrow by lia. vm_compute. reflexivity.
  - destruct (adjust_starting_address_effect h 0x30080 44 0 41 0x30080 1%nat 0%nat
                Hfixed Hbinary Hsize Hprot Hoff Hflash) as (_ & Hshrink & _).
    apply Hshrink. lia.
Defined.

(** C5, as the claim states it, fails: the call also moves
    [init_fn_offset]. *)
Lemma adjust_starting_address_moves_init_fn_offset :
  let h := example_app_header in
  TBFHeader_init example_app = Ok h ∧
  binary_tlv_attr "init_fn_offset" h = Ok (PInt 41) ∧
  binary_tlv_attr "init_fn_offset" (adjust_starting_address 0x30000 h).2
    = Ok (PInt 125) ∧
  binary_tlv_attr "init_fn_offset" (adjust_starting_address 0x30000 h).2
    ≠ binary_tlv_attr "init_fn_offset" h.
Proof.
  intros h. repeat split; try (vm_compute; reflexivity). vm_compute. discriminate.
Qed.

(** ** [delete_tlv] *)

Lemma tlv_matches_unique t a b :
  tlv_matches a t = true → tlv_matches b t = true → a = b.
Proof.
  unfold tlv_matches. destruct (get_tlvid t) as [v|]; [|done].
  destruct v; simpl; try done; intros Ha%Z.eqb_eq Hb%Z.eqb_eq; congruence.
Qed.

Lemma tlv_okb_ok t : tlv_okb t = true → tlv_ok t.
Proof.
  unfold tlv_okb, tlv_ok. destruct (get_tlvid t) as [v|]; [|done].
  intros Hok. split; [by eexists|]. intros Hmatch.
  assert (tlv_matches HEADER_TYPE_MAIN t || tlv_matches HEADER_TYPE_PROGRAM t = true) as Hm
    by (destruct Hmatch as [-> | ->]; by rewrite ?orb_true_r).
  rewrite Hm in Hok. apply andb_prop in Hok as [HP HI].
  destruct (getattr t "protected_size") as [[P| | | |]|]; try done.
  destruct (getattr t "init_fn_offset") as [[I0| | | |]|]; try done.
  eauto.
Qed.

Lemma forallb_tlv_okb l : forallb tlv_okb l = true → Forall tlv_ok l.
Proof.
  intros Hall. apply List.Forall_forall. intros t Ht.
  apply tlv_okb_ok. rewrite forallb_forall in Hall. by apply Hall.
Qed.

Lemma delete_scan_spec tlvid l : ∀ i indices size s,
  Forall tlv_ok l →
  sizes_sum (List.filter (tlv_matches tlvid) l) = Ok s →
  delete_scan i l tlvid indices size =
    Ok (rev (match_positions tlvid i l) ++ indices, size + s).
Proof.
  induction l as [|t l IH]; intros i indices size s Hok Hsum.
  - injection Hsum as <-. cbn. by rewrite Z.add_0_r.
  - apply Forall_cons in Hok as [[[v Hv] _] Hok].
    cbn [delete_scan match_positions List.filter] in *.
    unfold tlv_matches in *. rewrite Hv in *. cbn [mbind result_bind].
    destruct (py_eq_int v tlvid).
    + cbn [sizes_sum] in Hsum. destruct (get_size t) as [sz|]; [|done].
      cbn [mbind result_bind] in *.
      destruct (sizes_sum _) as [rest|] eqn:Hrest; [|done].
      injection Hsum as <-. rewrite (IH _ _ _ rest) by done.
      cbn [rev]. rewrite <- app_assoc. cbn. do 2 f_equal. lia.
    + by apply IH.
Qed.

Lemma delete_pop_spec indices : ∀ self,
  delete_pop indices self =
    (Ok tt,
     mkHeader (valid self) (app self)
       (match indices with [] => modified self | _ => true end)
       (fields self) (fold_left (λ l index, delete index l) indices (tlvs self))
       (version self)).
Proof.
  induction indices as [|index indices IH]; intros self.
  - by destruct self.
  - cbn [delete_pop]. unfold get, put, set_modified, mbind, action_bind.
    rewrite IH. cbn. by destruct indices.
Qed.

(** Popping the matching positions, last first, leaves the TLVs that do not
    match, in order. *)
Lemma pop_match_positions tlvid l : ∀ (prefix : list TBFTLV),
  fold_left (λ l index, delete index l) (rev (match_positions tlvid (length prefix) l))
    (prefix ++ l) =
  prefix ++ List.filter (λ t, negb (tlv_matches tlvid t)) l.
Proof.
  induction l as [|t l IH]; intros prefix; [done|].
  cbn [match_positions List.filter].
  specialize (IH (prefix ++ [t])). rewrite length_app, <- app_assoc in IH.
  change ([t] ++ l) with (t :: l) in IH. cbn [length] in IH. rewrite Nat.add_1_r in IH.
  destruct (tlv_matches tlvid t); cbn [negb].
  - cbn [rev]. rewrite fold_left_app, IH. cbn [fold_left].
    rewrite <- app_assoc. cbn [app]. apply delete_middle.
  - rewrite IH. by rewrite <- app_assoc.
Qed.

Lemma pop_all_matches tlvid l :
  fold_left (λ l index, delete index l) (rev (match_positions tlvid 0 l)) l =
  List.filter (λ t, negb (tlv_matches tlvid t)) l.
Proof. exact (pop_match_positions tlvid l []). Qed.

Lemma tlv_ok_filter (f : TBFTLV → bool) l : Forall tlv_ok l → Forall tlv_ok (List.filter f l).
Proof.
  intros Hok. apply List.Forall_forall. intros t [Ht _]%filter_In.
  rewrite List.Forall_forall in Hok. by apply Hok.
Qed.

(** [_get_tlv] returns the position of the first TLV with the id. *)
Lemma _get_tlv_from_find tlvid l : ∀ i,
  Forall tlv_ok l →
  ∃ r, _get_tlv_from i l tlvid = Ok r ∧
       (r ≫= λ j, l !! (j - i)%nat) = find_tlv tlvid l ∧
       (∀ j, r = Some j → (i <= j)%nat ∧ is_Some (find_tlv tlvid l)).
Proof.
  induction l as [|t l IH]; intros i Hok.
  - exists None. by cbn.
  - apply Forall_cons in Hok as [[[v Hv] _] Hok].
    cbn [_get_tlv_from find_tlv]. unfold tlv_matches. rewrite Hv. cbn [mbind result_bind].
    destruct (py_eq_int v tlvid).
    + exists (Some i). split; [done|]. split.
      * cbn. by rewrite Nat.sub_diag.
      * intros j [= <-]. split; [lia|by eexists].
    + destruct (IH (S i) Hok) as (r & Hr & Hfind & Hle). exists r.
      split; [done|]. split.
      * rewrite <- Hfind. destruct r as [j|]; [|done]. cbn.
        destruct (Hle j eq_refl) as [Hj _].
        replace (j - i)%nat with (S (j - S i)) by lia. done.
      * intros j Hj. destruct (Hle j Hj). split; [lia|done].
Qed.

Lemma tlv_attr_find tlvid name self :
  Forall tlv_ok (tlvs self) →
  tlv_attr tlvid name self =
    match find_tlv tlvid (tlvs self) with
    | Some t => attr t name
    | None => Raise (AttributeError name)
    end.
Proof.
  intros Hok. unfold tlv_attr, _get_tlv.
  destruct (_get_tlv_from_find tlvid (tlvs self) 0 Hok) as (r & -> & Hfind & _).
  cbn [mbind result_bind]. unfold ref_attr. rewrite <- Hfind.
  destruct r as [j|]; [|done]. cbn. by rewrite Nat.sub_0_r.
Qed.

Lemma find_tlv_filter tid tlvid l :
  tid ≠ tlvid →
  find_tlv tid (List.filter (λ t, negb (tlv_matches tlvid t)) l) = find_tlv tid l.
Proof.
  intros Hne. induction l as [|t l IH]; [done|].
  cbn [List.filter find_tlv].
  destruct (tlv_matches tlvid t) eqn:Hdel; cbn [negb find_tlv].
  - destruct (tlv_matches tid t) eqn:Htid; [|done].
    destruct Hne. by eapply tlv_matches_unique.
  - by rewrite IH.
Qed.

Lemma find_tlv_matches tid l t : find_tlv tid l = Some t → tlv_matches tid t = true ∧ t ∈ l.
Proof.
  induction l as [|t' l IH]; [done|]. cbn [find_tlv].
  destruct (tlv_matches tid t') eqn:Hm.
  - intros [= <-]. split; [done|]. apply list_elem_of_here.
  - intros [Ht Hin]%IH. split; [done|]. by apply list_elem_of_further.
Qed.

Lemma get_tlvid_setattr t name v :
  name ≠ "TLVID"%string → name ≠ "tipe"%string →
  get_tlvid (setattr t name v) = get_tlvid t.
Proof.
  intros Hid Htipe. unfold get_tlvid, attr. cbn [setattr class_of].
  destruct (class_of t); by rewrite getattr_setattr_ne.
Qed.

Lemma _get_tlv_from_alter (f : TBFTLV → TBFTLV) tlvid r l : ∀ i,
  (∀ t, get_tlvid (f t) = get_tlvid t) →
  _get_tlv_from i (alter f r l) tlvid = _get_tlv_from i l tlvid.
Proof.
  intros i Hf. revert i r. induction l as [|t l IH]; intros i r; [done|].
  destruct r as [|r]; cbn [alter list_alter _get_tlv_from].
  - by rewrite Hf.
  - fold (alter f r l). by rewrite IH.
Qed.

Lemma _get_tlv_assign_if tlv name v tlvid self :
  name ≠ "TLVID"%string → name ≠ "tipe"%string →
  _get_tlv tlvid (with_tlvs (assign_if tlv name v (tlvs self)) self) = _get_tlv tlvid self.
Proof.
  intros Hid Htipe. unfold _get_tlv, assign_if. cbn [with_tlvs tlvs].
  destruct tlv as [r|]; [|done].
  apply _get_tlv_from_alter. intros t. by apply get_tlvid_setattr.
Qed.

Lemma ref_attr_assign_same r name v self :
  is_Some (tlvs self !! r) →
  ref_attr (Some r) name (with_tlvs (assign_if (Some r) name v (tlvs self)) self) = Ok v.
Proof.
  intros [t Ht]. unfold ref_attr, assign_if. cbn [with_tlvs tlvs mbind option_bind].
  rewrite list_lookup_alter_eq, Ht. cbn. unfold attr. by rewrite getattr_setattr.
Qed.

Lemma ref_attr_assign_other tlv r name name' v self :
  tlv ≠ Some r ∨ name ≠ name' →
  ref_attr (Some r) name' (with_tlvs (assign_if tlv name v (tlvs self)) self) =
    ref_attr (Some r) name' self.
Proof.
  intros Hne. unfold ref_attr, assign_if. cbn [with_tlvs tlvs mbind option_bind].
  destruct tlv as [r'|]; [|done].
  destruct (decide (r' = r)) as [->|Hr].
  - destruct Hne as [|Hname]; [done|].
    rewrite list_lookup_alter_eq. destruct (tlvs self !! r); [|done].
    cbn. unfold attr. by rewrite getattr_setattr_ne.
  - by rewrite list_lookup_alter_ne.
Qed.

Lemma lookup_assign_if_is_Some tlv name v (l : list TBFTLV) r :
  is_Some (l !! r) → is_Some (assign_if tlv name v l !! r).
Proof.
  intros Hr. destruct tlv as [r'|]; [|done]. unfold assign_if.
  apply lookup_lt_is_Some. rewrite length_alter. by apply lookup_lt_is_Some.
Qed.

Lemma ref_iadd_if_int tlv name n self z :
  (∀ r, tlv = Some r → ref_attr (Some r) name self = Ok (PInt z)) →
  ref_iadd_if tlv name n self =
    (Ok tt, with_tlvs (assign_if tlv name (PInt (z + n)) (tlvs self)) self).
Proof.
  intros Hattr. destruct tlv as [r|]; cbn [ref_iadd_if assign_if].
  - by apply ref_iadd_int, Hattr.
  - by rewrite with_tlvs_id.
Qed.

(** The reference [_get_tlv] returns for the id of Main or of Program, and
    the integers its two attributes hold. *)
Lemma binary_ref_ok tid self :
  Forall tlv_ok (tlvs self) →
  tid = HEADER_TYPE_MAIN ∨ tid = HEADER_TYPE_PROGRAM →
  ∃ tlv P I0,
    _get_tlv tid self = Ok tlv ∧
    ∀ r, tlv = Some r →
      ref_attr (Some r) "protected_size" self = Ok (PInt P) ∧
      ref_attr (Some r) "init_fn_offset" self = Ok (PInt I0) ∧
      ∃ t, tlvs self !! r = Some t ∧ tlv_matches tid t = true.
Proof.
  intros Hok Htid. unfold _get_tlv.
  destruct (_get_tlv_from_find tid (tlvs self) 0 Hok) as (tlv & Htlv & Hfind & Hsome).
  destruct tlv as [r|].
  - cbn in Hfind. rewrite Nat.sub_0_r in Hfind.
    destruct (Hsome r eq_refl) as [_ [t Ht]]. rewrite Ht in Hfind.
    destruct (find_tlv_matches _ _ _ Ht) as [Hmatch Hin].
    rewrite List.Forall_forall in Hok. apply list_elem_of_In in Hin.
    destruct (Hok _ Hin) as [_ Hattrs].
    destruct Hattrs as (P & I0 & HP & HI0); [by destruct Htid as [-> | ->]; auto|].
    exists (Some r), P, I0. split; [done|]. intros r' [= <-].
    unfold ref_attr, attr. cbn. rewrite Hfind, HP, HI0. eauto.
  - exists None, 0, 0. split; [done|]. done.
Qed.

(** C4: [delete_tlv(tlvid)] on a header whose TLVs with id [tlvid] have
    serialized sizes that sum to [s].  The call returns; it takes [s] off the
    base field [header_size] (the other base fields stay), and it adds [s] to
    [protected_size] and to [init_fn_offset] of the Main TLV and of the
    Program TLV that [_get_tlv] finds (when their id is not the deleted
    one). *)
Theorem delete_tlv_conservation (self : TBFHeader) (tlvid H s : Z) :
  getitem (fields self) "header_size" = Ok H →
  forallb tlv_okb (tlvs self) = true →
  sizes_sum (List.filter (tlv_matches tlvid) (tlvs self)) = Ok s →
  ∃ self', delete_tlv tlvid self = (Ok tt, self') ∧
    fields self' = <["header_size"%string := H - s]> (fields self) ∧
    getitem (fields self') "header_size" = Ok (H - s) ∧
    ∀ tid name v,
      tid = HEADER_TYPE_MAIN ∨ tid = HEADER_TYPE_PROGRAM →
      tid ≠ tlvid →
      name = "protected_size"%string ∨ name = "init_fn_offset"%string →
      tlv_attr tid name self = Ok (PInt v) →
      tlv_attr tid name self' = Ok (PInt (v + s)).
Proof.
  intros Hsize Hok%forallb_tlv_okb Hsum.
  unfold delete_tlv, eval, setitem, mbind, action_bind.
  rewrite (delete_scan_spec tlvid (tlvs self) 0 [] 0 s) by done.
  cbn [fst snd]. rewrite delete_pop_spec. cbn [fields tlvs].
  rewrite Hsize. rewrite app_nil_r.
  rewrite pop_all_matches.
  rewrite Z.add_0_l.
  set (remaining := List.filter (λ t, negb (tlv_matches tlvid t)) (tlvs self)).
  set (self1 := with_fields _ _).
  assert (Forall tlv_ok (tlvs self1)) as Hok1 by (by apply tlv_ok_filter).
  destruct (binary_ref_ok HEADER_TYPE_MAIN self1 Hok1 (or_introl eq_refl))
    as (tlv_main & Pm & Im & Hget_main & Hmain).
  destruct (binary_ref_ok HEADER_TYPE_PROGRAM self1 Hok1 (or_intror eq_refl))
    as (tlv_program & Pp & Ip & Hget_program & Hprogram).
  rewrite Hget_main, Hget_program.
  assert (∀ r, tlv_main = Some r → tlv_program = Some r → False) as Hdistinct.
  { intros r Hm Hp.
    destruct (Hmain r Hm) as (_ & _ & t & Ht & Hmt).
    destruct (Hprogram r Hp) as (_ & _ & t' & Ht' & Hpt).
    assert (t' = t) as -> by congruence.
    by pose proof (tlv_matches_unique _ _ _ Hmt Hpt). }
  rewrite (ref_iadd_if_int tlv_main "protected_size" s self1 Pm)
    by (intros r Hr; by apply Hmain).
  set (self2 := with_tlvs (assign_if tlv_main _ _ _) self1).
  rewrite (ref_iadd_if_int tlv_program "protected_size" s self2 Pp).
  2: { intros r Hr. unfold self2. rewrite ref_attr_assign_other; [by apply Hprogram|].
       left. intros ->. by eapply Hdistinct. }
  set (self3 := with_tlvs (assign_if tlv_program _ _ _) self2).
  rewrite (ref_iadd_if_int tlv_main "init_fn_offset" s self3 Im).
  2: { intros r Hr. unfold self3. rewrite ref_attr_assign_other by (by right).
       unfold self2. rewrite ref_attr_assign_other by (by right). by apply Hmain. }
  set (self4 := with_tlvs (assign_if tlv_main _ _ _) self3).
  rewrite (ref_iadd_if_int tlv_program "init_fn_offset" s self4 Ip).
  2: { intros r Hr. unfold self4. rewrite ref_attr_assign_other.
       2: { left. intros ->. by eapply Hdistinct. }
       unfold self3. rewrite ref_attr_assign_other by (by right).
       unfold self2. rewrite ref_attr_assign_other; [by apply Hprogram|].
       left. intros ->. by eapply Hdistinct. }
  set (self5 := with_tlvs (assign_if tlv_program _ _ _) self4).
  exists self5. split; [done|]. split; [done|]. split.
  { unfold self5, self4, self3, self2, self1, getitem. cbn [with_tlvs with_fields fields].
    by rewrite lookup_insert_eq. }
  intros tid name v Htid Hne Hname Hv.
  assert (tlv_attr tid name self1 = Ok (PInt v)) as Hv1.
  { rewrite tlv_attr_find by done. rewrite tlv_attr_find in Hv by done.
    unfold self1. cbn [tlvs with_fields]. unfold remaining.
    by rewrite find_tlv_filter. }
  unfold tlv_attr in Hv1 |- *.
  assert (_get_tlv tid self5 = _get_tlv tid self1) as ->.
  { unfold self5. rewrite _get_tlv_assign_if by done.
    unfold self4. rewrite _get_tlv_assign_if by done.
    unfold self3. rewrite _get_tlv_assign_if by done.
    unfold self2. by rewrite _get_tlv_assign_if. }
  destruct Htid as [-> | ->].
  - rewrite Hget_main in Hv1 |- *. cbn [mbind result_bind] in Hv1 |- *.
    destruct tlv_main as [r|]; [|done].
    destruct (Hmain r eq_refl) as (HP & HI & t & Ht & _).
    assert (tlv_program ≠ Some r) as Hother by (intros ->; by eapply Hdistinct).
    destruct Hname as [-> | ->].
    + assert (v = Pm) as -> by congruence.
      unfold self5. rewrite ref_attr_assign_other by (by right).
      unfold self4. rewrite ref_attr_assign_other by (by right).
      unfold self3. rewrite ref_attr_assign_other by (by left).
      unfold self2. rewrite ref_attr_assign_same; [done|by eexists].
    + assert (v = Im) as -> by congruence.
      unfold self5. rewrite ref_attr_assign_other by (by left).
      unfold self4. rewrite ref_attr_assign_same; [done|].
      unfold self3, self2. cbn [with_tlvs tlvs].
      do 2 apply lookup_assign_if_is_Some. by eexists.
  - rewrite Hget_program in Hv1 |- *. cbn [mbind result_bind] in Hv1 |- *.
    destruct tlv_program as [r|]; [|done].
    destruct (Hprogram r eq_refl) as (HP & HI & t & Ht & _).
    assert (tlv_main ≠ Some r) as Hother by (intros ->; by eapply Hdistinct).
    destruct Hname as [-> | ->].
    + assert (v = Pp) as -> by congruence.
      unfold self5. rewrite ref_attr_assign_other by (by right).
      unfold self4. rewrite ref_attr_assign_other by (by left).
      unfold self3. rewrite ref_attr_assign_same; [done|].
      unfold self2. cbn [with_tlvs tlvs].
      apply lookup_assign_if_is_Some. by eexists.
    + assert (v = Ip) as -> by congruence.
      unfold self5. rewrite ref_attr_assign_same; [done|].
      unfold self4, self3, self2. cbn [with_tlvs tlvs].
      do 3 apply lookup_assign_if_is_Some. by eexists.
Qed.

Lemma delete_tlv_conservation_witness :
  let h := mkHeader true true false (hdr_fields example_named_app)
             [TBFTLVMain_init (le_split 4 41 ++ le_split 4 0 ++ le_split 4 4096);
              mkTLV TBFTLVPackageName
                (<["valid"%string := PBool true]>
                   {[ "package_name"%string := PStr [98; 108; 105; 110; 107] ]});
              TBFTLVKernelVersion_init (le_split 2 2 ++ le_split 2 1)]
             (Some 2) in
  TBFHeader_init example_named_app = Ok h ∧
  ∃ h', delete_tlv HEADER_TYPE_PACKAGE_NAME h = (Ok tt, h') ∧
        getitem (fields h) "header_size" = Ok 52 ∧
        getitem (fields h') "header_size" = Ok (52 - 12) ∧
        tlv_attr HEADER_TYPE_MAIN "protected_size" h = Ok (PInt 0) ∧
        tlv_attr HEADER_TYPE_MAIN "protected_size" h' = Ok (PInt (0 + 12)) ∧
        tlv_attr HEADER_TYPE_MAIN "init_fn_offset" h' = Ok (PInt (41 + 12)).
Proof.
  intros h. split; [vm_compute; reflexivity|].
  destruct (delete_tlv_conservation h HEADER_TYPE_PACKAGE_NAME 52 12)
    as (h' & Hdelete & _ & Hsize & Hattr);
    [vm_compute; reflexivity | vm_compute; reflexivity | vm_compute; reflexivity |].
  exists h'. split; [done|]. split; [vm_compute; reflexivity|]. split; [done|].
  split; [vm_compute; reflexivity|]. split.
  - apply Hattr; [by left | done | by left | vm_compute; reflexivity].
  - apply Hattr; [by left | done | by right | vm_compute; reflexivity].
Defined.

(** The TLVs of a header the parser returns are objects [delete_tlv] can
    work on. *)
Lemma parsed_tlv_okb t : parsed_tlv t → tlv_okb t = true.
Proof.
  destruct 1 as [b Hb|b Hb|b|b t Ht|b Hb|b Hb|b Hb|tipe b Hk Hr].
  - unfold TBFTLVMain_init, init_fixed. by rewrite Hb.
  - unfold TBFTLVProgram_init, init_fixed. by rewrite Hb.
  - unfold TBFTLVWriteableFlashRegions_init. by destruct (_ =? _).
  - apply TBFTLVPackageName_init_Ok in Ht as (name & _ & ->). done.
  - unfold TBFTLVPicOption1_init, init_fixed. by rewrite Hb.
  - unfold TBFTLVFixedAddress_init, init_fixed. by rewrite Hb.
  - unfold TBFTLVKernelVersion_init, init_fixed. by rewrite Hb.
  - unfold tlv_okb, tlv_matches.
    assert (get_tlvid (TBFTLVUnknown_init tipe b) = Ok (PInt tipe)) as -> by done.
    cbn [py_eq_int]. unfold known_type in Hk.
    repeat (apply orb_false_elim in Hk as [Hk ?]).
    assert ((tipe =? HEADER_TYPE_PROGRAM) = false) as -> by done.
    by rewrite Hk.
Qed.

Lemma TBFHeader_init_tlvs_ok (b : bytes) (h : TBFHeader) :
  TBFHeader_init b = Ok h → forallb tlv_okb (tlvs h) = true.
Proof.
  intros Hinit.
  destruct (TBFHeader_init_outcome b) as [Hraise | (h' & Hok & Hall)]; [congruence|].
  assert (h' = h) as -> by congruence.
  apply forallb_forall. intros t Ht. apply parsed_tlv_okb.
  rewrite List.Forall_forall in Hall. by apply Hall.
Qed.

(** ** Round trip *)

Lemma struct_pack_unpack_fields fmt : ∀ (b : bytes),
  length b = fmt_size fmt → struct_pack fmt (unpack_fields fmt b) = Ok b.
Proof.
  induction fmt as [|w fmt IH]; intros b Hlen.
  - by destruct b.
  - cbn [fmt_size fold_right] in Hlen. cbn [unpack_fields struct_pack].
    pose proof (le_combine_bound (firstn w b)) as Hbound.
    assert (length (firstn w b) = w) as Hw by (rewrite length_firstn; lia).
    rewrite Hw in Hbound.
    assert (((0 <=? le_combine (firstn w b)) && (le_combine (firstn w b) <? 2 ^ (8 * Z.of_nat w))) = true) as ->.
    { apply andb_true_intro. split; [apply Z.leb_le | apply Z.ltb_lt]; lia. }
    rewrite IH by (rewrite length_skipn; fold (fmt_size fmt) in Hlen; lia).
    cbn [mbind result_bind]. rewrite <- Hw at 1. rewrite split_le_combine.
    by rewrite firstn_skipn.
Qed.

Lemma struct_pack_cons w fmt v vals :
  0 <= v < 2 ^ (8 * Z.of_nat w) →
  struct_pack (w :: fmt) (v :: vals) = rest ← struct_pack fmt vals; Ok (le_split w v ++ rest).
Proof.
  intros Hv. cbn [struct_pack].
  assert (((0 <=? v) && (v <? 2 ^ (8 * Z.of_nat w))) = true) as ->; [|done].
  apply andb_true_intro. split; [apply Z.leb_le | apply Z.ltb_lt]; lia.
Qed.

Lemma struct_pack_H fmt v vals :
  0 <= v < 65536 →
  struct_pack (H :: fmt) (v :: vals) = rest ← struct_pack fmt vals; Ok (le_split 2 v ++ rest).
Proof. intros Hv. by apply struct_pack_cons. Qed.

Lemma struct_pack_I fmt v vals :
  0 <= v < 4294967296 →
  struct_pack (I :: fmt) (v :: vals) = rest ← struct_pack fmt vals; Ok (le_split 4 v ++ rest).
Proof. intros Hv. by apply struct_pack_cons. Qed.

Lemma le_split_le_combine_slice i j (b : bytes) :
  (i <= j)%nat → Z.of_nat j <= len b →
  le_split (j - i) (le_combine (slice i j b)) = slice i j b.
Proof.
  intros Hij Hlen.
  assert (length (slice i j b) = (j - i)%nat) as Hl by list_len.
  rewrite <- Hl at 1. apply split_le_combine.
Qed.

Lemma le_split_slice w i j (b : bytes) :
  j = (i + w)%nat → Z.of_nat j <= len b →
  le_split w (le_combine (slice i j b)) = slice i j b.
Proof.
  intros -> Hlen. rewrite <- (le_split_le_combine_slice i (i + w) b) at 2 by lia.
  f_equal. lia.
Qed.

Lemma le_combine_slice_range i j (b : bytes) :
  0 <= le_combine (slice i j b) < 2 ^ (8 * Z.of_nat (j - i)).
Proof.
  pose proof (le_combine_bound (slice i j b)) as Hb.
  assert (2 ^ (8 * Z.of_nat (length (slice i j b))) <= 2 ^ (8 * Z.of_nat (j - i))); [|lia].
  apply Z.pow_le_mono_r; list_len.
Qed.

Lemma pack_regions_unpack n : ∀ (b : bytes),
  length b = (8 * n)%nat → pack_regions (unpack_regions n b) = Ok b.
Proof.
  induction n as [|n IH]; intros b Hlen.
  - by destruct b.
  - cbn [unpack_regions pack_regions fst snd].
    pose proof (struct_pack_unpack_fields [I; I] (firstn 8 b)) as Hpack.
    cbn [unpack_fields] in Hpack. unfold I in Hpack.
    rewrite firstn_firstn, skipn_firstn_comm, firstn_firstn in Hpack.
    cbn [Nat.min Nat.sub] in Hpack. unfold I.
    rewrite Hpack by (rewrite length_firstn; simpl fmt_size; lia).
    cbn [mbind result_bind]. rewrite IH by (rewrite length_skipn; lia).
    cbn [mbind result_bind]. by rewrite firstn_skipn.
Qed.

(** *** UTF-8: encoding undoes decoding *)

Lemma between_true lo x hi : lo <= x <= hi → between lo x hi = true.
Proof. intros Hx. unfold between. apply andb_true_intro. split; apply Z.leb_le; lia. Qed.

Lemma between_false lo x hi : x < lo ∨ hi < x → between lo x hi = false.
Proof.
  intros Hx. unfold between. apply andb_false_iff.
  destruct Hx; [left | right]; apply Z.leb_gt; lia.
Qed.

Lemma between_spec lo x hi b : between lo x hi = b → if b then lo <= x <= hi else x < lo ∨ hi < x.
Proof.
  unfold between. intros <-.
  destruct (lo <=? x) eqn:H1, (x <=? hi) eqn:H2; cbn;
    rewrite ?Z.leb_le, ?Z.leb_gt in *; lia.
Qed.

Lemma cont_spec b0 : cont b0 = true → 0x80 <= byte.unsigned b0 <= 0xBF.
Proof. unfold cont. intros [H1 H2]%andb_prop. apply Z.leb_le in H1, H2. lia. Qed.

Lemma byte_of_Z_eq z b0 : z = byte.unsigned b0 → byte.of_Z z = b0.
Proof. intros ->. apply byte.of_Z_unsigned. Qed.

(** The facts of the decoder's tests, as linear facts. *)
Ltac utf8_facts :=
  repeat match goal with
  | Hc : (_ && _) = true |- _ => apply andb_prop in Hc as [? ?]
  | Hc : cont _ = true |- _ => apply cont_spec in Hc
  | Hc : between _ _ _ = _ |- _ => apply between_spec in Hc; cbv iota in Hc
  | Hc : (_ <? _) = true |- _ => apply Z.ltb_lt in Hc
  | Hc : (_ <? _) = false |- _ => apply Z.ltb_ge in Hc
  | Hc : (_ =? _) = true |- _ => apply Z.eqb_eq in Hc
  | Hc : (_ =? _) = false |- _ => apply Z.eqb_neq in Hc
  | Hc : (if ?c then _ else _) = true |- _ => destruct c eqn:?
  end.

Ltac utf8_char :=
  unfold utf8_encode_char;
  repeat first [ rewrite between_true by lia | rewrite between_false by lia ];
  cbv iota.

Lemma utf8_encode_decode (b : bytes) : ∀ s, utf8_decode b = Some s → utf8_encode s = Some b.
Proof.
  remember (length b) as n eqn:Hn. revert b Hn.
  induction (lt_wf n) as [n _ IH]. intros b -> s.
  assert (∀ r s', (length r < length b)%nat → utf8_decode r = Some s' →
                  utf8_encode s' = Some r) as IH'.
  { intros r s' Hr. by eapply IH. }
  clear IH. destruct b as [|b0 r0]; [by intros [= <-]|].
  cbn [utf8_decode]. pose proof (byte.unsigned_range b0) as Hb0.
  destruct (byte.unsigned b0 <? 128) eqn:H1.
  { destruct (utf8_decode r0) as [s'|] eqn:Hr0; [|done]. intros [= <-].
    cbn [utf8_encode]. rewrite (IH' r0 s') by (cbn; lia || done).
    utf8_facts. utf8_char. by rewrite byte.of_Z_unsigned. }
  destruct r0 as [|b1 r1]; [done|]. pose proof (byte.unsigned_range b1) as Hb1.
  destruct (between 194 (byte.unsigned b0) 223) eqn:H2.
  { destruct (cont b1) eqn:Hc1; [|done].
    destruct (utf8_decode r1) as [s'|] eqn:Hr1; [|done]. intros [= <-].
    cbn [utf8_encode]. rewrite (IH' r1 s') by (cbn; lia || done).
    utf8_facts. utf8_char. rewrite <- ?app_comm_cons, ?app_nil_l. repeat f_equal.
    all: apply byte_of_Z_eq; Z.div_mod_to_equations; lia. }
  destruct r1 as [|b2 r2]; [done|]. pose proof (byte.unsigned_range b2) as Hb2.
  destruct (between 224 (byte.unsigned b0) 239) eqn:H3.
  { destruct (_ && cont b2) eqn:Hc; [|done].
    destruct (utf8_decode r2) as [s'|] eqn:Hr2; [|done]. intros [= <-].
    cbn [utf8_encode]. rewrite (IH' r2 s') by (cbn; lia || done).
    utf8_facts; utf8_char; rewrite <- ?app_comm_cons, ?app_nil_l; repeat f_equal.
    all: apply byte_of_Z_eq; Z.div_mod_to_equations; lia. }
  destruct r2 as [|b3 r3]; [done|]. pose proof (byte.unsigned_range b3) as Hb3.
  destruct (between 240 (byte.unsigned b0) 244) eqn:H4; [|done].
  destruct (_ && cont b3) eqn:Hc; [|done].
  destruct (utf8_decode r3) as [s'|] eqn:Hr3; [|done]. intros [= <-].
  cbn [utf8_encode]. rewrite (IH' r3 s') by (cbn; lia || done).
  utf8_facts; utf8_char; rewrite <- ?app_comm_cons, ?app_nil_l; repeat f_equal.
  all: apply byte_of_Z_eq; Z.div_mod_to_equations; lia.
Qed.

(** *** What [pack] returns for a parsed TLV *)

Lemma attr_args_lookup c (M : gmap string pyval) names vals :
  Forall2 (λ k v, M !! k = Some v) names vals →
  attr_args (mkTLV c M) names = Ok vals.
Proof.
  induction 1 as [|k v names vals Hk _ IH]; [done|].
  cbn [attr_args]. unfold attr at 1, getattr. cbn [attrs]. rewrite Hk.
  cbn [mbind result_bind]. by rewrite IH.
Qed.

Lemma pack_args_ints vals : pack_args (PInt <$> vals) = Ok vals.
Proof.
  induction vals as [|v vals IH]; [done|]. cbn [fmap list_fmap pack_args pack_arg].
  cbn [mbind result_bind]. fold (PInt <$> vals). by rewrite IH.
Qed.

Lemma zeros_0 : zeros 0 = [].
Proof. reflexivity. Qed.

Lemma roundup_multiple x : x mod 4 = 0 → roundup x 4 = x.
Proof. intros Hx. unfold roundup. by rewrite Hx. Qed.

(** A record without padding. *)
Lemma tlv_record_aligned tipe payload :
  len payload mod 4 = 0 →
  tlv_record tipe payload = le_split 2 tipe ++ le_split 2 (len payload) ++ payload.
Proof.
  intros Hlen. unfold tlv_record. rewrite roundup_multiple by done.
  by rewrite Z.sub_diag, zeros_0, app_nil_r.
Qed.

(** [pack] of an instance of a fixed-length class built from a payload of
    its length. *)
Ltac pack_fixed_init Hlen :=
  unfold init_fixed; rewrite Hlen; cbn [Nat.eqb];
  unfold pack; cbn [class_of]; unfold pack_fixed;
  match goal with |- context [attr ?t "TLVID"] =>
    match goal with |- context [le_split 2 ?id ++ _] =>
      assert (attr t "TLVID" = Ok (PInt id)) as -> by done
    end
  end;
  cbn [mbind result_bind];
  match goal with |- context [attr_args (mkTLV _ (<[_:=_]> (zip_attrs _ ?vals _))) _] =>
    rewrite (attr_args_lookup _ _ _ (PInt <$> vals))
      by (cbn [unpack_fields main_attrs program_attrs pic_option_1_attrs
                 fixed_address_attrs kernel_version_attrs zip_attrs fmap list_fmap];
          repeat constructor)
  end;
  cbn [mbind result_bind pack_args pack_arg]; rewrite pack_args_ints;
  cbn [mbind result_bind];
  rewrite !struct_pack_H by lia;
  rewrite struct_pack_unpack_fields by done; reflexivity.

Lemma pack_TBFTLVMain payload :
  length payload = 12%nat →
  pack (TBFTLVMain_init payload) = Ok (le_split 2 1 ++ le_split 2 12 ++ payload).
Proof. intros Hlen. unfold TBFTLVMain_init. pack_fixed_init Hlen. Qed.

Lemma pack_TBFTLVProgram payload :
  length payload = 20%nat →
  pack (TBFTLVProgram_init payload) = Ok (le_split 2 9 ++ le_split 2 20 ++ payload).
Proof. intros Hlen. unfold TBFTLVProgram_init. pack_fixed_init Hlen. Qed.

Lemma pack_TBFTLVPicOption1 payload :
  length payload = 40%nat →
  pack (TBFTLVPicOption1_init payload) = Ok (le_split 2 4 ++ le_split 2 40 ++ payload).
Proof. intros Hlen. unfold TBFTLVPicOption1_init. pack_fixed_init Hlen. Qed.

Lemma pack_TBFTLVFixedAddress payload :
  length payload = 8%nat →
  pack (TBFTLVFixedAddress_init payload) = Ok (le_split 2 5 ++ le_split 2 8 ++ payload).
Proof. intros Hlen. unfold TBFTLVFixedAddress_init. pack_fixed_init Hlen. Qed.

Lemma pack_TBFTLVKernelVersion payload :
  length payload = 4%nat →
  pack (TBFTLVKernelVersion_init payload) = Ok (le_split 2 8 ++ le_split 2 4 ++ payload).
Proof. intros Hlen. unfold TBFTLVKernelVersion_init. pack_fixed_init Hlen. Qed.

Lemma pack_TBFTLVWriteableFlashRegions payload :
  len payload mod 8 = 0 → len payload < 2 ^ 16 →
  pack (TBFTLVWriteableFlashRegions_init payload) =
    Ok (le_split 2 2 ++ le_split 2 (len payload) ++ payload).
Proof.
  intros Hmod Hlen. unfold TBFTLVWriteableFlashRegions_init. rewrite Hmod. cbn [Z.eqb].
  unfold pack. cbn [class_of].
  match goal with |- context [attr ?t "TLVID"] =>
    assert (attr t "TLVID" = Ok (PInt 2)) as -> by done end.
  cbn [mbind result_bind].
  match goal with |- context [attr ?t "writeable_flash_regions"] =>
    assert (attr t "writeable_flash_regions" =
              Ok (PRegions (unpack_regions (Z.to_nat (len payload / 8)) payload))) as ->
      by (unfold attr, getattr; cbn [attrs]; by rewrite lookup_insert_eq) end.
  cbn [mbind result_bind pack_arg].
  pose proof (len_nonneg payload) as Hnonneg.
  assert (len (unpack_regions (Z.to_nat (len payload / 8)) payload) * 8 = len payload) as ->.
  { unfold len at 1. rewrite unpack_regions_length, Z2Nat.id by (apply Z.div_pos; lia).
    rewrite (Z.div_mod (len payload) 8) at 2 by lia. lia. }
  change (2 ^ 16) with 65536 in *. rewrite !struct_pack_H by lia. cbn [struct_pack mbind result_bind].
  rewrite pack_regions_unpack.
  - cbn [mbind result_bind]. by rewrite app_nil_r, <- !app_assoc.
  - unfold len in *. apply Nat2Z.inj. rewrite Nat2Z.inj_mul, Z2Nat.id by (apply Z.div_pos; lia).
    rewrite (Z.div_mod (Z.of_nat (length payload)) 8) at 1 by lia.
    change (Z.of_nat 8) with 8. lia.
Qed.

Lemma pack_TBFTLVPackageName payload t :
  TBFTLVPackageName_init payload = Ok t → len payload < 2 ^ 16 →
  pack t = Ok (tlv_record 3 payload).
Proof.
  intros (name & Hname & ->)%TBFTLVPackageName_init_Ok Hlen.
  unfold pack. cbn [class_of].
  match goal with |- context [attr ?t "package_name"] =>
    assert (attr t "package_name" = Ok (PStr name)) as -> by done end.
  cbn [mbind result_bind]. rewrite (utf8_encode_decode payload name Hname).
  match goal with |- context [attr ?t "TLVID"] =>
    assert (attr t "TLVID" = Ok (PInt 3)) as -> by done end.
  cbn [mbind result_bind pack_arg]. pose proof (len_nonneg payload).
  change (2 ^ 16) with 65536 in *. rewrite !struct_pack_H by lia. cbn [struct_pack mbind result_bind].
  unfold tlv_record. rewrite app_nil_r.
  destruct (_ >? 0) eqn:Hpad; [by rewrite <- !app_assoc|]. rewrite <- !app_assoc.
  assert (roundup (len payload) 4 - len payload = 0) as ->.
  { pose proof (roundup_4_bounds (len payload)). rewrite Z.gtb_ltb in Hpad.
    apply Z.ltb_ge in Hpad. lia. }
  by rewrite zeros_0, app_nil_r.
Qed.

Lemma pack_TBFTLVUnknown tipe payload :
  0 <= tipe < 2 ^ 16 → len payload < 2 ^ 16 →
  pack (TBFTLVUnknown_init tipe payload) = Ok (tlv_record tipe payload).
Proof.
  intros Htipe Hlen. unfold pack, TBFTLVUnknown_init. cbn [class_of].
  match goal with |- context [attr ?t "tipe"] =>
    assert (attr t "tipe" = Ok (PInt tipe)) as -> by done end.
  cbn [mbind result_bind].
  match goal with |- context [attr ?t "buffer"] =>
    assert (attr t "buffer" = Ok (PBytes payload)) as -> by done end.
  cbn [mbind result_bind pack_arg]. pose proof (len_nonneg payload) as Hnonneg.
  change (2 ^ 16) with 65536 in *. rewrite !struct_pack_H by lia. cbn [struct_pack mbind result_bind].
  unfold tlv_record. rewrite app_nil_r, <- !app_assoc. do 4 f_equal.
  rewrite !len_app, !len_le_split. unfold roundup. change (Z.of_nat H) with 2.
  destruct (len payload mod 4 =? 0) eqn:Hmod.
  - apply Z.eqb_eq in Hmod. f_equal. Z.div_mod_to_equations. lia.
  - apply Z.eqb_neq in Hmod. f_equal. Z.div_mod_to_equations. lia.
Qed.

(** *** A well-formed record, parsed and packed again *)

Lemma firstn_slice i j (s : bytes) : (i <= j)%nat → firstn j s = firstn i s ++ slice i j s.
Proof.
  intros Hij. unfold slice. rewrite <- (firstn_skipn i (firstn j s)) at 1.
  rewrite firstn_firstn, skipn_firstn_comm. by rewrite Nat.min_l.
Qed.

Lemma slice_skipn_0 k n (s : bytes) : slice 0 n (skipn k s) = slice k (k + n) s.
Proof. by rewrite slice_skipn, Nat.add_0_r. Qed.

Lemma forallb_is_zero (l : bytes) : forallb is_zero l = true → l = zeros (len l).
Proof.
  unfold zeros, len. rewrite Nat2Z.id. induction l as [|x l IH]; [done|].
  cbn [forallb]. intros [Hx Hl]%andb_prop. apply bool_decide_eq_true in Hx as ->.
  cbn. by rewrite <- IH.
Qed.

(** The shape of the stream at a well-formed record. *)
Lemma wf_record_shape (s : bytes) (n : nat) :
  wf_record s = Some n →
  let tipe := le_combine (slice 0 2 s) in
  let length := le_combine (slice 2 4 s) in
  let payload := slice 4 (4 + Z.to_nat length) s in
  n = (4 + Z.to_nat (roundup length 4))%nat ∧
  Z.of_nat n <= len s ∧
  len payload = length ∧
  wf_payload tipe payload = true ∧
  firstn n s = tlv_record tipe payload.
Proof.
  intros Hrec tipe length payload. unfold wf_record in Hrec.
  destruct (len s <? 4) eqn:Hshort; [done|]. apply Z.ltb_ge in Hshort.
  fold length in Hrec. fold tipe in Hrec.
  destruct (len s <? 4 + Z.of_nat (Z.to_nat (roundup length 4))) eqn:Hfit; [done|].
  apply Z.ltb_ge in Hfit. fold payload in Hrec.
  destruct (wf_payload tipe payload) eqn:Hpayload; [|done].
  destruct (forallb is_zero _) eqn:Hzero; [|done]. injection Hrec as <-.
  pose proof (le_combine_slice_range 2 4 s) as Hlength. fold length in Hlength.
  pose proof (roundup_4_bounds length (proj1 Hlength)) as [Hround _].
  assert (len payload = length) as Hlen by (unfold payload; list_len).
  split; [done|]. split; [lia|]. split; [done|]. split; [done|].
  apply forallb_is_zero in Hzero.
  rewrite (firstn_slice (4 + Z.to_nat length) (4 + Z.to_nat (roundup length 4))) by lia.
  rewrite (firstn_slice 4 (4 + Z.to_nat length)) by lia.
  rewrite (firstn_slice 2 4) by lia. rewrite <- (slice_0 2 s).
  unfold tlv_record. rewrite <- !app_assoc. fold payload. rewrite Hlen.
  f_equal; [|f_equal; [|f_equal]].
  - symmetry. apply (le_split_le_combine_slice 0 2 s); lia.
  - symmetry. apply (le_split_le_combine_slice 2 4 s); lia.
  - rewrite Hzero. f_equal. list_len.
Qed.

(** The loop appends the object of a well-formed record, and [pack] gives
    the record back. *)
Lemma wf_payload_dispatch tipe length (buffer : bytes) remaining tlvs :
  0 <= tipe < 65536 → 0 <= length < 65536 → length <= remaining → length <= len buffer →
  wf_payload tipe (slice 0 (Z.to_nat length) buffer) = true →
  ∃ t, parse_dispatch tipe length buffer remaining tlvs = Ok (tlvs ++ [t]) ∧
       pack t = Ok (tlv_record tipe (slice 0 (Z.to_nat length) buffer)).
Proof.
  intros Htipe Hlength Hrem Hbuf Hwf.
  set (payload := slice 0 (Z.to_nat length) buffer) in *.
  assert (len payload = length) as Hlen by (unfold payload; list_len).
  assert (∀ n : nat, length = Z.of_nat n → payload = slice 0 n buffer ∧ List.length payload = n)
    as Hfixed.
  { intros n Hn. unfold payload. rewrite Hn, Nat2Z.id. split; [done|]. list_len. }
  unfold parse_dispatch, wf_payload in *.
  destruct (tipe =? HEADER_TYPE_MAIN) eqn:Ht1.
  { apply Z.eqb_eq in Ht1 as ->. apply Z.eqb_eq in Hwf. rewrite Hlen in Hwf.
    destruct (Hfixed 12%nat Hwf) as [<- Hl]. rewrite Hwf.
    assert ((remaining >=? 12) = true) as -> by bool_lia. cbn [andb Z.eqb Pos.eqb].
    eexists. split; [done|]. rewrite pack_TBFTLVMain by done.
    rewrite tlv_record_aligned by (by rewrite Hlen, Hwf). by rewrite Hlen, Hwf. }
  destruct (tipe =? HEADER_TYPE_PROGRAM) eqn:Ht2.
  { apply Z.eqb_eq in Ht2 as ->. apply Z.eqb_eq in Hwf. rewrite Hlen in Hwf.
    destruct (Hfixed 20%nat Hwf) as [<- Hl]. rewrite Hwf.
    assert ((remaining >=? 20) = true) as -> by bool_lia. cbn [andb Z.eqb Pos.eqb].
    eexists. split; [done|]. rewrite pack_TBFTLVProgram by done.
    rewrite tlv_record_aligned by (by rewrite Hlen, Hwf). by rewrite Hlen, Hwf. }
  destruct (tipe =? HEADER_TYPE_WRITEABLE_FLASH_REGIONS) eqn:Ht3.
  { apply Z.eqb_eq in Ht3 as ->. apply Z.eqb_eq in Hwf.
    assert ((remaining >=? length) = true) as -> by bool_lia.
    eexists. split; [done|]. fold payload.
    rewrite pack_TBFTLVWriteableFlashRegions by (done || (change (2 ^ 16) with 65536; lia)).
    rewrite tlv_record_aligned; [done|]. Z.div_mod_to_equations. lia. }
  destruct (tipe =? HEADER_TYPE_PACKAGE_NAME) eqn:Ht4.
  { apply Z.eqb_eq in Ht4 as ->.
    assert ((remaining >=? length) = true) as -> by bool_lia. fold payload.
    destruct (TBFTLVPackageName_init payload) as [t|] eqn:Hname.
    - exists t. split; [done|].
      apply (pack_TBFTLVPackageName payload); [done|]. change (2 ^ 16) with 65536. lia.
    - unfold TBFTLVPackageName_init in Hname. by destruct (utf8_decode payload). }
  destruct (tipe =? HEADER_TYPE_PIC_OPTION_1) eqn:Ht5.
  { apply Z.eqb_eq in Ht5 as ->. apply Z.eqb_eq in Hwf. rewrite Hlen in Hwf.
    destruct (Hfixed 40%nat Hwf) as [<- Hl]. rewrite Hwf.
    assert ((remaining >=? 40) = true) as -> by bool_lia. cbn [andb Z.eqb Pos.eqb].
    eexists. split; [done|]. rewrite pack_TBFTLVPicOption1 by done.
    rewrite tlv_record_aligned by (by rewrite Hlen, Hwf). by rewrite Hlen, Hwf. }
  destruct (tipe =? HEADER_TYPE_FIXED_ADDRESSES) eqn:Ht6.
  { apply Z.eqb_eq in Ht6 as ->. apply Z.eqb_eq in Hwf. rewrite Hlen in Hwf.
    destruct (Hfixed 8%nat Hwf) as [<- Hl]. rewrite Hwf.
    assert ((remaining >=? 8) = true) as -> by bool_lia. cbn [andb Z.eqb Pos.eqb].
    eexists. split; [done|]. rewrite pack_TBFTLVFixedAddress by done.
    rewrite tlv_record_aligned by (by rewrite Hlen, Hwf). by rewrite Hlen, Hwf. }
  destruct (tipe =? HEADER_TYPE_KERNEL_VERSION) eqn:Ht7.
  { apply Z.eqb_eq in Ht7 as ->. apply Z.eqb_eq in Hwf. rewrite Hlen in Hwf.
    destruct (Hfixed 4%nat Hwf) as [<- Hl]. rewrite Hwf.
    assert ((remaining >=? 4) = true) as -> by bool_lia. cbn [andb Z.eqb Pos.eqb].
    eexists. split; [done|]. rewrite pack_TBFTLVKernelVersion by done.
    rewrite tlv_record_aligned by (by rewrite Hlen, Hwf). by rewrite Hlen, Hwf. }
  eexists. split; [done|]. fold payload.
  apply pack_TBFTLVUnknown; change (2 ^ 16) with 65536; lia.
Qed.

(** *** A well-formed stream, parsed and packed again *)

Lemma wf_stream_round_trip fuel : ∀ (s : bytes) tlvs,
  wf_stream fuel s = true →
  ∃ ts, parse_tlvs (mkParse s (len s) tlvs) = Ok (tlvs ++ ts) ∧
        (∀ buf, pack_tlvs buf ts = Ok (buf ++ s)) ∧
        len s mod 4 = 0.
Proof.
  induction fuel as [|fuel IH]; intros s tlvs Hwf.
  - destruct s; [|done]. exists []. split; [|split; [|done]].
    + rewrite parse_tlvs_loop. cbn. by rewrite app_nil_r.
    + intros buf. cbn. by rewrite app_nil_r.
  - destruct s as [|x s']; cbn [wf_stream] in Hwf.
    { exists []. split; [|split; [|done]].
      - rewrite parse_tlvs_loop. cbn. by rewrite app_nil_r.
      - intros buf. cbn. by rewrite app_nil_r. }
    set (s := x :: s') in *. clearbody s.
    destruct (wf_record s) as [n|] eqn:Hrec; [|done].
    destruct (wf_record_shape s n Hrec) as (Hn & Hfit & Hlen & Hpayload & Hshape).
    pose proof (le_combine_slice_range 0 2 s) as Htipe.
    pose proof (le_combine_slice_range 2 4 s) as Hlength.
    change (2 ^ (8 * Z.of_nat (2 - 0))) with 65536 in Htipe.
    change (2 ^ (8 * Z.of_nat (4 - 2))) with 65536 in Hlength.
    pose proof (roundup_4_bounds _ (proj1 Hlength)) as [Hround Hmod].
    rewrite <- (slice_skipn_0 4 (Z.to_nat (le_combine (slice 2 4 s))) s)
      in Hpayload, Hshape, Hlen.
    destruct (wf_payload_dispatch (le_combine (slice 0 2 s)) (le_combine (slice 2 4 s))
                (skipn 4 s) (len s - 4) tlvs) as (t & Hdispatch & Hpack);
      [done | done | lia | rewrite len_skipn; lia | done |].
    destruct (IH (skipn n s) (tlvs ++ [t]) Hwf) as (ts & Hparse & Hpacks & Hmod').
    exists (t :: ts). split; [|split].
    + rewrite parse_tlvs_loop. cbn [ps_remaining].
      assert ((len s >=? 4) = true) as -> by bool_lia.
      rewrite parse_tlv_step by (cbn [ps_buffer]; lia).
      cbn [ps_buffer ps_remaining ps_tlvs]. cbn zeta. rewrite Hdispatch.
      cbn [mbind result_bind]. rewrite skipn_skipn.
      replace (Z.to_nat (roundup (le_combine (slice 2 4 s)) 4) + 4)%nat with n by lia.
      replace (len s - 4 - roundup (le_combine (slice 2 4 s)) 4) with (len (skipn n s))
        by (rewrite len_skipn; lia).
      rewrite Hparse. by rewrite <- app_assoc.
    + intros buf. cbn [pack_tlvs]. rewrite Hpack. cbn [mbind result_bind].
      rewrite Hpacks, <- Hshape, <- app_assoc. by rewrite firstn_skipn.
    + rewrite <- (firstn_skipn n s), len_app, len_firstn.
      rewrite Z.min_l by lia. Z.div_mod_to_equations. lia.
Qed.

(** *** The header *)

(** The end of [get_binary]: the padding of the protected region. *)
Lemma get_binary_padding (h : TBFHeader) (buf : bytes) :
  Forall tlv_ok (tlvs h) →
  (tlv_binary ← _get_binary_tlv h;
   match tlv_binary with
   | Some _ =>
       protected_size ← ref_attr tlv_binary "protected_size" h;
       protected_size ← as_int protected_size;
       if protected_size >? 0 then Ok (buf ++ zeros protected_size) else Ok buf
   | None => Ok buf
   end) = Ok (buf ++ zeros (protected_padding h)).
Proof.
  intros Hok. unfold protected_padding, binary_tlv_attr, _get_binary_tlv.
  destruct (binary_ref_ok HEADER_TYPE_PROGRAM h Hok (or_intror eq_refl))
    as (tlv_program & Pp & Ip & -> & Hprogram).
  destruct (binary_ref_ok HEADER_TYPE_MAIN h Hok (or_introl eq_refl))
    as (tlv_main & Pm & Im & Hget_main & Hmain).
  destruct tlv_program as [r|]; cbn [mbind result_bind].
  - destruct (Hprogram r eq_refl) as (-> & _). cbn [mbind result_bind as_int].
    destruct (Pp >? 0); [done|]. by rewrite zeros_0, app_nil_r.
  - rewrite Hget_main. destruct tlv_main as [r|]; cbn [mbind result_bind].
    + destruct (Hmain r eq_refl) as (-> & _). cbn [mbind result_bind as_int].
      destruct (Pm >? 0); [done|]. by rewrite zeros_0, app_nil_r.
    + cbn. by rewrite app_nil_r.
Qed.

Lemma base_fields_bytes (b : bytes) :
  16 <= len b →
  firstn 12 b =
    le_split 2 (hdr_version b) ++ le_split 2 (hdr_header_size b)
      ++ le_split 4 (hdr_total_size b) ++ le_split 4 (hdr_flags b).
Proof.
  intros Hlen. unfold hdr_version, hdr_header_size, hdr_total_size, hdr_flags.
  rewrite (le_split_slice 2 0 2 b), (le_split_slice 2 2 4 b),
    (le_split_slice 4 4 8 b), (le_split_slice 4 8 12 b) by (done || lia).
  rewrite (firstn_slice 8 12), (firstn_slice 4 8), (firstn_slice 2 4) by lia.
  by rewrite <- (slice_0 2 b), <- !app_assoc.
Qed.

(** C2, as the code has it.  For a well-formed version 2 header buffer [b]
    the parser returns a valid header, and [get_binary] of that header is [b]
    followed by the zero bytes of the protected region, as many as the
    [protected_size] of the Program TLV, or else of the Main TLV, says; it is
    [b] itself when there is no such TLV or that size is 0. *)
Theorem header_round_trip (b : bytes) :
  well_formed_v2 b = true →
  ∃ h, TBFHeader_init b = Ok h ∧
       is_valid h = true ∧
       get_binary h = Ok (b ++ zeros (protected_padding h)) ∧
       (protected_padding h = 0 → get_binary h = Ok b).
Proof.
  unfold well_formed_v2. intros Hwf.
  repeat match goal with
  | Hc : (_ && _) = true |- _ => apply andb_prop in Hc as [Hc ?]
  end.
  apply Z.leb_le in Hwf.
  repeat match goal with
  | Hc : (_ =? _) = true |- _ => apply Z.eqb_eq in Hc
  end.
  match goal with Hs : wf_stream _ _ = true |- _ =>
    destruct (wf_stream_round_trip _ (skipn 16 b) [] Hs) as (ts & Hparse & Hpacks & Hmod) end.
  assert (∃ h, TBFHeader_init b = Ok h ∧ is_valid h = true ∧ version h = Some 2 ∧
               fields h = hdr_fields b ∧
               ∀ buf, (if app h then pack_tlvs buf (tlvs h) else Ok buf)
                      = Ok (buf ++ skipn 16 b)) as (h & Hinit & Hvalid & Hversion & Hfields & Htlvs).
  { rewrite TBFHeader_init_v2 by done.
    assert (((len b >=? hdr_header_size b) && (hdr_header_size b >=? 16)) = true) as ->
      by (apply andb_true_intro; split; bool_lia).
    destruct (hdr_header_size b - 16 >? 0) eqn:Happ.
    - replace (hdr_header_size b - 16) with (len (skipn 16 b))
        by (rewrite len_skipn; rewrite Z.gtb_ltb in Happ; apply Z.ltb_lt in Happ; lia).
      rewrite Hparse. cbn [mbind result_bind app].
      eexists. split; [done|]. by cbn.
    - eexists. split; [done|]. split; [by apply Z.eqb_eq|]. split; [done|]. split; [done|].
      intros buf. cbn [app].
      assert (skipn 16 b = []) as ->; [|by rewrite app_nil_r].
      apply length_zero_iff_nil. rewrite Z.gtb_ltb in Happ. apply Z.ltb_ge in Happ.
      rewrite length_skipn. unfold len in *. lia. }
  exists h. split; [done|]. split; [done|].
  assert (get_binary h = Ok (b ++ zeros (protected_padding h))) as Hbinary.
  2: { split; [done|]. intros Hzero. by rewrite Hbinary, Hzero, zeros_0, app_nil_r. }
  pose proof (forallb_tlv_okb _ (TBFHeader_init_tlvs_ok b h Hinit)) as Hok.
  unfold get_binary, get_version. rewrite Hversion, Hfields.
  cbn [mbind result_bind Z.eqb Pos.eqb].
  assert (getitems (hdr_fields b) ["header_size"; "total_size"; "flags"]%string
          = Ok [hdr_header_size b; hdr_total_size b; hdr_flags b]) as -> by done.
  cbn [mbind result_bind].
  change ([hdr_header_size b; hdr_total_size b; hdr_flags b] ++ [0])
    with [hdr_header_size b; hdr_total_size b; hdr_flags b; 0].
  pose proof (le_combine_slice_range 2 4 b) as Hr1.
  pose proof (le_combine_slice_range 4 8 b) as Hr2.
  pose proof (le_combine_slice_range 8 12 b) as Hr3.
  pose proof (le_combine_slice_range 12 16 b) as Hr4.
  change (2 ^ (8 * Z.of_nat (4 - 2))) with 65536 in Hr1.
  change (2 ^ (8 * Z.of_nat (8 - 4))) with 4294967296 in Hr2.
  change (2 ^ (8 * Z.of_nat (12 - 8))) with 4294967296 in Hr3.
  change (2 ^ (8 * Z.of_nat (16 - 12))) with 4294967296 in Hr4.
  rewrite !struct_pack_H by (done || lia). rewrite !struct_pack_I by (done || lia).
  cbn [struct_pack mbind result_bind]. rewrite app_nil_r, Htlvs. cbn [mbind result_bind].
  rewrite <- !app_assoc.
  assert (le_split 2 2 ++ le_split 2 (hdr_header_size b)
            ++ le_split 4 (hdr_total_size b) ++ le_split 4 (hdr_flags b)
            ++ le_split 4 0 ++ skipn 16 b
          = firstn 12 b ++ zeros 4 ++ skipn 16 b) as ->.
  { rewrite base_fields_bytes by done.
    match goal with Hv : hdr_version b = 2 |- _ => rewrite Hv end.
    by rewrite <- !app_assoc. }
  set (buf := firstn 12 b ++ zeros 4 ++ skipn 16 b).
  assert (len buf = len b) as Hlenbuf by (unfold buf; list_len).
  assert (_checksum buf = hdr_checksum b) as ->.
  { match goal with Hs : hdr_computed_checksum b = _ |- _ => rewrite <- Hs end.
    unfold hdr_computed_checksum, buf.
    match goal with Hs : hdr_header_size b = len b |- _ => rewrite Hs end.
    unfold len. by rewrite Nat2Z.id, firstn_all. }
  assert (_checksum_pad buf = buf) as ->.
  { unfold _checksum_pad. rewrite Hlenbuf.
    assert (len b mod 4 = 0) as ->; [|done].
    rewrite len_skipn in Hmod. Z.div_mod_to_equations. lia. }
  unfold pack_into_I.
  assert (((Z.of_nat 12 + 4 <=? len buf) && (0 <=? hdr_checksum b)
           && (hdr_checksum b <? 2 ^ 32)) = true) as ->.
  { unfold hdr_checksum. change (2 ^ 32) with 4294967296.
    repeat (apply andb_true_intro; split); bool_lia. }
  cbn [mbind result_bind].
  assert (firstn 12 buf ++ le_split 4 (hdr_checksum b) ++ skipn (12 + 4) buf = b) as ->.
  { unfold buf, hdr_checksum.
    rewrite (le_split_slice 4 12 16 b) by (done || lia).
    rewrite firstn_app, firstn_firstn. rewrite (Nat.min_l 12 12) by lia.
    replace (12 - length (firstn 12 b))%nat with 0%nat by list_len.
    cbn [firstn]. rewrite app_nil_r.
    rewrite skipn_app. replace (12 + 4 - length (firstn 12 b))%nat with 4%nat by list_len.
    rewrite (skipn_all2 (firstn 12 b)) by list_len. cbn [app].
    rewrite skipn_app. replace (4 - length (zeros 4))%nat with 0%nat by list_len.
    rewrite (skipn_all2 (zeros 4)) by list_len. cbn [app skipn].
    rewrite <- (firstn_skipn 16 b) at 4. rewrite (firstn_slice 12 16) by lia.
    by rewrite <- app_assoc. }
  by apply get_binary_padding.
Qed.

Lemma header_round_trip_witness :
  ∃ h, TBFHeader_init example_sealed_app = Ok h ∧ get_binary h = Ok example_sealed_app.
Proof.
  destruct (header_round_trip example_sealed_app) as (h & Hinit & _ & _ & Hexact);
    [vm_compute; reflexivity|].
  exists h. split; [done|]. apply Hexact.
  assert (TBFHeader_init example_sealed_app =
            Ok (mkHeader true true false (hdr_fields example_sealed_app)
                  [TBFTLVMain_init (le_split 4 41 ++ le_split 4 0 ++ le_split 4 4096);
                   mkTLV TBFTLVPackageName
                     (<["valid"%string := PBool true]>
                        {[ "package_name"%string := PStr [98; 108; 105; 110; 107] ]});
                   TBFTLVKernelVersion_init (le_split 2 2 ++ le_split 2 1)]
                  (Some 2))) as Hh by (vm_compute; reflexivity).
  rewrite Hinit in Hh. injection Hh as ->. vm_compute. reflexivity.
Defined.

(** C2, as the claim states it, fails: for a well-formed header whose Main
    TLV declares a protected region of 8 bytes, [get_binary] returns the
    buffer followed by 8 zero bytes. *)
Lemma round_trip_appends_protected_region :
  well_formed_v2 example_protected_app = true ∧
  TBFHeader_init example_protected_app = Ok example_protected_app_header ∧
  get_binary example_protected_app_header = Ok (example_protected_app ++ zeros 8) ∧
  get_binary example_protected_app_header ≠ Ok example_protected_app.
Proof.
  split; [vm_compute; reflexivity|]. split; [vm_compute; reflexivity|].
  split; [vm_compute; reflexivity|]. vm_compute. discriminate.
Qed.

(** * Further properties

    ** [roundup] *)

(** X1: for a positive [to], [roundup x to] is the least multiple of [to]
    that is not below [x]: it is a multiple of [to], it lies in
    [x .. x + to - 1], and no multiple of [to] from [x] on is smaller. *)
Theorem roundup_least_multiple (x to : Z) :
  0 < to →
  roundup x to mod to = 0 ∧
  x <= roundup x to < x + to ∧
  ∀ m, m mod to = 0 → x <= m → roundup x to <= m.
Proof.
  intros Hto. unfold roundup. pose proof (Z.mod_pos_bound x to Hto) as Hr.
  pose proof (Z.div_mod x to ltac:(lia)) as Hx.
  destruct (x mod to =? 0) eqn:Hmod.
  - apply Z.eqb_eq in Hmod. repeat split; (done || lia).
  - apply Z.eqb_neq in Hmod.
    assert (x + to - x mod to = (x / to + 1) * to) as Hup by lia.
    split; [|split; [lia|]].
    + rewrite Hup. by apply Z.mod_mul; lia.
    + intros m Hm Hle. rewrite Hup.
      pose proof (Z.div_mod m to ltac:(lia)) as Hmq. rewrite Hm in Hmq.
      assert (x / to < m / to) by nia. nia.
Qed.

Lemma roundup_least_multiple_witness :
  roundup 13 4 mod 4 = 0 ∧
  13 <= roundup 13 4 < 13 + 4 ∧
  ∀ m, m mod 4 = 0 → 13 <= m → roundup 13 4 <= m.
Proof. apply (roundup_least_multiple 13 4). lia. Defined.

(** ** The checksum *)

Lemma xor_words_acc n : ∀ (buf : bytes) acc,
  xor_words n buf acc = Z.lxor acc (xor_words n buf 0).
Proof.
  induction n as [|n IH]; intros buf acc; cbn [xor_words].
  - by rewrite Z.lxor_0_r.
  - rewrite IH, (IH _ (Z.lxor 0 _)). by rewrite Z.lxor_0_l, Z.lxor_assoc.
Qed.

Lemma xor_words_app n m : ∀ (a b : bytes) acc,
  length a = (4 * n)%nat →
  xor_words (n + m) (a ++ b) acc = xor_words m b (xor_words n a acc).
Proof.
  induction n as [|n IH]; intros a b acc Hlen.
  - destruct a; [done|]. cbn in Hlen. lia.
  - cbn [Nat.add xor_words].
    rewrite firstn_app, skipn_app.
    replace (4 - length a)%nat with 0%nat by lia.
    cbn [firstn skipn]. rewrite app_nil_r.
    apply IH. rewrite length_skipn. lia.
Qed.

Lemma _checksum_pad_zeros (b : bytes) :
  ∃ k, 0 <= k < 4 ∧ _checksum_pad b = b ++ zeros k ∧ (len b + k) mod 4 = 0.
Proof.
  unfold _checksum_pad. pose proof (Z.mod_pos_bound (len b) 4 ltac:(lia)) as Hr.
  destruct (len b mod 4 =? 0) eqn:Hmod.
  - apply Z.eqb_eq in Hmod. exists 0. rewrite zeros_0, app_nil_r, Z.add_0_r. done.
  - apply Z.eqb_neq in Hmod. exists (4 - len b mod 4).
    split; [lia|]. split; [done|]. Z.div_mod_to_equations. lia.
Qed.

Lemma _checksum_pad_aligned (b : bytes) : len b mod 4 = 0 → _checksum_pad b = b.
Proof. intros Hlen. unfold _checksum_pad. by rewrite Hlen. Qed.

Lemma _checksum_pad_app (a b : bytes) :
  len a mod 4 = 0 → _checksum_pad (a ++ b) = a ++ _checksum_pad b.
Proof.
  intros Hlen. unfold _checksum_pad. rewrite len_app.
  replace ((len a + len b) mod 4) with (len b mod 4)
    by (Z.div_mod_to_equations; lia).
  destruct (_ =? 0); [done|]. by rewrite <- app_assoc.
Qed.

Lemma length_div_4 (a : bytes) n : length a = (4 * n)%nat → (length a / 4)%nat = n.
Proof. intros ->. rewrite Nat.mul_comm. by apply Nat.div_mul. Qed.

Lemma aligned_length (a : bytes) : len a mod 4 = 0 → ∃ n, length a = (4 * n)%nat.
Proof.
  intros Hlen. exists (length a / 4)%nat. unfold len in Hlen.
  pose proof (Nat.div_mod_eq (length a) 4) as Hd.
  assert (length a mod 4 = 0)%nat; [|lia].
  apply Nat2Z.inj. rewrite Nat2Z.inj_mod. done.
Qed.

(** The checksum of a buffer that starts with whole words is the XOR of the
    checksums of its two parts. *)
Lemma _checksum_app (a b : bytes) :
  len a mod 4 = 0 → _checksum (a ++ b) = Z.lxor (_checksum a) (_checksum b).
Proof.
  intros Hlen. unfold _checksum. rewrite _checksum_pad_app, (_checksum_pad_aligned a) by done.
  destruct (aligned_length a Hlen) as [n Hn].
  destruct (_checksum_pad_zeros b) as (k & Hk & Hpad & Hmod).
  destruct (aligned_length (_checksum_pad b)) as [m Hm].
  { rewrite Hpad, len_app, len_zeros by lia. done. }
  rewrite (length_div_4 a n), (length_div_4 (_checksum_pad b) m) by done.
  rewrite (length_div_4 (a ++ _checksum_pad b) (n + m)) by (rewrite length_app; lia).
  rewrite xor_words_app by done. apply xor_words_acc.
Qed.

Lemma firstn_repeat_zero k : ∀ m, ∃ j, firstn k (repeat Byte.x00 m) = repeat Byte.x00 j.
Proof.
  induction k as [|k IH]; intros m; [by exists 0%nat|].
  destruct m as [|m]; [by exists 0%nat|].
  destruct (IH m) as [j Hj]. exists (S j). cbn. by rewrite Hj.
Qed.

Lemma skipn_repeat_zero k : ∀ m, skipn k (repeat Byte.x00 m) = repeat Byte.x00 (m - k).
Proof.
  induction k as [|k IH]; intros m; [by rewrite Nat.sub_0_r|].
  destruct m as [|m]; [done|]. cbn. apply IH.
Qed.

Lemma xor_words_zeros n : ∀ m, xor_words n (repeat Byte.x00 m) 0 = 0.
Proof.
  induction n as [|n IH]; intros m; [done|]. cbn [xor_words].
  destruct (firstn_repeat_zero 4 m) as [j ->].
  rewrite skipn_repeat_zero, le_combine_0. cbn [Z.lxor]. apply IH.
Qed.

Lemma _checksum_zeros n : _checksum (zeros n) = 0.
Proof.
  unfold _checksum. destruct (_checksum_pad_zeros (zeros n)) as (k & _ & -> & _).
  unfold zeros. rewrite <- repeat_app. apply xor_words_zeros.
Qed.

Lemma _checksum_pad_idemp (b : bytes) : _checksum_pad (_checksum_pad b) = _checksum_pad b.
Proof.
  destruct (_checksum_pad_zeros b) as (k & Hk & Hpad & Hmod).
  apply _checksum_pad_aligned. rewrite Hpad, len_app, len_zeros by lia. done.
Qed.

Lemma _checksum_padded (b : bytes) : _checksum (_checksum_pad b) = _checksum b.
Proof. unfold _checksum. by rewrite _checksum_pad_idemp. Qed.

Lemma zeros_add j k : 0 <= j → 0 <= k → zeros (j + k) = zeros j ++ zeros k.
Proof.
  intros Hj Hk. unfold zeros. rewrite Z2Nat.inj_add by done. apply repeat_app.
Qed.

Lemma _checksum_app_zeros (b : bytes) n : _checksum (b ++ zeros n) = _checksum b.
Proof.
  destruct (Z.le_gt_cases n 0) as [Hn | Hn].
  { unfold zeros. rewrite Z2Nat.nonpos by done. cbn. by rewrite app_nil_r. }
  rewrite <- (_checksum_padded (b ++ zeros n)), <- (_checksum_padded b).
  destruct (_checksum_pad_zeros b) as (k & Hk & Hpad & Hmod).
  destruct (_checksum_pad_zeros (b ++ zeros n)) as (k' & Hk' & Hpad' & Hmod').
  rewrite len_app, len_zeros in Hmod' by lia.
  assert (_checksum_pad (b ++ zeros n) = _checksum_pad b ++ zeros (n + k' - k)) as ->.
  { rewrite Hpad, Hpad', <- !app_assoc, <- !zeros_add; try lia.
    - do 2 f_equal. lia.
    - Z.div_mod_to_equations. lia. }
  rewrite _checksum_app by (rewrite Hpad, len_app, len_zeros by lia; done).
  by rewrite _checksum_zeros, Z.lxor_0_r.
Qed.

Lemma lxor_range a b : 0 <= a < 2 ^ 32 → 0 <= b < 2 ^ 32 → 0 <= Z.lxor a b < 2 ^ 32.
Proof.
  intros Ha Hb.
  assert (∀ c, 0 <= c < 2 ^ 32 → Z.log2 c < 32) as Hlog.
  { intros c Hc. destruct (Z.eq_dec c 0) as [-> | Hne]; [done|].
    apply Z.log2_lt_pow2; lia. }
  assert (0 <= Z.lxor a b) as Hnonneg by (apply Z.lxor_nonneg; lia).
  split; [done|].
  destruct (Z.eq_dec (Z.lxor a b) 0) as [-> | Hne]; [done|].
  apply Z.log2_lt_pow2; [lia|].
  pose proof (Z.log2_lxor a b ltac:(lia) ltac:(lia)).
  pose proof (Hlog a Ha). pose proof (Hlog b Hb). lia.
Qed.

Lemma le_combine_word (b : bytes) : 0 <= le_combine (firstn 4 b) < 2 ^ 32.
Proof.
  pose proof (le_combine_bound (firstn 4 b)) as Hb.
  assert (2 ^ (8 * Z.of_nat (length (firstn 4 b))) <= 2 ^ 32); [|lia].
  apply Z.pow_le_mono_r; [lia|]. rewrite length_firstn. lia.
Qed.

Lemma xor_words_range n : ∀ (buf : bytes) acc,
  0 <= acc < 2 ^ 32 → 0 <= xor_words n buf acc < 2 ^ 32.
Proof.
  induction n as [|n IH]; intros buf acc Hacc; [done|]. cbn [xor_words].
  apply IH. apply lxor_range; [done|]. apply le_combine_word.
Qed.

Lemma _checksum_range (b : bytes) : 0 <= _checksum b < 2 ^ 32.
Proof. unfold _checksum. by apply xor_words_range. Qed.

Lemma _checksum_word (w : bytes) : length w = 4%nat → _checksum w = le_combine w.
Proof.
  intros Hlen. unfold _checksum. rewrite _checksum_pad_aligned by (unfold len; by rewrite Hlen).
  rewrite Hlen. change (4 / 4)%nat with 1%nat. cbn [xor_words].
  rewrite firstn_all2 by lia. done.
Qed.

(** X2: the header checksum is the XOR of the 32-bit little-endian words of
    the buffer: it fits in 32 bits, the checksum of a single word is the word,
    and the checksum of a buffer that starts with whole words is the XOR of
    the checksums of the two parts. *)
Theorem checksum_xor_of_words :
  (∀ b : bytes, 0 <= _checksum b < 2 ^ 32) ∧
  (∀ w : bytes, length w = 4%nat → _checksum w = le_combine w) ∧
  (∀ a b : bytes, len a mod 4 = 0 → _checksum (a ++ b) = Z.lxor (_checksum a) (_checksum b)).
Proof.
  split; [apply _checksum_range|]. split; [apply _checksum_word|]. apply _checksum_app.
Qed.

Lemma checksum_xor_of_words_witness :
  _checksum (le_split 4 0x12345678) = le_combine (le_split 4 0x12345678) ∧
  _checksum (le_split 4 0x12345678 ++ le_split 2 0xffff) =
    Z.lxor (_checksum (le_split 4 0x12345678)) (_checksum (le_split 2 0xffff)).
Proof.
  destruct checksum_xor_of_words as (_ & Hword & Happ). split.
  - apply Hword. reflexivity.
  - apply Happ. reflexivity.
Defined.

(** X3: the zero bytes [_checksum] appends to fill the last word, and any
    zero bytes at the end of the buffer, do not change the checksum. *)
Theorem checksum_trailing_zeros (b : bytes) (n : Z) :
  _checksum (b ++ zeros n) = _checksum b ∧ _checksum (_checksum_pad b) = _checksum b.
Proof. split; [apply _checksum_app_zeros | apply _checksum_padded]. Qed.

(** ** [get_binary] *)

Lemma struct_pack_inv w fmt v vals (r : bytes) :
  struct_pack (w :: fmt) (v :: vals) = Ok r →
  0 <= v < 2 ^ (8 * Z.of_nat w) ∧
  ∃ rest, struct_pack fmt vals = Ok rest ∧ r = le_split w v ++ rest.
Proof.
  cbn [struct_pack]. destruct (_ && _) eqn:Hrange; [|done].
  apply andb_prop in Hrange as [Hlo Hhi]. apply Z.leb_le in Hlo. apply Z.ltb_lt in Hhi.
  destruct (struct_pack fmt vals) as [rest|]; [|done]. cbn [mbind result_bind].
  intros [= <-]. eauto.
Qed.

Lemma struct_pack_length fmt : ∀ vals (r : bytes),
  struct_pack fmt vals = Ok r → length vals = length fmt ∧ length r = fmt_size fmt.
Proof.
  induction fmt as [|w fmt IH]; intros [|v vals] r Hpack; try done.
  - by injection Hpack as <-.
  - apply struct_pack_inv in Hpack as (_ & rest & Hrest & ->).
    destruct (IH _ _ Hrest) as [Hl Hr]. cbn [length fmt_size fold_right].
    rewrite length_app, length_le_split. fold (fmt_size fmt). lia.
Qed.

Lemma struct_pack_raise fmt : ∀ vals e, struct_pack fmt vals = Raise e → e = StructError.
Proof.
  induction fmt as [|w fmt IH]; intros [|v vals] e; cbn [struct_pack]; try (by intros [= <-]).
  destruct (_ && _); [|by intros [= <-]].
  destruct (struct_pack fmt vals) as [rest|e'] eqn:Hrest; [done|]. cbn [mbind result_bind].
  intros [= <-]. by eapply IH.
Qed.

Lemma getitems_length fields keys : ∀ vals,
  getitems fields keys = Ok vals → length vals = length keys.
Proof.
  induction keys as [|k keys IH]; intros vals; cbn [getitems]; [by intros [= <-]|].
  destruct (getitem fields k); [|done]. cbn [mbind result_bind].
  destruct (getitems fields keys) as [vs|]; [|done]. cbn [mbind result_bind].
  intros [= <-]. cbn. by rewrite (IH vs).
Qed.

Lemma getitems_raise fields keys : ∀ e,
  getitems fields keys = Raise e → ∃ k, k ∈ keys ∧ fields !! k = None ∧ e = KeyError k.
Proof.
  induction keys as [|k keys IH]; intros e; cbn [getitems]; [done|].
  unfold getitem at 1. destruct (fields !! k) eqn:Hk; cbn [mbind result_bind].
  - destruct (getitems fields keys) as [vs|e'] eqn:Hrest; [done|]. cbn [mbind result_bind].
    intros [= <-]. destruct (IH e' eq_refl) as (k' & Hin & Hnone & ->).
    exists k'. split; [by apply list_elem_of_further|done].
  - intros [= <-]. exists k. split; [apply list_elem_of_here|done].
Qed.

Lemma pack_tlvs_app tlvs : ∀ buf r,
  pack_tlvs buf tlvs = Ok r →
  ∃ stream, r = buf ++ stream ∧ ∀ buf', pack_tlvs buf' tlvs = Ok (buf' ++ stream).
Proof.
  induction tlvs as [|t tlvs IH]; intros buf r; cbn [pack_tlvs].
  - intros [= <-]. exists []. split; [by rewrite app_nil_r|]. intros buf'. by rewrite app_nil_r.
  - destruct (pack t) as [b|]; [|done]. cbn [mbind result_bind]. intros Hrest.
    destruct (IH _ _ Hrest) as (stream & -> & Hany). exists (b ++ stream).
    split; [by rewrite app_assoc|]. intros buf'. by rewrite Hany, app_assoc.
Qed.

(** A version 1 header is never serialized: the format of [struct.pack] has
    one more field than the call has values. *)
Lemma get_binary_v1_raises h :
  version h = Some 1 →
  get_binary h = Raise StructError ∨
  ∃ k, k ∈ v1_pack_fields ∧ fields h !! k = None ∧ get_binary h = Raise (KeyError k).
Proof.
  intros Hv. unfold get_binary, get_version. rewrite Hv. cbn [mbind result_bind Z.eqb Pos.eqb].
  destruct (getitems (fields h) v1_pack_fields) as [vals|e] eqn:Hvals; cbn [mbind result_bind].
  - left. apply getitems_length in Hvals.
    destruct (struct_pack (repeat I 19) (1 :: vals)) as [buf|e] eqn:Hpack; cbn [mbind result_bind].
    + apply struct_pack_length in Hpack as [Hlen _]. cbn in Hlen. rewrite Hvals in Hlen.
      cbn in Hlen. lia.
    + by rewrite (struct_pack_raise _ _ _ Hpack).
  - right. destruct (getitems_raise _ _ _ Hvals) as (k & Hin & Hnone & ->). eauto.
Qed.

(** The bytes [get_binary] returns for a version 2 header. *)
Lemma get_binary_v2_shape h out :
  version h = Some 2 → get_binary h = Ok out →
  ∃ hs ts fl stream k,
    fields h !! "header_size"%string = Some hs ∧
    fields h !! "total_size"%string = Some ts ∧
    fields h !! "flags"%string = Some fl ∧
    0 <= hs < 2 ^ 16 ∧ 0 <= ts < 2 ^ 32 ∧ 0 <= fl < 2 ^ 32 ∧
    (∀ buf, (if app h then pack_tlvs buf (tlvs h) else Ok buf) = Ok (buf ++ stream)) ∧
    0 <= k < 4 ∧ (len stream + k) mod 4 = 0 ∧
    let base := le_split 2 2 ++ le_split 2 hs ++ le_split 4 ts ++ le_split 4 fl in
    out = base ++ le_split 4 (_checksum (base ++ zeros 4 ++ stream))
            ++ stream ++ zeros k ++ zeros (protected_padding h).
Proof.
  intros Hv. unfold get_binary, get_version. rewrite Hv.
  cbn [mbind result_bind Z.eqb Pos.eqb getitems]. unfold getitem.
  destruct (fields h !! "header_size"%string) as [hs|] eqn:Hhs; [|done].
  destruct (fields h !! "total_size"%string) as [ts|] eqn:Hts; [|done].
  destruct (fields h !! "flags"%string) as [fl|] eqn:Hfl; [|done].
  cbn [mbind result_bind app].
  destruct (struct_pack _ _) as [buf|] eqn:Hpack; [|done]. cbn [mbind result_bind].
  apply struct_pack_inv in Hpack as (_ & r1 & Hpack & ->).
  apply struct_pack_inv in Hpack as (Hrhs & r2 & Hpack & ->).
  apply struct_pack_inv in Hpack as (Hrts & r3 & Hpack & ->).
  apply struct_pack_inv in Hpack as (Hrfl & r4 & Hpack & ->).
  apply struct_pack_inv in Hpack as (_ & r5 & Hpack & ->).
  injection Hpack as <-. rewrite app_nil_r.
  change (le_split I 0) with (zeros 4). change (Z.of_nat H) with 2 in *.
  change (Z.of_nat I) with 4 in *. change (8 * 2) with 16 in *. change (8 * 4) with 32 in *.
  unfold H, I.
  set (base := le_split 2 2 ++ le_split 2 hs ++ le_split 4 ts ++ le_split 4 fl).
  assert (le_split 2 2 ++ le_split 2 hs ++ le_split 4 ts ++ le_split 4 fl ++ zeros 4
          = base ++ zeros 4) as -> by (unfold base; by rewrite <- !app_assoc).
  assert (length base = 12%nat) as Hbase by (unfold base; list_len).
  destruct (if app h then pack_tlvs (base ++ zeros 4) (tlvs h) else Ok (base ++ zeros 4))
    as [buf|] eqn:Htlvs; [|done]. cbn [mbind result_bind].
  assert (∃ stream, buf = (base ++ zeros 4) ++ stream ∧
            ∀ buf', (if app h then pack_tlvs buf' (tlvs h) else Ok buf') = Ok (buf' ++ stream))
    as (stream & -> & Hstream).
  { destruct (app h).
    - by apply pack_tlvs_app.
    - injection Htlvs as <-. exists []. split; [by rewrite app_nil_r|].
      intros buf'. by rewrite app_nil_r. }
  rewrite <- app_assoc.
  destruct (_checksum_pad_zeros stream) as (k & Hk & Hpad & Hmod).
  rewrite (app_assoc base), _checksum_pad_app, Hpad by (rewrite len_app; unfold len; rewrite Hbase; done).
  rewrite <- app_assoc.
  unfold pack_into_I. destruct (_ && _); [|done]. cbn [mbind result_bind].
  rewrite firstn_app, (firstn_all2 base), skipn_app, (skipn_all2 base) by lia.
  rewrite Hbase. cbn [Nat.sub Nat.add firstn skipn app]. rewrite app_nil_r.
  change (skipn 4 (zeros 4 ++ stream ++ zeros k)) with (stream ++ zeros k).
  cbn [app]. rewrite <- (app_assoc base (zeros 4) stream).
  intros Hout. exists hs, ts, fl, stream, k.
  do 8 (split; [done|]). split; [done|]. cbn zeta. fold base.
  unfold protected_padding, binary_tlv_attr.
  destruct (_get_binary_tlv h) as [[r|]|]; cbn [mbind result_bind] in Hout |- *; [| |done].
  - destruct (ref_attr (Some r) "protected_size" h) as [v|];
      cbn [mbind result_bind] in Hout |- *; [|done].
    destruct (as_int v) as [p|]; cbn [mbind result_bind] in Hout |- *; [|done].
    destruct (p >? 0); injection Hout as <-; rewrite <- ?app_assoc, ?zeros_0, ?app_nil_r; done.
  - injection Hout as <-. cbn. by rewrite zeros_0, !app_nil_r.
Qed.

(** The same, from the header to the bytes. *)
Lemma get_binary_v2_value h hs ts fl stream :
  version h = Some 2 →
  fields h !! "header_size"%string = Some hs →
  fields h !! "total_size"%string = Some ts →
  fields h !! "flags"%string = Some fl →
  0 <= hs < 2 ^ 16 → 0 <= ts < 2 ^ 32 → 0 <= fl < 2 ^ 32 →
  (∀ buf, (if app h then pack_tlvs buf (tlvs h) else Ok buf) = Ok (buf ++ stream)) →
  Forall tlv_ok (tlvs h) →
  ∃ k, 0 <= k < 4 ∧ (len stream + k) mod 4 = 0 ∧
    let base := le_split 2 2 ++ le_split 2 hs ++ le_split 4 ts ++ le_split 4 fl in
    get_binary h =
      Ok (base ++ le_split 4 (_checksum (base ++ zeros 4 ++ stream))
            ++ stream ++ zeros k ++ zeros (protected_padding h)).
Proof.
  intros Hv Hhs Hts Hfl Hrhs Hrts Hrfl Hstream Hok.
  destruct (_checksum_pad_zeros stream) as (k & Hk & Hpad & Hmod).
  exists k. split; [done|]. split; [done|]. cbn zeta.
  unfold get_binary, get_version. rewrite Hv.
  cbn [mbind result_bind Z.eqb Pos.eqb getitems]. unfold getitem. rewrite Hhs, Hts, Hfl.
  cbn [mbind result_bind app].
  change (2 ^ 16) with 65536 in *. change (2 ^ 32) with 4294967296 in *.
  change ([hs; ts; fl] ++ [0]) with [hs; ts; fl; 0].
  rewrite !struct_pack_H by (done || lia). rewrite !struct_pack_I by (done || lia).
  cbn [struct_pack mbind result_bind]. rewrite app_nil_r, Hstream. cbn [mbind result_bind].
  change (le_split 4 0) with (zeros 4).
  set (base := le_split 2 2 ++ le_split 2 hs ++ le_split 4 ts ++ le_split 4 fl).
  assert (le_split 2 2 ++ le_split 2 hs ++ le_split 4 ts ++ le_split 4 fl ++ zeros 4
          = base ++ zeros 4) as -> by (unfold base; by rewrite <- !app_assoc).
  assert (length base = 12%nat) as Hbase by (unfold base; list_len).
  rewrite <- !(app_assoc base).
  rewrite !_checksum_pad_app, Hpad by (unfold len; by rewrite ?Hbase).
  pose proof (_checksum_range (base ++ zeros 4 ++ stream)) as Hrange.
  change (2 ^ 32) with 4294967296 in Hrange.
  unfold pack_into_I.
  assert (((Z.of_nat 12 + 4 <=? len (base ++ zeros 4 ++ stream ++ zeros k))
           && (0 <=? _checksum (base ++ zeros 4 ++ stream))
           && (_checksum (base ++ zeros 4 ++ stream) <? 2 ^ 32)) = true) as ->.
  { change (2 ^ 32) with 4294967296.
    repeat (apply andb_true_intro; split); [|apply Z.leb_le; lia|apply Z.ltb_lt; lia].
    apply Z.leb_le. rewrite !len_app. unfold len at 1. rewrite Hbase.
    pose proof (len_nonneg stream). pose proof (len_nonneg (zeros k)).
    rewrite len_zeros by lia. lia. }
  cbn [mbind result_bind].
  rewrite firstn_app, (firstn_all2 base), skipn_app, (skipn_all2 base) by lia.
  rewrite Hbase. cbn [Nat.sub Nat.add firstn skipn app]. rewrite app_nil_r.
  change (skipn 4 (zeros 4 ++ stream ++ zeros k)) with (stream ++ zeros k).
  rewrite get_binary_padding by done. by rewrite <- !app_assoc.
Qed.

Lemma get_binary_Ok_version h out : get_binary h = Ok out → version h = Some 2.
Proof.
  intros Hout. destruct (version h) as [v|] eqn:Hv.
  - destruct (Z.eq_dec v 1) as [-> | Hne1].
    { destruct (get_binary_v1_raises h Hv) as [Hraise | (k & _ & _ & Hraise)]; congruence. }
    destruct (Z.eq_dec v 2) as [-> | Hne2]; [done|].
    unfold get_binary, get_version in Hout. rewrite Hv in Hout. cbn [mbind result_bind] in Hout.
    assert ((v =? 1) = false) as Hf1 by (by apply Z.eqb_neq).
    assert ((v =? 2) = false) as Hf2 by (by apply Z.eqb_neq).
    by rewrite Hf1, Hf2 in Hout.
  - unfold get_binary, get_version in Hout. by rewrite Hv in Hout.
Qed.

(** The base fields of a buffer made of five packed fields. *)
Lemma slice_le_split_app i w v (pre rest : bytes) :
  length pre = i → slice i (i + w) (pre ++ le_split w v ++ rest) = le_split w v.
Proof.
  intros <-. unfold slice. rewrite skipn_app, skipn_all, Nat.sub_diag. cbn [skipn app].
  replace (length pre + w - length pre)%nat with w by lia. apply firstn_le_split_app.
Qed.

Lemma hdr_base_fields v hs ts fl c (rest : bytes) :
  0 <= v < 2 ^ 16 → 0 <= hs < 2 ^ 16 → 0 <= ts < 2 ^ 32 → 0 <= fl < 2 ^ 32 →
  0 <= c < 2 ^ 32 →
  let b := le_split 2 v ++ le_split 2 hs ++ le_split 4 ts ++ le_split 4 fl
             ++ le_split 4 c ++ rest in
  hdr_version b = v ∧ hdr_header_size b = hs ∧ hdr_total_size b = ts ∧
  hdr_flags b = fl ∧ hdr_checksum b = c.
Proof.
  intros Hv Hhs Hts Hfl Hc b.
  unfold hdr_version, hdr_header_size, hdr_total_size, hdr_flags, hdr_checksum, b.
  rewrite slice_0, firstn_le_split_app.
  pose proof (slice_le_split_app 2 2 hs (le_split 2 v)
                (le_split 4 ts ++ le_split 4 fl ++ le_split 4 c ++ rest) ltac:(list_len)) as H2.
  cbn [Nat.add] in H2. rewrite H2.
  pose proof (slice_le_split_app 4 4 ts (le_split 2 v ++ le_split 2 hs)
                (le_split 4 fl ++ le_split 4 c ++ rest) ltac:(list_len)) as H4.
  pose proof (slice_le_split_app 8 4 fl (le_split 2 v ++ le_split 2 hs ++ le_split 4 ts)
                (le_split 4 c ++ rest) ltac:(list_len)) as H8.
  pose proof (slice_le_split_app 12 4 c
                (le_split 2 v ++ le_split 2 hs ++ le_split 4 ts ++ le_split 4 fl)
                rest ltac:(list_len)) as H12.
  repeat rewrite <- app_assoc in H4. repeat rewrite <- app_assoc in H8.
  repeat rewrite <- app_assoc in H12. cbn [Nat.add] in H4, H8, H12.
  rewrite H4, H8, H12.
  by rewrite !le_combine_le_split_small.
Qed.

(** X4: [get_binary] returns bytes for a version 2 header only (for
    version 1, for another version and for a header without version it
    raises).  What it returns starts with the 16 bytes of the base fields:
    the version 2 and the fields [header_size], [total_size] and [flags] of
    the object, each in the range of its format; the stored field
    [checksum] is not used. *)
Theorem get_binary_base_fields (h : TBFHeader) (out : bytes) :
  get_binary h = Ok out →
  version h = Some 2 ∧
  16 <= len out ∧
  hdr_version out = 2 ∧
  fields h !! "header_size"%string = Some (hdr_header_size out) ∧
  fields h !! "total_size"%string = Some (hdr_total_size out) ∧
  fields h !! "flags"%string = Some (hdr_flags out) ∧
  get_binary (with_fields (delete "checksum"%string (fields h)) h) = Ok out.
Proof.
  intros Hout. pose proof (get_binary_Ok_version h out Hout) as Hv. split; [done|].
  assert (get_binary (with_fields (delete "checksum"%string (fields h)) h) = Ok out) as Hsame.
  { rewrite <- Hout. unfold get_binary, get_version, _get_binary_tlv, _get_tlv, ref_attr.
    cbn [with_fields version fields tlvs app]. rewrite Hv.
    cbn [mbind result_bind Z.eqb Pos.eqb getitems].
    unfold getitem. by rewrite !lookup_delete_ne. }
  revert Hsame. generalize (get_binary (with_fields (delete "checksum"%string (fields h)) h)).
  intros g Hsame.
  destruct (get_binary_v2_shape h out Hv Hout)
    as (hs & ts & fl & stream & k & Hhs & Hts & Hfl & Hrhs & Hrts & Hrfl & _ & Hk & _ & Hshape).
  cbn zeta in Hshape. set (c := _checksum _) in Hshape.
  assert (0 <= c < 2 ^ 32) as Hc by apply _checksum_range.
  clearbody c. rewrite <- !app_assoc in Hshape.
  destruct (hdr_base_fields 2 hs ts fl c (stream ++ zeros k ++ zeros (protected_padding h))
              ltac:(done) Hrhs Hrts Hrfl Hc) as (Hf1 & Hf2 & Hf3 & Hf4 & _).
  rewrite <- Hshape in Hf1, Hf2, Hf3, Hf4. rewrite Hf1, Hf2, Hf3, Hf4.
  split; [rewrite Hshape; list_len|]. done.
Qed.

Lemma get_binary_base_fields_witness :
  version example_protected_app_header = Some 2 ∧
  hdr_version (example_protected_app ++ zeros 8) = 2 ∧
  fields example_protected_app_header !! "total_size"%string
    = Some (hdr_total_size (example_protected_app ++ zeros 8)).
Proof.
  assert (get_binary example_protected_app_header = Ok (example_protected_app ++ zeros 8))
    as Hout by (vm_compute; reflexivity).
  destruct (get_binary_base_fields _ _ Hout) as (Hv & _ & Hver & _ & Hts & _). done.
Defined.

Lemma lxor_cancel a b : Z.lxor a (Z.lxor (Z.lxor a b) b) = 0.
Proof.
  rewrite (Z.lxor_assoc a b b), Z.lxor_nilpotent, Z.lxor_0_r.
  apply Z.lxor_nilpotent.
Qed.

Lemma get_binary_checksum h out : get_binary h = Ok out → _checksum out = 0.
Proof.
  intros Hout. pose proof (get_binary_Ok_version h out Hout) as Hv.
  destruct (get_binary_v2_shape h out Hv Hout)
    as (hs & ts & fl & stream & k & _ & _ & _ & _ & _ & _ & _ & Hk & _ & ->).
  cbn zeta. set (base := le_split 2 2 ++ le_split 2 hs ++ le_split 4 ts ++ le_split 4 fl).
  assert (len base mod 4 = 0) as Hbase by (unfold base; list_len; done).
  rewrite !app_assoc, !_checksum_app_zeros, <- !app_assoc.
  rewrite !_checksum_app, _checksum_zeros, Z.lxor_0_l; try done; try (list_len; done).
  rewrite (_checksum_word (le_split 4 _)) by (by rewrite length_le_split).
  rewrite le_combine_le_split_small.
  - apply lxor_cancel.
  - apply lxor_range; apply _checksum_range.
Qed.

(** X5: the XOR checksum over all the bytes [get_binary] returns is 0: the
    checksum word at offset 12 is the checksum of the rest, and the bytes of
    the protected region are zeros. *)
Theorem get_binary_checksum_zero (h : TBFHeader) (out : bytes) :
  get_binary h = Ok out → _checksum out = 0.
Proof. apply get_binary_checksum. Qed.

Lemma get_binary_checksum_zero_witness :
  _checksum (example_protected_app ++ zeros 8) = 0.
Proof.
  apply (get_binary_checksum_zero example_protected_app_header).
  vm_compute. reflexivity.
Defined.

(** ** Version 1 headers *)

Lemma hdr_v1_fields_present (b : bytes) k :
  k ∈ v1_pack_fields → is_Some (hdr_v1_fields b !! k).
Proof.
  intros Hin. unfold v1_pack_fields in Hin.
  repeat (apply elem_of_cons in Hin as [-> | Hin]; [by eexists|]).
  by apply elem_of_nil in Hin.
Qed.

Lemma hdr_v1_base_total_size (b : bytes) :
  76 <= len b → hdr_v1_fields b !! "total_size"%string = Some (hdr_total_size b).
Proof.
  intros Hlen.
  assert (hdr_v1_fields b !! "total_size"%string = Some (le_combine (firstn I (slice 4 76 b))))
    as -> by done.
  unfold hdr_total_size, slice, I. rewrite firstn_firstn. done.
Qed.

Lemma hdr_v1_base_checksum (b : bytes) :
  76 <= len b → nth 17 (hdr_v1_base b) 0 = le_combine (slice 72 76 b).
Proof.
  intros Hlen. unfold hdr_v1_base. cbn [repeat unpack_fields nth].
  rewrite !skipn_skipn. unfold slice, I. cbn [Nat.add Nat.sub].
  rewrite skipn_firstn_comm, firstn_firstn, skipn_skipn. done.
Qed.

(** X6: a version 1 header can be parsed and cannot be serialized again.
    From a buffer of at least 76 bytes whose version field is 1 the parser
    builds an application header; it is valid exactly when the XOR checksum
    of the first 72 bytes is the word at offset 72.  [get_binary] of that
    header raises [struct.error]: the format of the call has 19 fields and
    the call passes 18 values. *)
Theorem version_1_header_not_serializable (b : bytes) :
  hdr_version b = 1 → 76 <= len b →
  ∃ h, TBFHeader_init b = Ok h ∧
       is_app h = true ∧ version h = Some 1 ∧ tlvs h = [] ∧
       is_valid h = (_checksum (slice 0 72 b) =? le_combine (slice 72 76 b)) ∧
       get_app_size h = Ok (hdr_total_size b) ∧
       get_binary h = Raise StructError.
Proof.
  intros Hver Hlen. rewrite TBFHeader_init_cases.
  assert ((len b <? 2) = false) as -> by bool_lia.
  assert (((hdr_version b =? 1) && (len b >=? 76)) = true) as ->.
  { rewrite Hver. apply andb_true_intro. split; [done|bool_lia]. }
  eexists. split; [reflexivity|]. do 3 (split; [done|]).
  split; [|split].
  - unfold is_valid. cbn [valid]. by rewrite hdr_v1_base_checksum.
  - unfold get_app_size, getitem. cbn [fields]. by rewrite hdr_v1_base_total_size.
  - match goal with |- get_binary ?h = _ =>
      destruct (get_binary_v1_raises h eq_refl) as [Hraise | (k & Hin & Hnone & _)] end;
      [done|].
    cbn [fields] in Hnone. destruct (hdr_v1_fields_present b k Hin) as [v Hv]. congruence.
Qed.

Lemma version_1_header_not_serializable_witness :
  ∃ h, TBFHeader_init (le_split 4 1 ++ zeros 72) = Ok h ∧
       is_app h = true ∧ get_binary h = Raise StructError.
Proof.
  destruct (version_1_header_not_serializable (le_split 4 1 ++ zeros 72))
    as (h & Hinit & Happ & _ & _ & _ & _ & Hraise);
    [vm_compute; reflexivity | vm_compute; discriminate|].
  by exists h.
Defined.

(** ** Padding headers *)

Lemma protected_padding_no_tlvs h : tlvs h = [] → protected_padding h = 0.
Proof.
  intros Htlvs. unfold protected_padding, binary_tlv_attr, _get_binary_tlv, _get_tlv.
  by rewrite Htlvs.
Qed.

(** The bytes of a padding header: the base fields with [header_size] 16,
    flags 0 and no TLV. *)
Lemma get_binary_padding_header h size :
  version h = Some 2 → app h = false → tlvs h = [] →
  fields h !! "header_size"%string = Some 16 →
  fields h !! "total_size"%string = Some size →
  fields h !! "flags"%string = Some 0 →
  0 <= size < 2 ^ 32 →
  get_binary h = Ok (v2_header size 0 (_checksum (v2_header size 0 0 [])) []).
Proof.
  intros Hv Happ Htlvs Hhs Hts Hfl Hsize.
  destruct (get_binary_v2_value h 16 size 0 [] Hv Hhs Hts Hfl) as (k & Hk & Hmod & ->);
    try done.
  { intros buf. by rewrite Happ, app_nil_r. }
  { rewrite Htlvs. constructor. }
  assert (k = 0) as -> by (change (len (@nil byte)) with 0 in Hmod; Z.div_mod_to_equations; lia).
  rewrite protected_padding_no_tlvs by done.
  unfold v2_header. change (len []) with 0. change (16 + 0) with 16.
  change (le_split 4 0) with (zeros 4). rewrite zeros_0, !app_nil_r.
  by rewrite <- !app_assoc.
Qed.

(** X7: a padding header.  For a size that fits in 32 bits
    [TBFHeaderPadding(size)] is a valid header that is not an application;
    its [get_binary] is the 16 bytes of the base fields (version 2,
    [header_size] 16, [total_size] [size], flags 0, checksum), and the parser
    reads these bytes back as a valid padding header of the same size, which
    serializes to the same bytes.  The field [checksum] of the object itself
    is 0: the constructor stores the checksum of bytes that already hold
    their checksum word.  For any other size the constructor raises
    [struct.error]. *)
Theorem padding_header_round_trip (size : Z) :
  (0 <= size < 2 ^ 32 →
   ∃ h out,
     TBFHeaderPadding_init size = Ok h ∧
     is_valid h = true ∧ is_app h = false ∧ get_app_size h = Ok size ∧
     fields h !! "checksum"%string = Some 0 ∧
     get_binary h = Ok out ∧ len out = 16 ∧
     ∃ h', TBFHeader_init out = Ok h' ∧
           is_valid h' = true ∧ is_app h' = false ∧ tlvs h' = [] ∧
           get_app_size h' = Ok size ∧ get_header_size h' = Ok 16 ∧
           get_binary h' = Ok out) ∧
  (¬ (0 <= size < 2 ^ 32) → TBFHeaderPadding_init size = Raise StructError).
Proof.
  split.
  - intros Hsize.
    set (out := v2_header size 0 (_checksum (v2_header size 0 0 [])) []).
    pose proof (_checksum_range (v2_header size 0 0 [])) as Hc.
    assert (len out = 16) as Hlen by (unfold out, v2_header; list_len; done).
    destruct (hdr_base_fields 2 (16 + len (@nil byte)) size 0
                (_checksum (v2_header size 0 0 [])) [] ltac:(done) ltac:(done) Hsize
                ltac:(done) Hc) as (Hf1 & Hf2 & Hf3 & Hf4 & Hf5).
    fold (v2_header size 0 (_checksum (v2_header size 0 0 [])) []) in Hf1, Hf2, Hf3, Hf4, Hf5.
    fold out in Hf1, Hf2, Hf3, Hf4, Hf5. change (16 + len []) with 16 in Hf2.
    unfold TBFHeaderPadding_init.
    rewrite (get_binary_padding_header _ size) by done. fold out.
    cbn [mbind result_bind]. eexists. exists out. split; [reflexivity|].
    do 2 (split; [done|]). split; [done|]. split.
    { cbn [with_fields fields]. rewrite lookup_insert_eq. f_equal.
      apply (get_binary_checksum (mkHeader true false false
               (<["flags"%string := 0]> (<["total_size"%string := size]>
                  {[ "header_size"%string := 16 ]})) [] (Some 2))).
      by apply get_binary_padding_header. }
    split; [by apply get_binary_padding_header|]. split; [done|].
    rewrite TBFHeader_init_v2 by (done || lia). rewrite Hf2, Hlen.
    cbn [Z.geb Z.gtb Z.compare Z.sub Z.opp Z.add Pos.compare Pos.compare_cont andb].
    change (16 - 16 >? 0) with false. cbv iota.
    eexists. split; [reflexivity|]. unfold is_valid, is_app. cbn [valid app tlvs].
    assert (hdr_computed_checksum out = _checksum (v2_header size 0 0 [])) as Hcomputed.
    { set (base := le_split 2 2 ++ le_split 2 16 ++ le_split 4 size ++ le_split 4 0).
      assert (length base = 12%nat) as Hbase by (unfold base; list_len).
      assert (∀ c, v2_header size 0 c [] = base ++ le_split 4 c) as Hshape.
      { intros c. unfold v2_header, base. by rewrite app_nil_r, <- !app_assoc. }
      unfold hdr_computed_checksum. rewrite Hf2. unfold out. rewrite !Hshape.
      change (Z.to_nat 16) with 16%nat.
      rewrite (firstn_all2 (base ++ _)) by (rewrite length_app, length_le_split; lia).
      rewrite firstn_app, (firstn_all2 base), Hbase, skipn_all2
        by (rewrite ?length_app, ?length_le_split; lia).
      cbn [Nat.sub firstn]. by rewrite !app_nil_r. }
    split; [rewrite Hcomputed, Hf5; by apply Z.eqb_eq|].
    do 2 (split; [done|]).
    assert (hdr_fields out !! "header_size"%string = Some 16) as Hhs
      by (unfold hdr_fields; rewrite !lookup_insert_ne by done; by rewrite lookup_insert_eq, Hf2).
    assert (hdr_fields out !! "total_size"%string = Some size) as Hts
      by (unfold hdr_fields; rewrite !lookup_insert_ne by done; by rewrite lookup_insert_eq, Hf3).
    assert (hdr_fields out !! "flags"%string = Some 0) as Hfl
      by (unfold hdr_fields; rewrite !lookup_insert_ne by done; by rewrite lookup_insert_eq, Hf4).
    split; [|split].
    + unfold get_app_size, getitem. cbn [fields]. by rewrite Hts.
    + unfold get_header_size, get_version, getitem. cbn [version fields mbind result_bind].
      by rewrite Hhs.
    + by apply get_binary_padding_header.
  - intros Hsize. unfold TBFHeaderPadding_init, get_binary, get_version.
    cbn [version mbind result_bind Z.eqb Pos.eqb fields].
    assert (getitems (<["flags"%string := 0]> (<["total_size"%string := size]>
                        {[ "header_size"%string := 16 ]}))
              ["header_size"; "total_size"; "flags"]%string = Ok [16; size; 0]) as -> by done.
    cbn [mbind result_bind]. change ([16; size; 0] ++ [0]) with [16; size; 0; 0].
    rewrite !struct_pack_H by lia. cbn [struct_pack].
    assert (((0 <=? size) && (size <? 2 ^ (8 * Z.of_nat I))) = false) as ->; [|done].
    change (8 * Z.of_nat I) with 32. apply andb_false_iff.
    destruct (Z.le_gt_cases 0 size); [right; apply Z.ltb_ge | left; apply Z.leb_gt]; lia.
Qed.

Lemma padding_header_round_trip_witness :
  ∃ h out, TBFHeaderPadding_init 512 = Ok h ∧ get_binary h = Ok out ∧ len out = 16.
Proof.
  destruct (padding_header_round_trip 512) as [Hok _].
  destruct Hok as (h & out & Hinit & _ & _ & _ & _ & Hout & Hlen & _); [lia|].
  by exists h, out.
Defined.

(** ** Flags *)

(** Setting and clearing the bits of a mask [2 ^ k]. *)
Lemma testbit_set_mask f k n :
  0 <= k → 0 <= n →
  Z.testbit (Z.lor f (2 ^ k)) n = (k =? n) || Z.testbit f n.
Proof.
  intros Hk Hn. rewrite Z.lor_spec, Z.pow2_bits_eqb by done. apply orb_comm.
Qed.

Lemma testbit_clear_mask f k n :
  0 <= k → 0 <= n →
  Z.testbit (Z.land f (Z.lnot (2 ^ k))) n = negb (k =? n) && Z.testbit f n.
Proof.
  intros Hk Hn. rewrite Z.land_spec, Z.lnot_spec, Z.pow2_bits_eqb by done. apply andb_comm.
Qed.

Lemma land_mask_assign f k j (value : bool) :
  0 <= k → 0 <= j →
  Z.land (if value then Z.lor f (2 ^ k) else Z.land f (Z.lnot (2 ^ k))) (2 ^ j) =
    if k =? j then (if value then 2 ^ j else 0) else Z.land f (2 ^ j).
Proof.
  intros Hk Hj. apply Z.bits_inj'. intros n Hn.
  rewrite Z.land_spec, Z.pow2_bits_eqb by done.
  destruct value; rewrite ?testbit_set_mask, ?testbit_clear_mask by done.
  - destruct (k =? j) eqn:Hkj.
    + apply Z.eqb_eq in Hkj as ->. rewrite Z.pow2_bits_eqb by done.
      destruct (j =? n); by rewrite ?andb_false_r.
    + rewrite Z.land_spec, Z.pow2_bits_eqb by done.
      destruct (j =? n) eqn:Hjn; rewrite ?andb_false_r; [|done].
      apply Z.eqb_eq in Hjn as <-. by rewrite Hkj.
  - destruct (k =? j) eqn:Hkj.
    + apply Z.eqb_eq in Hkj as ->. rewrite Z.bits_0.
      destruct (j =? n); by rewrite ?andb_false_r.
    + rewrite Z.land_spec, Z.pow2_bits_eqb by done.
      destruct (j =? n) eqn:Hjn; rewrite ?andb_false_r; [|done].
      apply Z.eqb_eq in Hjn as <-. by rewrite Hkj.
Qed.

(** [set_flag] on a valid header of a version other than 1, for the flag
    with mask [2 ^ k]: bit [k] of [flags] is assigned, and [modified] is
    set. *)
Lemma set_flag_bit self v flags flag_name flag_value k :
  valid self = true → version self = Some v → v ≠ 1 →
  fields self !! "flags"%string = Some flags →
  (flag_name = "enable"%string ∧ k = 0) ∨ (flag_name = "sticky"%string ∧ k = 1) →
  set_flag flag_name flag_value self =
    (Ok tt,
     with_modified true
       (with_fields
          (<["flags"%string :=
               if flag_value then Z.lor flags (2 ^ k) else Z.land flags (Z.lnot (2 ^ k))]>
             (fields self)) self)).
Proof.
  intros Hvalid Hv Hne Hflags Hname.
  assert ((v =? 1) = false) as Hv1 by (by apply Z.eqb_neq).
  unfold set_flag, eval, get_version, get, setitem, set_modified, getitem, mbind, action_bind.
  rewrite Hv. cbn beta iota. rewrite Hvalid, Hv1. cbn [orb negb].
  destruct Hname as [[-> ->] | [-> ->]]; cbn [String.eqb Ascii.eqb Bool.eqb];
    cbn beta iota; by rewrite Hflags.
Qed.

Lemma is_enabled_flags self v flags :
  valid self = true → version self = Some v → v ≠ 1 →
  fields self !! "flags"%string = Some flags →
  is_enabled self = Ok (Z.land flags (2 ^ 0) =? 2 ^ 0) ∧
  is_sticky self = Ok (Z.land flags (2 ^ 1) =? 2 ^ 1).
Proof.
  intros Hvalid Hv Hne Hflags. unfold is_enabled, is_sticky, get_version, getitem.
  rewrite Hvalid, Hv, Hflags. cbn [negb mbind result_bind].
  assert ((v =? 1) = false) as -> by (by apply Z.eqb_neq). done.
Qed.

(** X8: [set_flag] on a valid header of a version other than 1 that has a
    [flags] field.  After [set_flag("enable", value)], [is_enabled()]
    returns [value] and [is_sticky()] returns what it returned before; after
    [set_flag("sticky", value)], [is_sticky()] returns [value] and
    [is_enabled()] is as before.  Either call sets [modified], changes no
    other bit of [flags], no other base field and no TLV.  With any other
    flag name the call changes nothing. *)
Theorem set_flag_effect (self : TBFHeader) (v flags : Z) (flag_value : bool) :
  valid self = true → version self = Some v → v ≠ 1 →
  fields self !! "flags"%string = Some flags →
  (∃ self' flags',
     set_flag "enable" flag_value self = (Ok tt, self') ∧
     is_enabled self' = Ok flag_value ∧ is_sticky self' = is_sticky self ∧
     is_modified self' = true ∧ tlvs self' = tlvs self ∧
     fields self' = <["flags"%string := flags']> (fields self) ∧
     ∀ n, 0 <= n → n ≠ 0 → Z.testbit flags' n = Z.testbit flags n) ∧
  (∃ self' flags',
     set_flag "sticky" flag_value self = (Ok tt, self') ∧
     is_sticky self' = Ok flag_value ∧ is_enabled self' = is_enabled self ∧
     is_modified self' = true ∧ tlvs self' = tlvs self ∧
     fields self' = <["flags"%string := flags']> (fields self) ∧
     ∀ n, 0 <= n → n ≠ 1 → Z.testbit flags' n = Z.testbit flags n) ∧
  (∀ flag_name, flag_name ≠ "enable"%string → flag_name ≠ "sticky"%string →
     set_flag flag_name flag_value self = (Ok tt, self)).
Proof.
  intros Hvalid Hv Hne Hflags.
  destruct (is_enabled_flags self v flags Hvalid Hv Hne Hflags) as [Hen Hst].
  split; [|split].
  - eexists. eexists. split; [by apply (set_flag_bit self v flags _ _ 0); auto|].
    match goal with |- context [with_modified true ?s] =>
      destruct (is_enabled_flags (with_modified true s) v
                  (if flag_value then Z.lor flags (2 ^ 0) else Z.land flags (Z.lnot (2 ^ 0))))
        as [-> ->]; try done end.
    { cbn [with_modified with_fields fields]. by rewrite lookup_insert_eq. }
    rewrite Hst, !land_mask_assign by done. cbn [Z.eqb].
    split; [by destruct flag_value|]. split; [done|]. do 3 (split; [done|]).
    intros n Hn Hn0.
    destruct flag_value; rewrite ?testbit_set_mask, ?testbit_clear_mask by done.
    + by assert ((0 =? n) = false) as -> by (apply Z.eqb_neq; lia).
    + by assert ((0 =? n) = false) as -> by (apply Z.eqb_neq; lia).
  - eexists. eexists. split; [by apply (set_flag_bit self v flags _ _ 1); auto|].
    match goal with |- context [with_modified true ?s] =>
      destruct (is_enabled_flags (with_modified true s) v
                  (if flag_value then Z.lor flags (2 ^ 1) else Z.land flags (Z.lnot (2 ^ 1))))
        as [-> ->]; try done end.
    { cbn [with_modified with_fields fields]. by rewrite lookup_insert_eq. }
    rewrite Hen, !land_mask_assign by done. cbn [Z.eqb Pos.eqb].
    split; [by destruct flag_value|]. split; [done|]. do 3 (split; [done|]).
    intros n Hn Hn1.
    destruct flag_value; rewrite ?testbit_set_mask, ?testbit_clear_mask by done.
    + by assert ((1 =? n) = false) as -> by (apply Z.eqb_neq; lia).
    + by assert ((1 =? n) = false) as -> by (apply Z.eqb_neq; lia).
  - intros flag_name Hn1 Hn2.
    assert ((v =? 1) = false) as Hv1 by (by apply Z.eqb_neq).
    unfold set_flag, eval, get_version, get, mbind, action_bind. rewrite Hv.
    cbn beta iota. rewrite Hvalid, Hv1. cbn [orb negb].
    apply String.eqb_neq in Hn1, Hn2. by rewrite Hn1, Hn2.
Qed.

Lemma set_flag_effect_witness :
  ∃ self', set_flag "enable" false example_app_header = (Ok tt, self') ∧
           is_enabled example_app_header = Ok true ∧
           is_enabled self' = Ok false ∧ is_modified self' = true.
Proof.
  destruct (set_flag_effect example_app_header 2 1 false)
    as [(self' & flags' & Hset & Hen & _ & Hmod & _) _];
    [reflexivity | reflexivity | lia | vm_compute; reflexivity |].
  exists self'. split; [done|]. split; [vm_compute; reflexivity|]. done.
Defined.

(** ** Sizes and the footer *)

(** X9: whenever [get_footer_size()] returns, [has_footer()] returns
    whether that size is positive; and on a header without Program TLV that
    has a [total_size] field the footer size is 0 and [has_footer()] is
    [False]. *)
Theorem has_footer_iff_footer_size (self : TBFHeader) :
  (∀ n, get_footer_size self = Ok n → has_footer self = Ok (0 <? n)) ∧
  (∀ total_size,
     _get_tlv HEADER_TYPE_PROGRAM self = Ok None →
     fields self !! "total_size"%string = Some total_size →
     get_binary_end_offset self = Ok (PInt total_size) ∧
     get_footer_size self = Ok 0 ∧ has_footer self = Ok false).
Proof.
  split.
  - intros n. unfold get_footer_size, has_footer, get_binary_end_offset, getitem.
    destruct (_get_tlv HEADER_TYPE_PROGRAM self) as [[r|]|]; cbn [mbind result_bind]; [| |done].
    + destruct (ref_attr (Some r) "binary_end_offset" self) as [v|];
        cbn [mbind result_bind]; [|done].
      destruct (fields self !! "total_size"%string) as [total|]; cbn [mbind result_bind]; [|done].
      destruct (as_int v) as [fs|]; cbn [mbind result_bind]; [|done].
      intros [= <-]. f_equal. apply eq_true_iff_eq. rewrite !Z.ltb_lt. lia.
    + destruct (fields self !! "total_size"%string) as [total|]; cbn [mbind result_bind as_int];
        [|done].
      intros [= <-]. by rewrite Z.sub_diag.
  - intros total_size Hnone Htotal.
    unfold get_footer_size, has_footer, get_binary_end_offset, getitem.
    rewrite Hnone, Htotal. cbn [mbind result_bind as_int]. by rewrite Z.sub_diag.
Qed.

Lemma has_footer_iff_footer_size_witness :
  has_footer example_app_header = Ok false ∧ get_footer_size example_app_header = Ok 0.
Proof.
  destruct (has_footer_iff_footer_size example_app_header) as [_ Hnone].
  destruct (Hnone 8192) as (_ & Hsize & Hfooter);
    [vm_compute; reflexivity | vm_compute; reflexivity|]. done.
Defined.

(** [get_size_before_app()], case by case. *)
Lemma get_size_before_app_cases (self : TBFHeader) (v : Z) :
  version self = Some v →
  (v = 1 → get_size_before_app self = Ok 74 ∧ get_header_size self = Ok 74) ∧
  (∀ hs r P,
     v ≠ 1 → fields self !! "header_size"%string = Some hs →
     _get_binary_tlv self = Ok (Some r) →
     ref_attr (Some r) "protected_size" self = Ok (PInt P) →
     get_size_before_app self = Ok (hs + P) ∧ get_header_size self = Ok hs) ∧
  (∀ hs,
     v ≠ 1 → fields self !! "header_size"%string = Some hs →
     _get_binary_tlv self = Ok None →
     get_size_before_app self = Raise (AttributeError "protected_size") ∧
     get_header_size self = Ok hs).
Proof.
  intros Hv. unfold get_size_before_app, get_header_size, get_version, getitem. rewrite Hv.
  cbn [mbind result_bind]. split; [|split].
  - by intros ->.
  - intros hs r P Hne Hhs Hbin Hprot.
    assert ((v =? 1) = false) as -> by (by apply Z.eqb_neq).
    rewrite Hhs. cbn [mbind result_bind]. rewrite Hbin. cbn [mbind result_bind].
    by rewrite Hprot.
  - intros hs Hne Hhs Hbin.
    assert ((v =? 1) = false) as -> by (by apply Z.eqb_neq).
    rewrite Hhs. cbn [mbind result_bind]. by rewrite Hbin.
Qed.

(** ** Well-formed headers: what the parser returns *)

Lemma hdr_fields_lookup (b : bytes) :
  hdr_fields b !! "header_size"%string = Some (hdr_header_size b) ∧
  hdr_fields b !! "total_size"%string = Some (hdr_total_size b) ∧
  hdr_fields b !! "flags"%string = Some (hdr_flags b) ∧
  hdr_fields b !! "checksum"%string = Some (hdr_checksum b).
Proof. done. Qed.

(** The header of a well-formed buffer, and its bytes. *)
Lemma well_formed_v2_parsed (b : bytes) :
  well_formed_v2 b = true →
  ∃ h, TBFHeader_init b = Ok h ∧
       valid h = true ∧ version h = Some 2 ∧ fields h = hdr_fields b ∧
       app h = (len b >? 16) ∧
       hdr_header_size b = len b ∧
       get_binary h = Ok (b ++ zeros (protected_padding h)).
Proof.
  unfold well_formed_v2. intros Hwf.
  apply andb_prop in Hwf as [Hwf Hstream]. apply andb_prop in Hwf as [Hwf Hsum].
  apply andb_prop in Hwf as [Hwf Hsize]. apply andb_prop in Hwf as [Hlen Hver].
  apply Z.leb_le in Hlen. apply Z.eqb_eq in Hver, Hsize, Hsum.
  destruct (wf_stream_round_trip _ (skipn 16 b) [] Hstream) as (ts & Hparse & Hpacks & Hmod).
  assert (∃ h, TBFHeader_init b = Ok h ∧ valid h = true ∧ version h = Some 2 ∧
               fields h = hdr_fields b ∧ app h = (len b >? 16) ∧
               ∀ buf, (if app h then pack_tlvs buf (tlvs h) else Ok buf)
                      = Ok (buf ++ skipn 16 b))
    as (h & Hinit & Hvalid & Hversion & Hfields & Happ & Htlvs).
  { rewrite TBFHeader_init_v2 by done.
    assert (((len b >=? hdr_header_size b) && (hdr_header_size b >=? 16)) = true) as ->
      by (apply andb_true_intro; split; bool_lia).
    rewrite Hsize. destruct (len b - 16 >? 0) eqn:Hgt.
    - replace (len b - 16) with (len (skipn 16 b))
        by (rewrite len_skipn; rewrite Z.gtb_ltb in Hgt; apply Z.ltb_lt in Hgt; lia).
      rewrite Hparse. cbn [mbind result_bind app].
      eexists. split; [done|]. do 3 (split; [done|]). split; [|done]. cbn [app].
      symmetry. rewrite Z.gtb_ltb in Hgt |- *. apply Z.ltb_lt in Hgt. apply Z.ltb_lt. lia.
    - eexists. split; [done|]. split; [cbn [valid]; by apply Z.eqb_eq|].
      do 2 (split; [done|]). rewrite Z.gtb_ltb in Hgt. apply Z.ltb_ge in Hgt. split.
      + cbn [app]. symmetry. rewrite Z.gtb_ltb. apply Z.ltb_ge. lia.
      + intros buf. cbn [app].
        assert (skipn 16 b = []) as ->; [|by rewrite app_nil_r].
        apply length_zero_iff_nil. rewrite length_skipn. unfold len in *. lia. }
  exists h. do 5 (split; [done|]). split; [done|].
  pose proof (forallb_tlv_okb _ (TBFHeader_init_tlvs_ok b h Hinit)) as Hok.
  destruct (hdr_fields_lookup b) as (Hhs & Hts & Hfl & _). rewrite <- Hfields in Hhs, Hts, Hfl.
  pose proof (le_combine_slice_range 2 4 b) as Hr1.
  pose proof (le_combine_slice_range 4 8 b) as Hr2.
  pose proof (le_combine_slice_range 8 12 b) as Hr3.
  destruct (get_binary_v2_value h _ _ _ (skipn 16 b) Hversion Hhs Hts Hfl Hr1 Hr2 Hr3 Htlvs Hok)
    as (k & Hk & Hmodk & ->).
  assert (k = 0) as -> by (Z.div_mod_to_equations; lia).
  rewrite zeros_0. cbn [app]. f_equal.
  assert (le_split 2 2 ++ le_split 2 (hdr_header_size b) ++ le_split 4 (hdr_total_size b)
            ++ le_split 4 (hdr_flags b) = firstn 12 b) as ->
    by (by rewrite base_fields_bytes, Hver).
  assert (_checksum (firstn 12 b ++ zeros 4 ++ skipn 16 b) = hdr_checksum b) as ->.
  { rewrite <- Hsum. unfold hdr_computed_checksum. rewrite Hsize.
    unfold len. by rewrite Nat2Z.id, firstn_all. }
  unfold hdr_checksum. rewrite (le_split_slice 4 12 16 b) by (done || lia).
  assert (firstn 12 b ++ slice 12 16 b ++ skipn 16 b = b) as Hb.
  { rewrite app_assoc, <- (firstn_slice 12 16) by lia. apply firstn_skipn. }
  rewrite <- Hb at 4. by rewrite <- !app_assoc.
Qed.

(** The TLVs the parser builds for the ids of Main and Program hold their
    fields as 32-bit integers. *)
Lemma init_fixed_protected_size c fmt names (b : bytes) n :
  length b = n →
  (c = TBFTLVMain ∧ n = 12%nat ∧ fmt = [I; I; I] ∧ names = main_attrs) ∨
  (c = TBFTLVProgram ∧ n = 20%nat ∧ fmt = [I; I; I; I; I] ∧ names = program_attrs) →
  getattr (init_fixed c n fmt names b) "protected_size" = Some (PInt (le_combine (slice 4 8 b))).
Proof.
  intros Hlen Hc. unfold init_fixed. rewrite Hlen, Nat.eqb_refl.
  assert (le_combine (firstn I (skipn I b)) = le_combine (slice 4 8 b)) as <- by done.
  by destruct Hc as [(-> & -> & -> & ->) | (-> & -> & -> & ->)].
Qed.

Lemma parsed_tlv_protected_size t :
  parsed_tlv t →
  tlv_matches HEADER_TYPE_MAIN t = true ∨ tlv_matches HEADER_TYPE_PROGRAM t = true →
  ∃ P, getattr t "protected_size" = Some (PInt P) ∧ 0 <= P < 2 ^ 32.
Proof.
  intros Hparsed Hmatch.
  destruct Hparsed as [b Hb|b Hb|b|b t Ht|b Hb|b Hb|b Hb|tipe b Hk Hr].
  - exists (le_combine (slice 4 8 b)). split; [|apply (le_combine_slice_range 4 8)].
    apply init_fixed_protected_size; auto.
  - exists (le_combine (slice 4 8 b)). split; [|apply (le_combine_slice_range 4 8)].
    apply init_fixed_protected_size; auto 10.
  - unfold TBFTLVWriteableFlashRegions_init in Hmatch.
    destruct (_ =? _); by destruct Hmatch.
  - apply TBFTLVPackageName_init_Ok in Ht as (name & _ & ->). by destruct Hmatch.
  - unfold TBFTLVPicOption1_init, init_fixed in Hmatch. rewrite Hb in Hmatch.
    by destruct Hmatch.
  - unfold TBFTLVFixedAddress_init, init_fixed in Hmatch. rewrite Hb in Hmatch.
    by destruct Hmatch.
  - unfold TBFTLVKernelVersion_init, init_fixed in Hmatch. rewrite Hb in Hmatch.
    by destruct Hmatch.
  - unfold tlv_matches in Hmatch.
    assert (get_tlvid (TBFTLVUnknown_init tipe b) = Ok (PInt tipe)) as Hid by done.
    rewrite Hid in Hmatch. cbn [py_eq_int] in Hmatch. unfold known_type in Hk.
    repeat (apply orb_false_elim in Hk as [Hk ?]).
    destruct Hmatch as [Hm | Hm]; congruence.
Qed.

(** On a header the parser returns, the padding of the protected region is
    the [protected_size] of the binary TLV. *)
Lemma parsed_binary_tlv (b : bytes) h :
  TBFHeader_init b = Ok h →
  (_get_binary_tlv h = Ok None ∧ protected_padding h = 0) ∨
  ∃ r P, _get_binary_tlv h = Ok (Some r) ∧
         ref_attr (Some r) "protected_size" h = Ok (PInt P) ∧
         0 <= P < 2 ^ 32 ∧ protected_padding h = P.
Proof.
  intros Hinit.
  pose proof (forallb_tlv_okb _ (TBFHeader_init_tlvs_ok b h Hinit)) as Hok.
  destruct (TBFHeader_init_outcome b) as [Hraise | (h' & Hinit' & Hparsed)]; [congruence|].
  assert (h' = h) as -> by congruence.
  assert (∀ tid r, tid = HEADER_TYPE_MAIN ∨ tid = HEADER_TYPE_PROGRAM →
            _get_tlv tid h = Ok (Some r) →
            ∃ P, ref_attr (Some r) "protected_size" h = Ok (PInt P) ∧ 0 <= P < 2 ^ 32) as Hattr.
  { intros tid r Htid Hget.
    destruct (binary_ref_ok tid h Hok Htid) as (tlv & P & I0 & Hget' & Href).
    rewrite Hget in Hget'. injection Hget' as <-.
    destruct (Href r eq_refl) as (HP & _ & t & Ht & Hmatch).
    exists P. split; [done|].
    assert (parsed_tlv t) as Hpt.
    { rewrite List.Forall_forall in Hparsed. apply Hparsed.
      apply list_elem_of_In. by eapply list_elem_of_lookup_2. }
    destruct (parsed_tlv_protected_size t Hpt) as (P' & HP' & Hrange).
    { by destruct Htid as [-> | ->]; auto. }
    unfold ref_attr, attr in HP. cbn [mbind option_bind] in HP. rewrite Ht, HP' in HP.
    by injection HP as <-. }
  unfold protected_padding, binary_tlv_attr, _get_binary_tlv.
  destruct (binary_ref_ok HEADER_TYPE_PROGRAM h Hok (or_intror eq_refl))
    as (tlv_program & Pp & Ip & Hget_program & _).
  destruct (binary_ref_ok HEADER_TYPE_MAIN h Hok (or_introl eq_refl))
    as (tlv_main & Pm & Im & Hget_main & _).
  rewrite Hget_program. cbn [mbind result_bind].
  destruct tlv_program as [r|].
  - right. destruct (Hattr _ r (or_intror eq_refl) Hget_program) as (P & HP & Hrange).
    exists r, P. split; [done|]. split; [done|]. split; [done|].
    cbn [mbind result_bind]. rewrite HP. cbn [mbind result_bind as_int].
    destruct (P >? 0) eqn:Hpos; [done|]. rewrite Z.gtb_ltb in Hpos. apply Z.ltb_ge in Hpos. lia.
  - rewrite Hget_main. destruct tlv_main as [r|].
    + right. destruct (Hattr _ r (or_introl eq_refl) Hget_main) as (P & HP & Hrange).
      exists r, P. split; [done|]. split; [done|]. split; [done|].
      cbn [mbind result_bind]. rewrite HP. cbn [mbind result_bind as_int].
      destruct (P >? 0) eqn:Hpos; [done|]. rewrite Z.gtb_ltb in Hpos. apply Z.ltb_ge in Hpos. lia.
    + by left.
Qed.

(** X10: the header of a well-formed version 2 buffer [b].
    [get_header_size()] is the length of [b]; when the header has a Main or a
    Program TLV, [get_size_before_app()] returns, and what it returns is the
    length of the bytes [get_binary()] gives: the header and the protected
    region. *)
Theorem get_size_before_app_is_binary_length (b : bytes) :
  well_formed_v2 b = true →
  ∃ h out,
    TBFHeader_init b = Ok h ∧ get_binary h = Ok out ∧
    get_header_size h = Ok (len b) ∧
    (∀ n, get_size_before_app h = Ok n → len out = n) ∧
    (∀ r, _get_binary_tlv h = Ok (Some r) → get_size_before_app h = Ok (len out)).
Proof.
  intros Hwf.
  destruct (well_formed_v2_parsed b Hwf)
    as (h & Hinit & _ & Hversion & Hfields & _ & Hsize & Hbinary).
  exists h, (b ++ zeros (protected_padding h)). split; [done|]. split; [done|].
  destruct (hdr_fields_lookup b) as (Hhs & _). rewrite <- Hfields, Hsize in Hhs.
  destruct (get_size_before_app_cases h 2 Hversion) as (_ & Hsome & Hnone).
  destruct (parsed_binary_tlv b h Hinit) as [[Hbin Hpad] | (r & P & Hbin & HP & Hrange & Hpad)].
  - destruct (Hnone (len b) ltac:(lia) Hhs Hbin) as [Hraise Hheader].
    split; [done|]. split; [by rewrite Hraise|]. by rewrite Hbin.
  - destruct (Hsome (len b) r P ltac:(lia) Hhs Hbin HP) as [Hvalue Hheader].
    split; [done|].
    assert (len (b ++ zeros (protected_padding h)) = len b + P) as Hlen
      by (rewrite len_app, Hpad, len_zeros by lia; done).
    split.
    + intros n. rewrite Hvalue. intros Heq. injection Heq as Heq. lia.
    + intros r' _. by rewrite Hlen.
Qed.

Lemma get_size_before_app_is_binary_length_witness :
  ∃ h out, TBFHeader_init example_protected_app = Ok h ∧ get_binary h = Ok out ∧
           get_header_size h = Ok (len example_protected_app).
Proof.
  destruct (get_size_before_app_is_binary_length example_protected_app)
    as (h & out & Hinit & Hout & Hsize & _); [vm_compute; reflexivity|].
  by exists h, out.
Defined.

(** X11: [get_size_before_app()] on a padding header.  On a version 2
    header that is not an application, as the parser returns it from a buffer
    of at least 16 bytes and as [TBFHeaderPadding] builds it,
    [get_size_before_app()] raises [AttributeError]: there is no Main or
    Program TLV, and [protected_size] is read from [None].
    [get_header_size()] returns on the same headers. *)
Theorem get_size_before_app_padding :
  (∀ (b : bytes) h,
     TBFHeader_init b = Ok h → version h = Some 2 → is_app h = false → 16 <= len b →
     get_size_before_app h = Raise (AttributeError "protected_size") ∧
     get_header_size h = Ok (hdr_header_size b)) ∧
  (∀ size h,
     TBFHeaderPadding_init size = Ok h →
     get_size_before_app h = Raise (AttributeError "protected_size") ∧
     get_header_size h = Ok 16).
Proof.
  split.
  - intros b h Hinit Hv Happ Hlen.
    assert (tlvs h = [] ∧ fields h = hdr_fields b) as [Htlvs Hfields].
    { rewrite TBFHeader_init_cases in Hinit.
      destruct (len b <? 2) eqn:Hshort; [apply Z.ltb_lt in Hshort; lia|].
      destruct ((hdr_version b =? 1) && (len b >=? 76)); [by injection Hinit as <-|].
      destruct ((hdr_version b =? 2) && (len b >=? 16)) eqn:Hv2.
      - destruct ((len b >=? hdr_header_size b) && (hdr_header_size b >=? 16));
          [|by injection Hinit as <-].
        destruct (hdr_header_size b - 16 >? 0); [|by injection Hinit as <-].
        destruct (parse_tlvs _); [|done]. by injection Hinit as <-.
      - injection Hinit as <-. cbn [version] in Hv. injection Hv as Hv.
        rewrite Hv in Hv2. apply andb_false_iff in Hv2 as [Hv2 | Hv2]; [done|].
        rewrite Z.geb_leb in Hv2. apply Z.leb_gt in Hv2. lia. }
    destruct (get_size_before_app_cases h 2 Hv) as (_ & _ & Hnone).
    apply (Hnone (hdr_header_size b)); [lia | by rewrite Hfields |].
    unfold _get_binary_tlv, _get_tlv. by rewrite Htlvs.
  - intros size h. unfold TBFHeaderPadding_init.
    destruct (get_binary _) as [buf|]; [|done]. cbn [mbind result_bind]. intros [= <-].
    match goal with |- context [get_size_before_app ?h] =>
      destruct (get_size_before_app_cases h 2 eq_refl) as (_ & _ & Hnone) end.
    apply (Hnone 16); [lia | | done].
    cbn [with_fields fields]. by rewrite !lookup_insert_ne.
Qed.

Lemma get_size_before_app_padding_witness :
  get_size_before_app example_bad_padding_header = Raise (AttributeError "protected_size").
Proof.
  destruct get_size_before_app_padding as [Hparsed _].
  apply (Hparsed example_bad_padding); [vm_compute; reflexivity | reflexivity | reflexivity|].
  vm_compute. discriminate.
Defined.

(** ** Bytes after the header *)

Lemma slice_app_l i j (s rest : bytes) :
  (j <= length s)%nat → slice i j (s ++ rest) = slice i j s.
Proof.
  intros Hj. unfold slice. rewrite skipn_app, firstn_app, length_skipn.
  replace (j - i - (length s - i))%nat with 0%nat by lia.
  cbn [firstn]. by rewrite app_nil_r.
Qed.

(** One TLV of the stream: bytes behind the declared length of the TLV are
    not read. *)
Lemma parse_dispatch_app_rest tipe length (buf rest : bytes) remaining tlvs :
  0 <= length <= len buf →
  parse_dispatch tipe length (buf ++ rest) remaining tlvs =
    parse_dispatch tipe length buf remaining tlvs.
Proof.
  intros Hlength.
  assert (∀ n : nat, Z.of_nat n <= len buf → slice 0 n (buf ++ rest) = slice 0 n buf) as Hslice.
  { intros n Hn. apply slice_app_l. unfold len in Hn. lia. }
  unfold parse_dispatch.
  repeat match goal with
  | |- context [if ?c then _ else _] => destruct c eqn:?
  end; try done.
  all: repeat match goal with
  | Hc : (_ && _) = true |- _ => apply andb_prop in Hc as [_ Hc]; apply Z.eqb_eq in Hc
  end.
  all: rewrite Hslice by lia; done.
Qed.

Lemma wf_stream_parse_rest fuel : ∀ (s rest : bytes) tlvs,
  wf_stream fuel s = true →
  parse_tlvs (mkParse (s ++ rest) (len s) tlvs) = parse_tlvs (mkParse s (len s) tlvs).
Proof.
  induction fuel as [|fuel IH]; intros s rest tlvs Hwf.
  - destruct s; [|done]. by rewrite !parse_tlvs_loop.
  - destruct s as [|x s']; [by rewrite !parse_tlvs_loop|]. cbn [wf_stream] in Hwf.
    set (s := x :: s') in *. clearbody s.
    destruct (wf_record s) as [n|] eqn:Hrec; [|done].
    destruct (wf_record_shape s n Hrec) as (Hn & Hfit & Hlen & _ & _).
    pose proof (le_combine_slice_range 2 4 s) as Hlength.
    pose proof (roundup_4_bounds _ (proj1 Hlength)) as [Hround _].
    assert (len (slice 4 (4 + Z.to_nat (le_combine (slice 2 4 s))) s)
            <= len (skipn 4 s)) as Hpayload by list_len.
    rewrite Hlen in Hpayload.
    rewrite (parse_tlvs_loop (mkParse (s ++ rest) _ _)), (parse_tlvs_loop (mkParse s _ _)).
    cbn [ps_remaining].
    assert ((len s >=? 4) = true) as -> by bool_lia.
    rewrite !parse_tlv_step by (cbn [ps_buffer]; rewrite ?len_app; pose proof (len_nonneg rest); lia).
    cbn [ps_buffer ps_remaining ps_tlvs]. cbn zeta.
    rewrite !(slice_app_l _ _ s rest) by (unfold len in *; lia).
    rewrite skipn_app. replace (4 - length s)%nat with 0%nat by (unfold len in *; lia).
    cbn [skipn]. rewrite parse_dispatch_app_rest by lia.
    destruct (parse_dispatch _ _ _ _ _) as [tlvs'|]; [|done]. cbn [mbind result_bind].
    rewrite skipn_app, !skipn_skipn, length_skipn.
    replace (Z.to_nat (roundup (le_combine (slice 2 4 s)) 4) + 4)%nat with n by lia.
    replace (Z.to_nat (roundup (le_combine (slice 2 4 s)) 4) - (length s - 4))%nat
      with 0%nat by (unfold len in *; lia).
    cbn [skipn].
    replace (len s - 4 - roundup (le_combine (slice 2 4 s)) 4) with (len (skipn n s))
      by (rewrite len_skipn; lia).
    by apply IH.
Qed.

(** The parser does not read behind a well-formed header. *)
Lemma TBFHeader_init_app_rest (b rest : bytes) :
  well_formed_v2 b = true → TBFHeader_init (b ++ rest) = TBFHeader_init b.
Proof.
  unfold well_formed_v2. intros Hwf.
  apply andb_prop in Hwf as [Hwf Hstream]. apply andb_prop in Hwf as [Hwf Hsum].
  apply andb_prop in Hwf as [Hwf Hsize]. apply andb_prop in Hwf as [Hlen Hver].
  apply Z.leb_le in Hlen. apply Z.eqb_eq in Hver, Hsize, Hsum.
  assert (16 <= length b)%nat as Hlen' by (unfold len in Hlen; lia).
  assert (hdr_version (b ++ rest) = hdr_version b) as Hf1
    by (unfold hdr_version; rewrite slice_app_l by lia; done).
  assert (hdr_header_size (b ++ rest) = hdr_header_size b) as Hf2
    by (unfold hdr_header_size; rewrite slice_app_l by lia; done).
  assert (hdr_fields (b ++ rest) = hdr_fields b) as Hf3.
  { unfold hdr_fields, hdr_checksum, hdr_flags, hdr_total_size. rewrite Hf2.
    by rewrite !slice_app_l by lia. }
  pose proof (len_nonneg rest) as Hrest.
  rewrite !TBFHeader_init_v2 by (rewrite ?len_app, ?Hf1; (done || lia)).
  rewrite Hf2, Hf3, Hsize.
  assert (((len (b ++ rest) >=? len b) && (len b >=? 16)) = true) as ->
    by (apply andb_true_intro; rewrite len_app; split; bool_lia).
  assert (((len b >=? len b) && (len b >=? 16)) = true) as ->
    by (apply andb_true_intro; split; bool_lia).
  destruct (len b - 16 >? 0) eqn:Hgt.
  - rewrite skipn_app. replace (16 - length b)%nat with 0%nat by lia. cbn [skipn].
    replace (len b - 16) with (len (skipn 16 b)) by (rewrite len_skipn; lia).
    by rewrite (wf_stream_parse_rest _ _ _ _ Hstream).
  - assert (hdr_checksum (b ++ rest) = hdr_checksum b) as ->
      by (unfold hdr_checksum; rewrite slice_app_l by lia; done).
    assert (hdr_computed_checksum (b ++ rest) = hdr_computed_checksum b) as ->; [|done].
    unfold hdr_computed_checksum. rewrite Hf2, Hsize.
    unfold len. rewrite Nat2Z.id, firstn_app, Nat.sub_diag. cbn [firstn].
    by rewrite app_nil_r.
Qed.

(** X12: the parser does not read behind a well-formed version 2 header:
    the header parsed from the buffer followed by any bytes (the application
    binary of a TBF file) is the header parsed from the buffer alone. *)
Theorem parser_ignores_trailing_bytes (b rest : bytes) :
  well_formed_v2 b = true → TBFHeader_init (b ++ rest) = TBFHeader_init b.
Proof. apply TBFHeader_init_app_rest. Qed.

Lemma parser_ignores_trailing_bytes_witness :
  TBFHeader_init (example_protected_app ++ zeros 8) = TBFHeader_init example_protected_app.
Proof.
  apply (parser_ignores_trailing_bytes example_protected_app (zeros 8)).
  vm_compute. reflexivity.
Defined.

(** X13: the bytes [get_binary()] returns for the header of a well-formed
    version 2 buffer parse back to the same header object, also when they end
    with the zero bytes of a protected region. *)
Theorem get_binary_parses_back (b : bytes) :
  well_formed_v2 b = true →
  ∃ h out,
    TBFHeader_init b = Ok h ∧ get_binary h = Ok out ∧ TBFHeader_init out = Ok h.
Proof.
  intros Hwf.
  destruct (well_formed_v2_parsed b Hwf) as (h & Hinit & _ & _ & _ & _ & _ & Hbinary).
  exists h, (b ++ zeros (protected_padding h)). split; [done|]. split; [done|].
  by rewrite TBFHeader_init_app_rest.
Qed.

Lemma get_binary_parses_back_witness :
  ∃ h out, TBFHeader_init example_protected_app = Ok h ∧ get_binary h = Ok out ∧
           TBFHeader_init out = Ok h.
Proof.
  destruct (get_binary_parses_back example_protected_app)
    as (h & out & Hinit & Hout & Hback); [vm_compute; reflexivity|].
  by exists h, out.
Defined.

(** ** Where the application binary starts *)

Lemma get_tlvid_bump P' I' t : get_tlvid (bump P' I' t) = get_tlvid t.
Proof. unfold bump. by rewrite !get_tlvid_setattr. Qed.

Lemma _get_tlv_bump P' I' r tid self :
  _get_tlv tid (with_tlvs (alter (bump P' I') r (tlvs self)) self) = _get_tlv tid self.
Proof.
  unfold _get_tlv. cbn [with_tlvs tlvs]. apply _get_tlv_from_alter, get_tlvid_bump.
Qed.

Lemma ref_attr_bump P' I' r r' name self :
  is_Some (tlvs self !! r) →
  ref_attr (Some r') name (with_tlvs (alter (bump P' I') r (tlvs self)) self) =
    if bool_decide (r' = r) && String.eqb name "protected_size" then Ok (PInt P')
    else if bool_decide (r' = r) && String.eqb name "init_fn_offset" then Ok (PInt I')
    else ref_attr (Some r') name self.
Proof.
  intros [t Ht]. unfold ref_attr. cbn [with_tlvs tlvs mbind option_bind].
  destruct (bool_decide (r' = r)) eqn:Hr.
  - apply bool_decide_eq_true in Hr as ->. rewrite list_lookup_alter_eq, Ht.
    cbn [fmap option_fmap option_map andb]. unfold attr, bump.
    destruct (String.eqb name "protected_size") eqn:Hps.
    + apply String.eqb_eq in Hps as ->. by rewrite getattr_setattr_ne, getattr_setattr.
    + apply String.eqb_neq in Hps. destruct (String.eqb name "init_fn_offset") eqn:Hio.
      * apply String.eqb_eq in Hio as ->. by rewrite getattr_setattr.
      * apply String.eqb_neq in Hio. by rewrite !getattr_setattr_ne.
  - apply bool_decide_eq_false in Hr. by rewrite list_lookup_alter_ne.
Qed.

(** The state [adjust_starting_address] leaves when it grows the protected
    region. *)
Lemma adjust_starting_address_grow self address H P I0 F tlv_fixed_addr tlv_program :
  _get_tlv HEADER_TYPE_FIXED_ADDRESSES self = Ok (Some tlv_fixed_addr) →
  _get_binary_tlv self = Ok (Some tlv_program) →
  getitem (fields self) "header_size" = Ok H →
  ref_attr (Some tlv_program) "protected_size" self = Ok (PInt P) →
  ref_attr (Some tlv_program) "init_fn_offset" self = Ok (PInt I0) →
  ref_attr (Some tlv_fixed_addr) "fixed_address_flash" self = Ok (PInt F) →
  address + H + P < F →
  adjust_starting_address address self =
    (Ok tt,
     with_tlvs (alter (bump (P + (F - (address + H + P))) (I0 + (F - (address + H + P))))
                  tlv_program (tlvs self)) self).
Proof.
  intros Hfixed Hbinary Hsize Hprot Hinit Hflash Hcmp.
  unfold adjust_starting_address, eval, mbind, action_bind.
  rewrite Hfixed, Hbinary, Hsize, Hprot, Hflash. cbn [as_int].
  assert ((address + H + P =? F) = false) as -> by bool_lia.
  assert ((address + H + P <? F) = true) as -> by bool_lia.
  cbn [negb ref_iadd_if]. rewrite (ref_iadd_int _ _ _ _ P) by done.
  destruct (ref_attr_Some _ _ _ _ Hinit) as (t & Ht & Hattr).
  rewrite (ref_iadd_int _ _ _ _ I0).
  - cbn [with_tlvs tlvs valid app modified fields version].
    rewrite list_alter_alter_eq. by destruct self.
  - unfold ref_attr. cbn [with_tlvs tlvs mbind option_bind].
    rewrite list_lookup_alter_eq, Ht. cbn [fmap option_fmap option_map].
    unfold attr. by rewrite getattr_setattr_ne, Hattr.
Qed.

(** X14: after [adjust_starting_address(address)] has returned, the
    application binary starts at the fixed flash address: on a header of a
    version other than 1 with a FixedAddress TLV (flash address [F]) and a
    Main or Program TLV, when [address + header_size + protected_size <= F],
    the call returns, [address + get_size_before_app()] is then [F], and a
    second call with the same address changes nothing. *)
Theorem adjust_starting_address_aligns (self : TBFHeader) (address v H P I0 F : Z)
    (tlv_fixed_addr tlv_program : nat) :
  version self = Some v → v ≠ 1 →
  _get_tlv HEADER_TYPE_FIXED_ADDRESSES self = Ok (Some tlv_fixed_addr) →
  _get_binary_tlv self = Ok (Some tlv_program) →
  getitem (fields self) "header_size" = Ok H →
  ref_attr (Some tlv_program) "protected_size" self = Ok (PInt P) →
  ref_attr (Some tlv_program) "init_fn_offset" self = Ok (PInt I0) →
  ref_attr (Some tlv_fixed_addr) "fixed_address_flash" self = Ok (PInt F) →
  address + H + P <= F →
  ∃ self', adjust_starting_address address self = (Ok tt, self') ∧
           get_size_before_app self' = Ok (F - address) ∧
           adjust_starting_address address self' = (Ok tt, self').
Proof.
  intros Hv Hne Hfixed Hbinary Hsize Hprot Hinit Hflash Hcmp.
  assert (fields self !! "header_size"%string = Some H) as Hhs.
  { unfold getitem in Hsize. by destruct (fields self !! "header_size"%string) as [hs|];
      [injection Hsize as <-|]. }
  assert (∀ self', version self' = Some v → fields self' = fields self →
            _get_tlv HEADER_TYPE_FIXED_ADDRESSES self' = Ok (Some tlv_fixed_addr) →
            _get_binary_tlv self' = Ok (Some tlv_program) →
            ref_attr (Some tlv_program) "protected_size" self' = Ok (PInt (F - address - H)) →
            ref_attr (Some tlv_fixed_addr) "fixed_address_flash" self' = Ok (PInt F) →
            get_size_before_app self' = Ok (F - address) ∧
            adjust_starting_address address self' = (Ok tt, self')) as Hdone.
  { intros self' Hv' Hfields' Hfixed' Hbinary' Hprot' Hflash'. split.
    - destruct (get_size_before_app_cases self' v Hv') as (_ & Hsome & _).
      destruct (Hsome H tlv_program (F - address - H)) as [-> _]; try done.
      + by rewrite Hfields'.
      + f_equal. lia.
    - unfold adjust_starting_address, eval, mbind, action_bind.
      rewrite Hfixed', Hbinary', Hfields', Hsize, Hprot', Hflash'. cbn [as_int].
      by assert ((address + H + (F - address - H) =? F) = true) as -> by bool_lia. }
  destruct (Z.eq_dec (address + H + P) F) as [Heq | Hlt].
  - exists self. split.
    + unfold adjust_starting_address, eval, mbind, action_bind.
      rewrite Hfixed, Hbinary, Hsize, Hprot, Hflash. cbn [as_int].
      by assert ((address + H + P =? F) = true) as -> by bool_lia.
    + apply Hdone; try done. by replace (F - address - H) with P by lia.
  - eexists. split.
    + by apply (adjust_starting_address_grow self address H P I0 F tlv_fixed_addr tlv_program);
        [..|lia].
    + destruct (ref_attr_Some _ _ _ _ Hprot) as (t & Ht & _).
      apply Hdone.
      * done.
      * done.
      * by rewrite _get_tlv_bump.
      * unfold _get_binary_tlv in Hbinary |- *. by rewrite !_get_tlv_bump.
      * rewrite ref_attr_bump by (by eexists). rewrite bool_decide_eq_true_2 by done.
        cbn. do 2 f_equal. lia.
      * rewrite ref_attr_bump by (by eexists).
        by destruct (bool_decide (tlv_fixed_addr = tlv_program)).
Qed.

Lemma adjust_starting_address_aligns_witness :
  ∃ self', adjust_starting_address 0x30000 example_app_header = (Ok tt, self') ∧
           get_size_before_app self' = Ok (0x30080 - 0x30000) ∧
           adjust_starting_address 0x30000 self' = (Ok tt, self').
Proof.
  apply (adjust_starting_address_aligns example_app_header 0x30000 2 44 0 41 0x30080
           1%nat 0%nat); try (vm_compute; reflexivity); [lia|].
  vm_compute. discriminate.
Defined.

(** The state [delete_tlv] leaves: [header_size] is smaller by the size of
    the deleted TLVs, and the Main and the Program TLV that [_get_tlv] finds
    are the ones it found before, with [protected_size] and [init_fn_offset]
    larger by that size. *)
Lemma delete_tlv_state (self : TBFHeader) (tlvid H s : Z) :
  getitem (fields self) "header_size" = Ok H →
  Forall tlv_ok (tlvs self) →
  sizes_sum (List.filter (tlv_matches tlvid) (tlvs self)) = Ok s →
  ∃ self', delete_tlv tlvid self = (Ok tt, self') ∧
    fields self' = <["header_size"%string := H - s]> (fields self) ∧
    version self' = version self ∧
    ∀ tid,
      tid = HEADER_TYPE_MAIN ∨ tid = HEADER_TYPE_PROGRAM →
      tid ≠ tlvid →
      ∃ tlv tlv', _get_tlv tid self = Ok tlv ∧ _get_tlv tid self' = Ok tlv' ∧
        (tlv = None ↔ tlv' = None) ∧
        ∀ name v,
          name = "protected_size"%string ∨ name = "init_fn_offset"%string →
          ref_attr tlv name self = Ok (PInt v) →
          ref_attr tlv' name self' = Ok (PInt (v + s)).
Proof.
  intros Hsize Hok Hsum.
  unfold delete_tlv, eval, setitem, mbind, action_bind.
  rewrite (delete_scan_spec tlvid (tlvs self) 0 [] 0 s) by done.
  cbn [fst snd]. rewrite delete_pop_spec. cbn [fields tlvs].
  rewrite Hsize. rewrite app_nil_r.
  rewrite pop_all_matches.
  rewrite Z.add_0_l.
  set (remaining := List.filter (λ t, negb (tlv_matches tlvid t)) (tlvs self)).
  set (self1 := with_fields _ _).
  assert (Forall tlv_ok (tlvs self1)) as Hok1 by (by apply tlv_ok_filter).
  destruct (binary_ref_ok HEADER_TYPE_MAIN self1 Hok1 (or_introl eq_refl))
    as (tlv_main & Pm & Im & Hget_main & Hmain).
  destruct (binary_ref_ok HEADER_TYPE_PROGRAM self1 Hok1 (or_intror eq_refl))
    as (tlv_program & Pp & Ip & Hget_program & Hprogram).
  rewrite Hget_main, Hget_program.
  assert (∀ r, tlv_main = Some r → tlv_program = Some r → False) as Hdistinct.
  { intros r Hm Hp.
    destruct (Hmain r Hm) as (_ & _ & t & Ht & Hmt).
    destruct (Hprogram r Hp) as (_ & _ & t' & Ht' & Hpt).
    assert (t' = t) as -> by congruence.
    by pose proof (tlv_matches_unique _ _ _ Hmt Hpt). }
  rewrite (ref_iadd_if_int tlv_main "protected_size" s self1 Pm)
    by (intros r Hr; by apply Hmain).
  set (self2 := with_tlvs (assign_if tlv_main _ _ _) self1).
  rewrite (ref_iadd_if_int tlv_program "protected_size" s self2 Pp).
  2: { intros r Hr. unfold self2. rewrite ref_attr_assign_other; [by apply Hprogram|].
       left. intros ->. by eapply Hdistinct. }
  set (self3 := with_tlvs (assign_if tlv_program _ _ _) self2).
  rewrite (ref_iadd_if_int tlv_main "init_fn_offset" s self3 Im).
  2: { intros r Hr. unfold self3. rewrite ref_attr_assign_other by (by right).
       unfold self2. rewrite ref_attr_assign_other by (by right). by apply Hmain. }
  set (self4 := with_tlvs (assign_if tlv_main _ _ _) self3).
  rewrite (ref_iadd_if_int tlv_program "init_fn_offset" s self4 Ip).
  2: { intros r Hr. unfold self4. rewrite ref_attr_assign_other.
       2: { left. intros ->. by eapply Hdistinct. }
       unfold self3. rewrite ref_attr_assign_other by (by right).
       unfold self2. rewrite ref_attr_assign_other; [by apply Hprogram|].
       left. intros ->. by eapply Hdistinct. }
  set (self5 := with_tlvs (assign_if tlv_program _ _ _) self4).
  exists self5. split; [done|]. split; [done|]. split; [done|].
  intros tid Htid Hne.
  destruct (_get_tlv_from_find tid (tlvs self) 0 Hok) as (tlv & Hget & Hfind & Hsome).
  destruct (_get_tlv_from_find tid (tlvs self1) 0 Hok1) as (tlv1 & Hget1 & Hfind1 & Hsome1).
  assert (find_tlv tid (tlvs self1) = find_tlv tid (tlvs self)) as Hsame
    by (unfold self1; cbn [tlvs with_fields]; unfold remaining; by rewrite find_tlv_filter).
  assert (_get_tlv tid self5 = _get_tlv tid self1) as Hget5.
  { unfold self5. rewrite _get_tlv_assign_if by done.
    unfold self4. rewrite _get_tlv_assign_if by done.
    unfold self3. rewrite _get_tlv_assign_if by done.
    unfold self2. by rewrite _get_tlv_assign_if. }
  exists tlv, tlv1. split; [done|]. split; [by rewrite Hget5|]. split.
  { rewrite Hsame in Hfind1. split; intros ->; cbn [mbind option_bind] in Hfind, Hfind1.
    - destruct tlv1 as [j|]; [|done]. destruct (Hsome1 j eq_refl) as [_ [t Ht]].
      rewrite Hsame in Ht. congruence.
    - destruct tlv as [j|]; [|done]. destruct (Hsome j eq_refl) as [_ [t Ht]].
      congruence. }
  intros name v Hname Hv.
  assert (ref_attr tlv1 name self1 = Ok (PInt v)) as Hv1.
  { assert (∀ (r : option nat) (l : list TBFTLV),
              (r ≫= λ j, l !! (j - 0)%nat) = r ≫= (l !!.)) as Hsub
      by (intros [j|] l; cbn; by rewrite ?Nat.sub_0_r).
    rewrite Hsub in Hfind, Hfind1. unfold ref_attr in Hv |- *.
    by rewrite Hfind1, Hsame, <- Hfind. }
  unfold _get_tlv in Hget_main, Hget_program.
  destruct Htid as [-> | ->].
  - rewrite Hget_main in Hget1. injection Hget1 as <-.
    destruct tlv_main as [r|]; [|done].
    destruct (Hmain r eq_refl) as (HP & HI & t & Ht & _).
    assert (tlv_program ≠ Some r) as Hother by (intros ->; by eapply Hdistinct).
    destruct Hname as [-> | ->].
    + assert (v = Pm) as -> by congruence.
      unfold self5. rewrite ref_attr_assign_other by (by right).
      unfold self4. rewrite ref_attr_assign_other by (by right).
      unfold self3. rewrite ref_attr_assign_other by (by left).
      unfold self2. rewrite ref_attr_assign_same; [done|by eexists].
    + assert (v = Im) as -> by congruence.
      unfold self5. rewrite ref_attr_assign_other by (by left).
      unfold self4. rewrite ref_attr_assign_same; [done|].
      unfold self3, self2. cbn [with_tlvs tlvs].
      do 2 apply lookup_assign_if_is_Some. by eexists.
  - rewrite Hget_program in Hget1. injection Hget1 as <-.
    destruct tlv_program as [r|]; [|done].
    destruct (Hprogram r eq_refl) as (HP & HI & t & Ht & _).
    assert (tlv_main ≠ Some r) as Hother by (intros ->; by eapply Hdistinct).
    destruct Hname as [-> | ->].
    + assert (v = Pp) as -> by congruence.
      unfold self5. rewrite ref_attr_assign_other by (by right).
      unfold self4. rewrite ref_attr_assign_other by (by left).
      unfold self3. rewrite ref_attr_assign_same; [done|].
      unfold self2. cbn [with_tlvs tlvs].
      apply lookup_assign_if_is_Some. by eexists.
    + assert (v = Ip) as -> by congruence.
      unfold self5. rewrite ref_attr_assign_same; [done|].
      unfold self4, self3, self2. cbn [with_tlvs tlvs].
      do 3 apply lookup_assign_if_is_Some. by eexists.
Qed.

(** X15: [delete_tlv] does not move the application binary.  On a header
    of a version other than 1 whose TLVs are as the parser builds them,
    deleting the TLVs of an id other than those of Main and Program leaves
    [get_size_before_app()] as it was, while [get_header_size()] drops by the
    serialized size of the deleted TLVs. *)
Theorem delete_tlv_keeps_app_offset (self : TBFHeader) (tlvid v H s n : Z) :
  version self = Some v → v ≠ 1 →
  getitem (fields self) "header_size" = Ok H →
  forallb tlv_okb (tlvs self) = true →
  sizes_sum (List.filter (tlv_matches tlvid) (tlvs self)) = Ok s →
  tlvid ≠ HEADER_TYPE_MAIN → tlvid ≠ HEADER_TYPE_PROGRAM →
  get_size_before_app self = Ok n →
  ∃ self', delete_tlv tlvid self = (Ok tt, self') ∧
           get_size_before_app self' = Ok n ∧
           get_header_size self' = Ok (H - s).
Proof.
  intros Hv Hne Hsize Hok%forallb_tlv_okb Hsum Hnm Hnp Hbefore.
  destruct (delete_tlv_state self tlvid H s Hsize Hok Hsum)
    as (self' & Hdelete & Hfields & Hversion & Htlvs).
  exists self'. split; [done|].
  destruct (Htlvs HEADER_TYPE_PROGRAM (or_intror eq_refl) ltac:(done))
    as (tlvp & tlvp' & Hgetp & Hgetp' & Hnonep & Hattrp).
  destruct (Htlvs HEADER_TYPE_MAIN (or_introl eq_refl) ltac:(done))
    as (tlvm & tlvm' & Hgetm & Hgetm' & Hnonem & Hattrm).
  assert (fields self' !! "header_size"%string = Some (H - s)) as Hhs'
    by (by rewrite Hfields, lookup_insert_eq).
  assert ((v =? 1) = false) as Hv1 by (by apply Z.eqb_neq).
  unfold get_size_before_app, get_header_size, get_version, getitem, _get_binary_tlv
    in Hbefore |- *.
  rewrite Hv, Hgetp in Hbefore. rewrite Hversion, Hv, Hgetp', Hhs'.
  cbn [mbind result_bind] in Hbefore |- *. rewrite Hv1 in Hbefore |- *.
  split; [|done].
  unfold getitem in Hsize. destruct (fields self !! "header_size"%string) as [hs|]; [|done].
  injection Hsize as ->. cbn [mbind result_bind] in Hbefore |- *.
  assert (∀ tlv tlv',
            (∀ name v, name = "protected_size"%string ∨ name = "init_fn_offset"%string →
               ref_attr tlv name self = Ok (PInt v) →
               ref_attr tlv' name self' = Ok (PInt (v + s))) →
            (∃ r t, tlv = Some r ∧ tlvs self !! r = Some t ∧
                    (tlv_matches HEADER_TYPE_MAIN t = true ∨
                     tlv_matches HEADER_TYPE_PROGRAM t = true)) →
            (ref_attr tlv "protected_size" self ≫= λ p, as_int p ≫= λ p, Ok (H + p)) = Ok n →
            (ref_attr tlv' "protected_size" self' ≫= λ p, as_int p ≫= λ p, Ok (H - s + p))
              = Ok n) as Hstep.
  { intros tlv tlv' Hattr (r & t & -> & Ht & Hmatch) Hn.
    rewrite List.Forall_forall in Hok.
    destruct (Hok t) as [_ Hint]; [apply list_elem_of_In; by eapply list_elem_of_lookup_2|].
    destruct (Hint Hmatch) as (P & I0 & HP & _).
    assert (ref_attr (Some r) "protected_size" self = Ok (PInt P)) as Href
      by (unfold ref_attr, attr; cbn; by rewrite Ht, HP).
    rewrite Href in Hn. cbn [mbind result_bind as_int] in Hn. injection Hn as <-.
    rewrite (Hattr _ P (or_introl eq_refl) Href). cbn [mbind result_bind as_int].
    f_equal. lia. }
  assert (∀ tid tlv, _get_tlv tid self = Ok tlv → ∀ r, tlv = Some r →
            ∃ t, tlvs self !! r = Some t ∧ tlv_matches tid t = true) as Hfound.
  { intros tid tlv Hget r ->. unfold _get_tlv in Hget.
    destruct (_get_tlv_from_find tid (tlvs self) 0 Hok) as (tlv & Hget' & Hfind & Hsome).
    rewrite Hget in Hget'. injection Hget' as <-.
    cbn in Hfind. rewrite Nat.sub_0_r in Hfind.
    destruct (Hsome r eq_refl) as [_ [t Ht]]. rewrite Ht in Hfind.
    exists t. split; [done|]. by apply (find_tlv_matches tid (tlvs self)). }
  destruct tlvp as [rp|].
  - destruct tlvp' as [rp'|]; [|by destruct Hnonep as [_ Hnone]; discriminate Hnone].
    cbn [mbind result_bind] in Hbefore |- *.
    destruct (Hfound _ _ Hgetp rp eq_refl) as (t & Ht & Hmatch).
    apply (Hstep (Some rp)); [done| |done]. exists rp, t. auto.
  - destruct tlvp' as [rp'|]; [by destruct Hnonep as [Hnone _]; discriminate Hnone|].
    rewrite Hgetm in Hbefore. rewrite Hgetm'. cbn [mbind result_bind] in Hbefore |- *.
    destruct tlvm as [rm|].
    + destruct (Hfound _ _ Hgetm rm eq_refl) as (t & Ht & Hmatch).
      apply (Hstep (Some rm)); [done| |done]. exists rm, t. auto.
    + done.
Qed.

Lemma delete_tlv_keeps_app_offset_witness :
  let h := mkHeader true true false (hdr_fields example_named_app)
             [TBFTLVMain_init (le_split 4 41 ++ le_split 4 0 ++ le_split 4 4096);
              mkTLV TBFTLVPackageName
                (<["valid"%string := PBool true]>
                   {[ "package_name"%string := PStr [98; 108; 105; 110; 107] ]});
              TBFTLVKernelVersion_init (le_split 2 2 ++ le_split 2 1)]
             (Some 2) in
  ∃ h', delete_tlv HEADER_TYPE_PACKAGE_NAME h = (Ok tt, h') ∧
        get_size_before_app h' = Ok 52 ∧ get_header_size h' = Ok (52 - 12).
Proof.
  intros h.
  apply (delete_tlv_keeps_app_offset h HEADER_TYPE_PACKAGE_NAME 2 52 12 52);
    try (vm_compute; reflexivity); vm_compute; discriminate.
Defined.

(** ** [modify_tlv] *)

Lemma modify_loop_prefix tlvid field value pre : ∀ done post n self,
  tlvs self = done ++ pre ++ post →
  Forall (modifiable tlvid field) pre →
  modify_loop (length pre + n) (length done) tlvid field value self =
    modify_loop n (length (done ++ pre)) tlvid field value
      (mkHeader (valid self) (app self)
         (modified self || existsb (tlv_matches tlvid) pre) (fields self)
         (done ++ map (modify_one tlvid field value) pre ++ post) (version self)).
Proof.
  induction pre as [|t pre IH]; intros done post n self Htlvs Hok.
  - cbn [length Nat.add existsb map app]. rewrite app_nil_r, orb_false_r, <- Htlvs.
    by destruct self.
  - apply Forall_cons in Hok as [[[v Hv] Hfield] Hok].
    change ((t :: pre) ++ post) with (t :: (pre ++ post)) in Htlvs.
    cbn [length Nat.add modify_loop]. unfold get, mbind, action_bind at 1.
    cbn beta iota. rewrite Htlvs, list_lookup_middle by done.
    unfold eval. rewrite Hv. unfold mbind, action_bind at 1.
    unfold tlv_matches in Hfield. rewrite Hv in Hfield.
    assert (∀ self', tlvs self' = (done ++ [modify_one tlvid field value t]) ++ pre ++ post →
              valid self' = valid self → app self' = app self →
              fields self' = fields self → version self' = version self →
              modified self' = modified self || tlv_matches tlvid t →
              modify_loop (length pre + n) (S (length done)) tlvid field value self' =
                modify_loop n (length (done ++ t :: pre)) tlvid field value
                  (mkHeader (valid self) (app self)
                     (modified self || existsb (tlv_matches tlvid) (t :: pre)) (fields self)
                     (done ++ map (modify_one tlvid field value) (t :: pre) ++ post)
                     (version self))) as Hnext.
    { intros self' Htlvs' Hvalid' Happ' Hfields' Hversion' Hmodified'.
      replace (S (length done)) with (length (done ++ [modify_one tlvid field value t]))
        by (rewrite length_app; cbn; lia).
      rewrite (IH _ post n self' Htlvs' Hok).
      rewrite Hvalid', Happ', Hfields', Hversion', Hmodified'.
      rewrite <- !app_assoc. cbn [app existsb map]. rewrite orb_assoc.
      f_equal. rewrite !length_app. cbn [length]. lia. }
    unfold modify_one in Hnext. unfold tlv_matches in Hnext. rewrite Hv in Hnext.
    destruct (py_eq_int v tlvid) eqn:Hmatch.
    + destruct (Hfield eq_refl) as [w Hw]. rewrite Hw.
      unfold put, set_modified, mbind, action_bind.
      apply Hnext; try done.
      * cbn [with_modified with_tlvs tlvs].
        rewrite <- (Nat.add_0_r (length done)), insert_app_r. cbn.
        by rewrite <- app_assoc.
      * cbn [with_modified modified]. by rewrite orb_true_r.
    + unfold mret, action_ret. apply Hnext; try done.
      * by rewrite Htlvs, <- app_assoc.
      * by rewrite orb_false_r.
Qed.



(** ** The accessors on a parsed header *)

Lemma le_combine_firstn_range w (x : bytes) :
  0 <= le_combine (firstn w x) < 2 ^ (8 * Z.of_nat w).
Proof.
  pose proof (le_combine_bound (firstn w x)) as Hb.
  assert (2 ^ (8 * Z.of_nat (length (firstn w x))) <= 2 ^ (8 * Z.of_nat w)); [|lia].
  apply Z.pow_le_mono_r; [lia|]. rewrite length_firstn. lia.
Qed.

Lemma is_uint_word (x : bytes) : is_uint 32 (PInt (le_combine (firstn I x))).
Proof. eexists. split; [done|]. apply (le_combine_firstn_range 4). Qed.

Lemma is_uint_half (x : bytes) : is_uint 16 (PInt (le_combine (firstn H x))).
Proof. eexists. split; [done|]. apply (le_combine_firstn_range 2). Qed.

(** The attributes of the TLV objects the parser builds, by TLV id. *)
Lemma parsed_tlv_attrs t tid :
  parsed_tlv t → tlv_matches tid t = true →
  (tid = HEADER_TYPE_FIXED_ADDRESSES →
     ∃ ram flash, getattr t "fixed_address_ram" = Some ram ∧
                  getattr t "fixed_address_flash" = Some flash ∧
                  is_uint 32 ram ∧ is_uint 32 flash) ∧
  (tid = HEADER_TYPE_KERNEL_VERSION →
     ∃ major minor, getattr t "kernel_major" = Some major ∧
                    getattr t "kernel_minor" = Some minor ∧
                    is_uint 16 major ∧ is_uint 16 minor) ∧
  (tid = HEADER_TYPE_PROGRAM →
     ∃ version offset, getattr t "app_version" = Some version ∧
                       getattr t "binary_end_offset" = Some offset ∧
                       is_uint 32 version ∧ is_uint 32 offset) ∧
  (tid = HEADER_TYPE_PACKAGE_NAME →
     ∃ name, getattr t "package_name" = Some (PStr name)).
Proof.
  intros Hparsed Hmatch.
  destruct Hparsed as [b Hb|b Hb|b|b t Ht|b Hb|b Hb|b Hb|tipe b Hk Hr].
  - unfold TBFTLVMain_init, init_fixed in *. rewrite Hb in *. cbn [Nat.eqb] in *.
    repeat split; intros ->; done.
  - unfold TBFTLVProgram_init, init_fixed in *. rewrite Hb in *. cbn [Nat.eqb] in *.
    repeat split; intros ->; try done.
    do 2 eexists. split; [reflexivity|]. split; [reflexivity|].
    split; apply is_uint_word.
  - unfold TBFTLVWriteableFlashRegions_init in *.
    destruct (_ =? _); repeat split; intros ->; done.
  - apply TBFTLVPackageName_init_Ok in Ht as (name & _ & ->).
    repeat split; intros ->; try done. by eexists.
  - unfold TBFTLVPicOption1_init, init_fixed in *. rewrite Hb in *. cbn [Nat.eqb] in *.
    repeat split; intros ->; done.
  - unfold TBFTLVFixedAddress_init, init_fixed in *. rewrite Hb in *. cbn [Nat.eqb] in *.
    repeat split; intros ->; try done.
    do 2 eexists. split; [reflexivity|]. split; [reflexivity|].
    split; apply is_uint_word.
  - unfold TBFTLVKernelVersion_init, init_fixed in *. rewrite Hb in *. cbn [Nat.eqb] in *.
    repeat split; intros ->; try done.
    do 2 eexists. split; [reflexivity|]. split; [reflexivity|].
    split; apply is_uint_half.
  - unfold tlv_matches in Hmatch.
    assert (get_tlvid (TBFTLVUnknown_init tipe b) = Ok (PInt tipe)) as Hid by done.
    rewrite Hid in Hmatch. cbn [py_eq_int] in Hmatch. unfold known_type in Hk.
    repeat (apply orb_false_elim in Hk as [Hk ?]).
    repeat split; intros ->; congruence.
Qed.

(** What [_get_tlv] finds in a parsed header. *)
Lemma parsed_get_tlv (b : bytes) h tid :
  TBFHeader_init b = Ok h →
  _get_tlv tid h = Ok None ∨
  ∃ r t, _get_tlv tid h = Ok (Some r) ∧ tlvs h !! r = Some t ∧
         parsed_tlv t ∧ tlv_matches tid t = true.
Proof.
  intros Hinit.
  pose proof (forallb_tlv_okb _ (TBFHeader_init_tlvs_ok b h Hinit)) as Hok.
  destruct (TBFHeader_init_outcome b) as [Hraise | (h' & Hinit' & Hparsed)]; [congruence|].
  assert (h' = h) as -> by congruence.
  unfold _get_tlv.
  destruct (_get_tlv_from_find tid (tlvs h) 0 Hok) as (tlv & -> & Hfind & Hsome).
  destruct tlv as [r|]; [right|by left].
  cbn in Hfind. rewrite Nat.sub_0_r in Hfind.
  destruct (Hsome r eq_refl) as [_ [t Ht]]. rewrite Ht in Hfind.
  destruct (find_tlv_matches _ _ _ Ht) as [Hmatch Hin].
  exists r, t. split; [done|]. split; [done|]. split; [|done].
  rewrite List.Forall_forall in Hparsed. apply Hparsed. by apply list_elem_of_In.
Qed.

Lemma ref_attr_lookup r t name v h :
  tlvs h !! r = Some t → getattr t name = Some v → ref_attr (Some r) name h = Ok v.
Proof. intros Ht Hv. unfold ref_attr, attr. cbn. by rewrite Ht, Hv. Qed.

(** X17: on every header the parser returns, the accessors for the TLVs
    return and do not raise.  [get_fixed_addresses()] and
    [get_kernel_version()] return [None] or a pair of unsigned integers (of
    32 and of 16 bits), and [has_fixed_addresses()] and
    [has_kernel_version()] say which; [get_app_version()] returns an unsigned
    32-bit integer, 0 without Program TLV; [get_app_name()] returns the
    decoded package name, the pair of the version 1 fields, or the empty
    string. *)
Theorem parsed_header_accessors (b : bytes) (h : TBFHeader) :
  TBFHeader_init b = Ok h →
  (∃ r, get_fixed_addresses h = Ok r ∧
        has_fixed_addresses h = Ok (match r with Some _ => true | None => false end) ∧
        ∀ ram flash, r = Some (ram, flash) → is_uint 32 ram ∧ is_uint 32 flash) ∧
  (∃ r, get_kernel_version h = Ok r ∧
        has_kernel_version h = Ok (match r with Some _ => true | None => false end) ∧
        ∀ major minor, r = Some (major, minor) → is_uint 16 major ∧ is_uint 16 minor) ∧
  (∃ v, get_app_version h = Ok v ∧ is_uint 32 v) ∧
  (∃ name, get_app_name h = Ok name ∧
           match name with
           | NameOf v => ∃ s, v = PStr s
           | NameAt _ _ => version h = Some 1
           end).
Proof.
  intros Hinit. split; [|split; [|split]].
  - unfold get_fixed_addresses, has_fixed_addresses.
    destruct (parsed_get_tlv b h HEADER_TYPE_FIXED_ADDRESSES Hinit)
      as [-> | (r & t & -> & Ht & Hparsed & Hmatch)]; cbn [mbind result_bind].
    + exists None. split; [done|]. split; [done|]. done.
    + destruct (parsed_tlv_attrs t _ Hparsed Hmatch) as (Hattrs & _).
      destruct (Hattrs eq_refl) as (ram & flash & Hram & Hflash & Hr & Hf).
      rewrite (ref_attr_lookup r t "fixed_address_ram" ram h Ht Hram).
      cbn [mbind result_bind]. rewrite (ref_attr_lookup r t "fixed_address_flash" flash h Ht Hflash).
      cbn [mbind result_bind]. exists (Some (ram, flash)). split; [done|]. split; [done|].
      by intros ram' flash' [= <- <-].
  - unfold get_kernel_version, has_kernel_version.
    destruct (parsed_get_tlv b h HEADER_TYPE_KERNEL_VERSION Hinit)
      as [-> | (r & t & -> & Ht & Hparsed & Hmatch)]; cbn [mbind result_bind].
    + exists None. split; [done|]. split; [done|]. done.
    + destruct (parsed_tlv_attrs t _ Hparsed Hmatch) as (_ & Hattrs & _).
      destruct (Hattrs eq_refl) as (major & minor & Hmajor & Hminor & Hr & Hf).
      rewrite (ref_attr_lookup r t "kernel_major" major h Ht Hmajor).
      cbn [mbind result_bind]. rewrite (ref_attr_lookup r t "kernel_minor" minor h Ht Hminor).
      cbn [mbind result_bind]. exists (Some (major, minor)). split; [done|]. split; [done|].
      by intros major' minor' [= <- <-].
  - unfold get_app_version.
    destruct (parsed_get_tlv b h HEADER_TYPE_PROGRAM Hinit)
      as [-> | (r & t & -> & Ht & Hparsed & Hmatch)]; cbn [mbind result_bind].
    + exists (PInt 0). split; [done|]. by exists 0.
    + destruct (parsed_tlv_attrs t _ Hparsed Hmatch) as (_ & _ & Hattrs & _).
      destruct (Hattrs eq_refl) as (v & offset & Hv & _ & Hr & _).
      rewrite (ref_attr_lookup r t "app_version" v h Ht Hv). by exists v.
  - unfold get_app_name.
    destruct (parsed_get_tlv b h HEADER_TYPE_PACKAGE_NAME Hinit)
      as [-> | (r & t & -> & Ht & Hparsed & Hmatch)]; cbn [mbind result_bind].
    + destruct (fields h !! "package_name_offset"%string) as [offset|] eqn:Hoffset.
      2: { eexists. split; [done|]. by eexists. }
      destruct (fields h !! "package_name_size"%string) as [size|] eqn:Hsize.
      2: { eexists. split; [done|]. by eexists. }
      eexists. split; [done|]. cbn.
      rewrite TBFHeader_init_cases in Hinit.
      repeat match type of Hinit with
      | context [if ?c then _ else _] => destruct c eqn:?
      end; try (injection Hinit as <-; done).
      destruct (parse_tlvs _); [|done]. injection Hinit as <-. done.
    + destruct (parsed_tlv_attrs t _ Hparsed Hmatch) as (_ & _ & _ & Hattrs).
      destruct (Hattrs eq_refl) as (name & Hname).
      rewrite (ref_attr_lookup r t "package_name" (PStr name) h Ht Hname). cbn [mbind result_bind].
      eexists. split; [done|]. by eexists.
Qed.

Lemma parsed_header_accessors_witness :
  ∃ r, get_fixed_addresses example_app_header = Ok r ∧
       has_fixed_addresses example_app_header
         = Ok (match r with Some _ => true | None => false end).
Proof.
  destruct (parsed_header_accessors example_app example_app_header)
    as ((r & Hget & Hhas & _) & _); [vm_compute; reflexivity|].
  by exists r.
Defined.

(** ** A WriteableFlashRegions TLV of a bad length *)

Lemma pack_tlvs_each tlvs : ∀ buf r,
  pack_tlvs buf tlvs = Ok r → ∀ t, t ∈ tlvs → ∃ out, pack t = Ok out.
Proof.
  induction tlvs as [|t' tlvs IH]; intros buf r Hpack t Hin.
  - by apply elem_of_nil in Hin.
  - cbn [pack_tlvs] in Hpack. destruct (pack t') as [out|] eqn:Hout; [|done].
    cbn [mbind result_bind] in Hpack.
    apply elem_of_cons in Hin as [-> | Hin]; [by eexists|]. by eapply IH.
Qed.

(** X18: a WriteableFlashRegions TLV whose length is not a multiple of 8
    cannot be serialized.  The constructor does not create the attribute
    [writeable_flash_regions] for it, so [pack()] raises [AttributeError];
    the parser keeps such a TLV whenever its declared length fits in the
    header, and [get_binary()] of an application header that holds one raises
    instead of returning bytes. *)
Theorem writeable_flash_regions_bad_length (payload : bytes) :
  len payload mod 8 ≠ 0 →
  let t := TBFTLVWriteableFlashRegions_init payload in
  pack t = Raise (AttributeError "writeable_flash_regions") ∧
  (∀ tlvs remaining (rest : bytes),
     len payload < 2 ^ 16 → len payload <= remaining - 4 →
     parse_tlv (mkParse (le_split 2 2 ++ le_split 2 (len payload) ++ payload ++ rest)
                  remaining tlvs) =
       Ok (mkParse (skipn (Z.to_nat (roundup (len payload) 4)) (payload ++ rest))
             (remaining - 4 - roundup (len payload) 4) (tlvs ++ [t]))) ∧
  (∀ h, version h = Some 2 → app h = true → t ∈ tlvs h → ∃ e, get_binary h = Raise e).
Proof.
  intros Hlen t.
  assert (pack t = Raise (AttributeError "writeable_flash_regions")) as Hpack.
  { unfold t, TBFTLVWriteableFlashRegions_init.
    assert ((len payload mod 8 =? 0) = false) as -> by (by apply Z.eqb_neq). done. }
  split; [done|]. split.
  - intros tlvs remaining rest Hshort Hfit. pose proof (len_nonneg payload) as Hnonneg.
    rewrite parse_tlv_step by (cbn [ps_buffer]; rewrite !len_app, !len_le_split;
                                pose proof (len_nonneg rest); lia).
    cbn [ps_buffer ps_remaining ps_tlvs]. cbn zeta.
    rewrite slice_0, firstn_le_split_app.
    rewrite (slice_le_split_app 2 2 (len payload) (le_split 2 2)) by reflexivity.
    rewrite !le_combine_le_split_small by (done || (change (8 * Z.of_nat 2) with 16; lia)).
    assert (skipn 4 (le_split 2 2 ++ le_split 2 (len payload) ++ payload ++ rest)
            = payload ++ rest) as ->.
    { rewrite (app_assoc (le_split 2 2)), skipn_app, skipn_all2 by list_len.
      replace (4 - length (le_split 2 2 ++ le_split 2 (len payload)))%nat with 0%nat
        by list_len.
      done. }
    unfold parse_dispatch, HEADER_TYPE_MAIN, HEADER_TYPE_PROGRAM,
      HEADER_TYPE_WRITEABLE_FLASH_REGIONS. cbn [Z.eqb Pos.eqb].
    assert ((remaining - 4 >=? len payload) = true) as -> by bool_lia.
    cbn [mbind result_bind].
    assert (slice 0 (Z.to_nat (len payload)) (payload ++ rest) = payload) as ->; [|done].
    rewrite slice_0. unfold len. rewrite Nat2Z.id, firstn_app, Nat.sub_diag, firstn_all.
    cbn [firstn]. by rewrite app_nil_r.
  - intros h Hv Happ Hin. destruct (get_binary h) as [out|e] eqn:Hout; [|by exists e].
    destruct (get_binary_v2_shape h out Hv Hout)
      as (hs & ts & fl & stream & k & _ & _ & _ & _ & _ & _ & Hstream & _).
    specialize (Hstream []). rewrite Happ in Hstream.
    destruct (pack_tlvs_each _ _ _ Hstream t Hin) as [out' Hout']. congruence.
Qed.

Lemma writeable_flash_regions_bad_length_witness :
  pack (TBFTLVWriteableFlashRegions_init (le_split 4 0x30000)) =
    Raise (AttributeError "writeable_flash_regions").
Proof.
  destruct (writeable_flash_regions_bad_length (le_split 4 0x30000)) as [Hpack _];
    [vm_compute; discriminate|]. exact Hpack.
Defined.

(** ** The footer *)

Section FooterProperties.

Variables sha256 sha384 sha512 : bytes → bytes.
Variable RsaKey : Type.
Variable key_n : RsaKey → Z.
Variable pkcs1_15_verify : RsaKey → bytes → bytes → bool.
Variable importKey : bytes → result RsaKey.

Local Abbreviation credentials_init :=
  (Credentials.TBFFooterTLVCredentials_init sha256 sha384 sha512 RsaKey key_n pkcs1_15_verify).
Local Abbreviation credentials_verify :=
  (Credentials.verify sha256 sha384 sha512 RsaKey key_n pkcs1_15_verify).
Local Abbreviation footer_tlv :=
  (Footer.footer_tlv sha256 sha384 sha512 RsaKey key_n pkcs1_15_verify).
Local Abbreviation footer_tlvs :=
  (Footer.footer_tlvs sha256 sha384 sha512 RsaKey key_n pkcs1_15_verify).
Local Abbreviation TBFFooter_init :=
  (Footer.TBFFooter_init sha256 sha384 sha512 RsaKey key_n pkcs1_15_verify).
Local Abbreviation verify_tlvs :=
  (Footer.verify_tlvs sha256 sha384 sha512 RsaKey key_n pkcs1_15_verify).
Local Abbreviation verify_credentials :=
  (Footer.verify_credentials sha256 sha384 sha512 RsaKey key_n pkcs1_15_verify importKey).

Lemma footer_tlvs_loop blob s :
  footer_tlvs blob s =
    if 0 <? len s.1 then s' ← footer_tlv blob s; footer_tlvs blob s' else Ok s.2.
Proof.
  rewrite Footer.footer_tlvs_equation_1. unfold Footer.footer_tlvs_unfold_clause_1.
  generalize (inspect (0 <? len s.1)).
  intros [[] Hloop]; simpl.
  - destruct (footer_tlv blob s); by rewrite Hloop.
  - by rewrite Hloop.
Qed.

(** *** The credentials TLV: constructor and [pack] *)

Lemma unpack_credentials_word (body : bytes) :
  4 <= len body → struct_unpack [I] (slice 0 4 body) = Ok [le_combine (slice 0 4 body)].
Proof.
  intros Hlen. rewrite struct_unpack_exact by list_len. cbn [unpack_fields].
  unfold slice, I. by rewrite firstn_firstn.
Qed.

Lemma credentials_verify_fields keys blob c :
  let c' := (credentials_verify keys blob c).2 in
  Credentials.credentials_type c' = Credentials.credentials_type c ∧
  Credentials.buffer c' = Credentials.buffer c ∧
  Credentials.valid c' = Credentials.valid c.
Proof.
  unfold Credentials.verify, Credentials.verify_hash.
  destruct blob as [blob|]; [|done].
  destruct (Credentials.credentials_type c) as [ct|] eqn:Hct; [|done].
  repeat match goal with
  | |- context [if ?x =? ?y then _ else _] => destruct (x =? y)
  end; try done.
  1-3: destruct (Credentials.buffer c) as [buf|] eqn:Hbuf; [|done];
       destruct (Credentials.bytes_eqb _ _); cbn; by rewrite ?Hct, ?Hbuf.
  destruct (Credentials.buffer c) as [buf|] eqn:Hbuf; [|done]. cbn [snd].
  induction keys as [|key keys IH]; cbn [Credentials.verify_keys].
  - by rewrite Hct, Hbuf.
  - destruct (_ =? key_n key); [|done].
    destruct (pkcs1_15_verify _ _ _); cbn; by rewrite ?Hct, ?Hbuf.
Qed.

Lemma credentials_verify_known keys blob c ct buf :
  Credentials.credentials_type c = Some ct → Credentials.buffer c = Some buf →
  (credentials_verify keys blob c).1 = Ok tt.
Proof.
  intros Hct Hbuf. unfold Credentials.verify, Credentials.verify_hash. rewrite Hct, Hbuf.
  destruct blob as [blob|]; [|done].
  repeat match goal with
  | |- context [if ?x =? ?y then _ else _] => destruct (x =? y)
  end; try done; by destruct (Credentials.bytes_eqb _ _).
Qed.

(** The object the constructor builds from the body of a credentials TLV of
    a type it knows. *)
Lemma credentials_init_known (body : bytes) blob :
  credentials_body body →
  ∃ c, credentials_init body blob = Ok c ∧
       Credentials.credentials_type c = Some (le_combine (slice 0 4 body)) ∧
       Credentials.buffer c = Some (skipn 4 body).
Proof.
  intros [Hlen Hknown]. unfold Credentials.TBFFooterTLVCredentials_init.
  assert ((len body >=? 4) = true) as -> by bool_lia.
  rewrite unpack_credentials_word by lia. cbn [mbind result_bind nth].
  set (ct := le_combine (slice 0 4 body)) in *. unfold recognised_credentials in Hknown.
  assert (∀ n self,
            Credentials.init_hash sha256 sha384 sha512 RsaKey key_n pkcs1_15_verify
              ct n body blob self =
            Ok (credentials_verify [] blob
                  (let self := Credentials.mkCredentials (Credentials.valid self)
                                 (Credentials.verified self) (Some ct) (Some (skipn 4 body)) in
                   if len (skipn 4 body) =? n then Credentials.with_valid true self
                   else self)).2) as Hhash.
  { intros n self. unfold Credentials.init_hash. cbn zeta.
    match goal with |- context [credentials_verify [] blob ?c] =>
      pose proof (credentials_verify_known [] blob c ct (skipn 4 body)) as Hok;
      destruct (credentials_verify [] blob c) as [[[]|e] c'] end.
    - done.
    - cbn [fst] in Hok. by discriminate Hok; destruct (_ =? n). }
  destruct (ct =? Credentials.CREDENTIALS_TYPE_RESERVED) eqn:H0.
  { apply Z.eqb_eq in H0. eexists. split; [done|]. by rewrite H0. }
  destruct (ct =? Credentials.CREDENTIALS_TYPE_SHA256) eqn:H6.
  { apply Z.eqb_eq in H6. rewrite <- H6, Hhash. eexists. split; [done|].
    match goal with |- context [credentials_verify [] blob ?c] =>
      destruct (credentials_verify_fields [] blob c) as (-> & -> & _) end.
    by destruct (_ =? 64). }
  destruct (ct =? Credentials.CREDENTIALS_TYPE_SHA384) eqn:H7.
  { apply Z.eqb_eq in H7. rewrite <- H7, Hhash. eexists. split; [done|].
    match goal with |- context [credentials_verify [] blob ?c] =>
      destruct (credentials_verify_fields [] blob c) as (-> & -> & _) end.
    by destruct (_ =? 96). }
  destruct (ct =? Credentials.CREDENTIALS_TYPE_SHA512) eqn:H8.
  { apply Z.eqb_eq in H8. rewrite <- H8, Hhash. eexists. split; [done|].
    match goal with |- context [credentials_verify [] blob ?c] =>
      destruct (credentials_verify_fields [] blob c) as (-> & -> & _) end.
    by destruct (_ =? 128). }
  destruct (ct =? Credentials.CREDENTIALS_TYPE_RSA4096KEY) eqn:H3; [|done].
  apply Z.eqb_eq in H3. eexists. split; [done|]. rewrite H3. by destruct (_ =? 1024).
Qed.

Lemma credentials_pack_known c (body : bytes) :
  4 <= len body < 2 ^ 16 →
  Credentials.credentials_type c = Some (le_combine (slice 0 4 body)) →
  Credentials.buffer c = Some (skipn 4 body) →
  Credentials.pack c = Ok (footer_record Credentials.TLVID body).
Proof.
  intros Hlen Hct Hbuf. unfold Credentials.pack. rewrite Hct, Hbuf.
  pose proof (le_combine_slice_range 0 4 body) as Hrange.
  change (2 ^ (8 * Z.of_nat (4 - 0))) with 4294967296 in Hrange.
  change (2 ^ 16) with 65536 in Hlen.
  assert (4 + len (skipn 4 body) = len body) as -> by (rewrite len_skipn; lia).
  rewrite !struct_pack_H by (done || lia). rewrite struct_pack_I by done.
  cbn [struct_pack mbind result_bind]. rewrite app_nil_r, <- !app_assoc.
  unfold footer_record.
  rewrite (le_split_slice 4 0 4 body) by (done || lia).
  rewrite slice_0. by rewrite firstn_skipn.
Qed.

(** X19: the constructor of the credentials TLV and [pack] are inverse on
    the credential types the constructor knows (Reserved, SHA256, SHA384,
    SHA512, RSA4096KEY): from a body of at least 4 and less than 65536 bytes
    that starts with such a type the constructor builds an object, and
    [pack] of that object is the TLV (id 0x80, the length of the body, the
    body), whatever the check of the credential said. *)
Theorem credentials_pack_init (body : bytes) (blob : option bytes) :
  credentials_body body →
  ∃ c, credentials_init body blob = Ok c ∧
       Credentials.pack c = Ok (footer_record 0x80 body) ∧
       Credentials.get_tlvid c = 0x80.
Proof.
  intros Hbody. destruct (credentials_init_known body blob Hbody) as (c & Hinit & Hct & Hbuf).
  exists c. split; [done|]. split; [|done].
  destruct Hbody as [Hlen _]. by apply credentials_pack_known.
Qed.

(** X20: a credentials TLV of a type the constructor does not know, or
    with a body of less than 4 bytes, is built as an object that is not
    valid and has neither [credentials_type] nor [buffer]; [pack] of it
    raises [AttributeError]. *)
Theorem credentials_unknown_type (body : bytes) (blob : option bytes) :
  len body < 4 ∨ recognised_credentials (le_combine (slice 0 4 body)) = false →
  credentials_init body blob = Ok (Credentials.mkCredentials false "unknown" None None) ∧
  Credentials.pack (Credentials.mkCredentials false "unknown" None None)
    = Raise (AttributeError "buffer").
Proof.
  intros Hbody. split; [|done]. unfold Credentials.TBFFooterTLVCredentials_init.
  destruct (len body >=? 4) eqn:Hlen; [|done].
  rewrite Z.geb_leb in Hlen. apply Z.leb_le in Hlen.
  destruct Hbody as [Hshort | Hunknown]; [lia|].
  rewrite unpack_credentials_word by lia. cbn [mbind result_bind nth].
  unfold recognised_credentials in Hunknown.
  repeat (apply orb_false_elim in Hunknown as [Hunknown ?]).
  by repeat match goal with Hc : (_ =? _) = false |- _ => rewrite Hc; clear Hc end.
Qed.

(** *** The footer parser *)

(** One iteration of the loop on a buffer that starts with a prefix. *)
Lemma footer_tlv_prefix blob tipe size (rest : bytes) tlvs :
  0 <= tipe < 2 ^ 16 → 0 <= size < 2 ^ 16 →
  footer_tlv blob (le_split 2 tipe ++ le_split 2 size ++ rest, tlvs) =
    tlvs' ← (if tipe =? Footer.FOOTER_TYPE_CREDENTIALS then
               if len rest >=? size then
                 tlv ← credentials_init (slice 0 (Z.to_nat size) rest) blob;
                 Ok (tlvs ++ [tlv])
               else Ok tlvs
             else Ok tlvs);
    Ok (skipn (Z.to_nat size) rest, tlvs').
Proof.
  intros Htipe Hlength. unfold Footer.footer_tlv. cbn [fst snd].
  rewrite unpack_prefix by list_len. cbn [mbind result_bind nth].
  pose proof (slice_le_split_app 0 2 tipe [] (le_split 2 size ++ rest) eq_refl) as H0.
  pose proof (slice_le_split_app 2 2 size (le_split 2 tipe) rest) as H2.
  cbn [Nat.add] in H0, H2. rewrite app_nil_l in H0.
  rewrite H0, H2 by apply length_le_split.
  rewrite !le_combine_le_split_small by done.
  rewrite app_assoc, skipn_app.
  replace (skipn 4 (le_split 2 tipe ++ le_split 2 size)) with (@nil byte)
    by (symmetry; apply skipn_all2; list_len).
  replace (4 - length (le_split 2 tipe ++ le_split 2 size))%nat with 0%nat by list_len.
  by rewrite app_nil_l.
Qed.

Lemma footer_tlvs_prefix blob tipe size (rest : bytes) tlvs :
  footer_tlvs blob (le_split 2 tipe ++ le_split 2 size ++ rest, tlvs) =
    s' ← footer_tlv blob (le_split 2 tipe ++ le_split 2 size ++ rest, tlvs);
    footer_tlvs blob s'.
Proof.
  rewrite footer_tlvs_loop. cbn [fst].
  by assert ((0 <? len (le_split 2 tipe ++ le_split 2 size ++ rest)) = true) as ->
    by (apply Z.ltb_lt; list_len).
Qed.

(** A TLV that is no credentials TLV is dropped. *)
Lemma footer_tlvs_other blob tipe (body rest : bytes) tlvs :
  0 <= tipe < 2 ^ 16 → tipe ≠ 0x80 → len body < 2 ^ 16 →
  footer_tlvs blob (footer_record tipe body ++ rest, tlvs) = footer_tlvs blob (rest, tlvs).
Proof.
  intros Htipe Hother Hlen. unfold footer_record. rewrite <- !app_assoc.
  rewrite footer_tlvs_prefix, footer_tlv_prefix by (done || list_len).
  assert ((tipe =? Footer.FOOTER_TYPE_CREDENTIALS) = false) as ->
    by (by apply Z.eqb_neq).
  cbn [mbind result_bind]. unfold len. rewrite Nat2Z.id.
  by rewrite skipn_app, skipn_all, Nat.sub_diag.
Qed.

(** A credentials TLV of a known type is appended. *)
Lemma footer_tlvs_credentials blob (body rest : bytes) tlvs :
  credentials_body body →
  ∃ c, credentials_init body blob = Ok c ∧
       Credentials.pack c = Ok (footer_record 0x80 body) ∧
       footer_tlvs blob (footer_record Footer.FOOTER_TYPE_CREDENTIALS body ++ rest, tlvs)
         = footer_tlvs blob (rest, tlvs ++ [c]).
Proof.
  intros Hbody. destruct (credentials_init_known body blob Hbody) as (c & Hinit & Hct & Hbuf).
  destruct Hbody as [Hlen _]. exists c. split; [done|].
  split; [by apply credentials_pack_known|].
  unfold footer_record. rewrite <- !app_assoc.
  rewrite footer_tlvs_prefix, footer_tlv_prefix by (done || list_len).
  rewrite Z.eqb_refl.
  assert ((len (body ++ rest) >=? len body) = true) as -> by (rewrite Z.geb_leb; bool_lia; list_len).
  unfold len at 1 2. rewrite Nat2Z.id.
  rewrite slice_0, firstn_app, firstn_all, Nat.sub_diag. cbn [firstn]. rewrite app_nil_r.
  rewrite Hinit. cbn [mbind result_bind].
  by rewrite skipn_app, skipn_all, Nat.sub_diag.
Qed.

Lemma footer_tlvs_bodies blob bodies :
  Forall credentials_body bodies →
  ∀ tlvs, ∃ cs,
    footer_tlvs blob (credentials_footer bodies, tlvs) = Ok (tlvs ++ cs) ∧
    Forall2 (λ body c, Credentials.pack c = Ok (footer_record 0x80 body)) bodies cs.
Proof.
  induction 1 as [|body bodies Hbody _ IH]; intros tlvs.
  - exists []. split; [|constructor].
    rewrite footer_tlvs_loop. cbn. by rewrite app_nil_r.
  - unfold credentials_footer. cbn [map concat]. fold (credentials_footer bodies).
    destruct (footer_tlvs_credentials blob body (credentials_footer bodies) tlvs Hbody)
      as (c & _ & Hpack & ->).
    destruct (IH (tlvs ++ [c])) as (cs & -> & Hcs).
    exists (c :: cs). split; [by rewrite <- app_assoc|]. by constructor.
Qed.

Lemma footer_pack_bodies bodies cs :
  Forall2 (λ body c, Credentials.pack c = Ok (footer_record 0x80 body)) bodies cs →
  ∀ buf, Footer.pack_tlvs buf cs = Ok (buf ++ credentials_footer bodies).
Proof.
  induction 1 as [|body c bodies cs Hpack _ IH]; intros buf; cbn [Footer.pack_tlvs].
  - by rewrite app_nil_r.
  - rewrite Hpack. cbn [mbind result_bind]. rewrite IH.
    unfold credentials_footer. cbn [map concat]. by rewrite <- app_assoc.
Qed.

(** X21: a footer made of credentials TLVs of known types, each with a
    body of at least 4 and less than 65536 bytes, round-trips: on a version
    2 header (whose [get_binary] returns when the application binary is
    given) the parser returns a footer with one TLV per body, not modified,
    and [get_binary] of that footer is the buffer that was parsed. *)
Theorem footer_round_trip (tbfh : TBFHeader) (app_binary : option bytes) (bodies : list bytes) :
  version tbfh = Some 2 →
  (app_binary = None ∨ ∃ header, get_binary tbfh = Ok header) →
  Forall credentials_body bodies →
  ∃ f, TBFFooter_init tbfh app_binary (credentials_footer bodies) = Ok f ∧
       length (Footer.tlvs f) = length bodies ∧
       Footer.modified f = false ∧
       Footer.get_binary f = Ok (credentials_footer bodies).
Proof.
  intros Hv Hblob Hbodies. unfold Footer.TBFFooter_init, get_version. rewrite Hv.
  cbn [mbind result_bind].
  assert (∃ blob, match app_binary with
                  | Some app_binary =>
                      header ← get_binary tbfh; Ok (Some (header ++ app_binary))
                  | None => Ok None
                  end = Ok blob) as [blob ->].
  { destruct app_binary as [a|]; [|by eexists].
    destruct Hblob as [|[header ->]]; [done|]. by eexists. }
  cbn [mbind result_bind].
  destruct (footer_tlvs_bodies blob bodies Hbodies []) as (cs & -> & Hcs).
  cbn [mbind result_bind]. rewrite app_nil_l. eexists. split; [done|].
  cbn [Footer.tlvs Footer.modified]. split; [symmetry; by eapply Forall2_length|].
  split; [done|]. unfold Footer.get_binary. cbn [Footer.version Footer.tlvs].
  by rewrite (footer_pack_bodies bodies cs Hcs []).
Qed.

(** X22: what the footer parser drops or rejects.  A TLV whose type is not
    0x80 is skipped: the footer built from a buffer that starts with it is
    the footer built from the rest.  A credentials TLV that declares more
    bytes than are left ends the parse without a TLV for it.  One to three
    bytes where a TLV should start raise [struct.error], whenever the
    footer of the empty buffer can be built. *)
Theorem footer_parser_skips (tbfh : TBFHeader) (app_binary : option bytes) :
  (∀ tipe body rest,
     0 <= tipe < 2 ^ 16 → tipe ≠ 0x80 → len body < 2 ^ 16 →
     TBFFooter_init tbfh app_binary (footer_record tipe body ++ rest)
       = TBFFooter_init tbfh app_binary rest) ∧
  (∀ size rest,
     len rest < size < 2 ^ 16 →
     TBFFooter_init tbfh app_binary (le_split 2 0x80 ++ le_split 2 size ++ rest)
       = TBFFooter_init tbfh app_binary []) ∧
  (∀ buffer f,
     0 < len buffer < 4 →
     TBFFooter_init tbfh app_binary [] = Ok f →
     TBFFooter_init tbfh app_binary buffer = Raise StructError).
Proof.
  unfold Footer.TBFFooter_init. split; [|split].
  - intros tipe body rest Htipe Hother Hlen.
    destruct (get_version tbfh) as [v|]; [|done]. cbn [mbind result_bind].
    match goal with |- context [match app_binary with Some _ => _ | None => _ end] =>
      destruct (match app_binary with
                | Some a => header ← get_binary tbfh; Ok (Some (header ++ a))
                | None => Ok None end) as [blob|]; [|done] end.
    cbn [mbind result_bind]. by rewrite footer_tlvs_other.
  - intros size rest Hsize.
    destruct (get_version tbfh) as [v|]; [|done]. cbn [mbind result_bind].
    match goal with |- context [match app_binary with Some _ => _ | None => _ end] =>
      destruct (match app_binary with
                | Some a => header ← get_binary tbfh; Ok (Some (header ++ a))
                | None => Ok None end) as [blob|]; [|done] end.
    cbn [mbind result_bind].
    rewrite footer_tlvs_prefix, footer_tlv_prefix by (done || list_len).
    rewrite Z.eqb_refl.
    assert ((len rest >=? size) = false) as -> by (rewrite Z.geb_leb; bool_lia).
    cbn [mbind result_bind].
    rewrite skipn_all2 by list_len. done.
  - intros buffer f Hlen.
    destruct (get_version tbfh) as [v|]; [|done]. cbn [mbind result_bind].
    match goal with |- context [match app_binary with Some _ => _ | None => _ end] =>
      destruct (match app_binary with
                | Some a => header ← get_binary tbfh; Ok (Some (header ++ a))
                | None => Ok None end) as [blob|]; [|done] end.
    cbn [mbind result_bind]. intros _.
    rewrite footer_tlvs_loop. cbn [fst].
    assert ((0 <? len buffer) = true) as -> by bool_lia.
    unfold Footer.footer_tlv. cbn [fst].
    assert (struct_unpack [H; H] (slice 0 4 buffer) = Raise StructError) as ->; [|done].
    unfold struct_unpack.
    assert ((length (slice 0 4 buffer) =? fmt_size [H; H])%nat = false) as ->; [|done].
    apply Nat.eqb_neq. list_len.
Qed.

(** *** [TBFFooter.delete_tlv] *)

Lemma footer_delete_scan_all tlvs : ∀ i indices,
  Footer.delete_scan i tlvs Credentials.TLVID indices
    = rev (seq i (length tlvs)) ++ indices.
Proof.
  induction tlvs as [|tlv tlvs IH]; intros i indices; cbn [Footer.delete_scan]; [done|].
  unfold Credentials.get_tlvid. rewrite Z.eqb_refl, IH.
  cbn [length seq rev]. by rewrite <- app_assoc.
Qed.

Lemma footer_delete_scan_none tlvid tlvs : ∀ i indices,
  tlvid ≠ Credentials.TLVID →
  Footer.delete_scan i tlvs tlvid indices = indices.
Proof.
  induction tlvs as [|tlv tlvs IH]; intros i indices Hid; cbn [Footer.delete_scan]; [done|].
  unfold Credentials.get_tlvid.
  assert ((Credentials.TLVID =? tlvid) = false) as -> by (apply Z.eqb_neq; congruence).
  by apply IH.
Qed.

Lemma footer_delete_pop_all n : ∀ f,
  length (Footer.tlvs f) = n →
  Footer.delete_pop (rev (seq 0 n)) f =
    Footer.mkFooter (Footer.version f) (if n is O then Footer.tlvs f else [])
      (if n is O then Footer.modified f else true).
Proof.
  induction n as [|n IH]; intros f Hlen.
  - by destruct f.
  - rewrite seq_S, rev_app_distr. cbn [rev Nat.add].
    change (([] ++ [n]) ++ rev (seq 0 n)) with (n :: rev (seq 0 n)).
    cbn [Footer.delete_pop].
    rewrite IH; cbn [Footer.version Footer.tlvs Footer.modified].
    + destruct n as [|n]; [|done].
      destruct (Footer.tlvs f) as [|c [|c' l]]; try done.
    + rewrite length_delete; [lia|]. apply lookup_lt_is_Some. lia.
Qed.

(** X23: every TLV of a footer has id 0x80, so [delete_tlv 0x80] removes
    all of them and sets [modified] when there was one, and [delete_tlv]
    of any other id changes nothing. *)
Theorem footer_delete_tlv (f : Footer.TBFFooter) (tlvid : Z) :
  Footer.delete_tlv tlvid f =
    if tlvid =? 0x80 then
      Footer.mkFooter (Footer.version f) []
        (Footer.modified f || negb (length (Footer.tlvs f) =? 0)%nat)
    else f.
Proof.
  unfold Footer.delete_tlv. destruct (tlvid =? 128) eqn:Hid.
  - apply Z.eqb_eq in Hid as ->.
    change 128 with Credentials.TLVID. rewrite footer_delete_scan_all, app_nil_r.
    rewrite (footer_delete_pop_all _ f eq_refl).
    destruct f as [v [|c l] m]; cbn; [by rewrite orb_false_r | by rewrite orb_true_r].
  - apply Z.eqb_neq in Hid. by rewrite footer_delete_scan_none.
Qed.

(** *** Verification *)

Lemma verify_keys_find keys n blob signature c :
  Credentials.verify_keys RsaKey key_n pkcs1_15_verify keys n blob signature c =
    match List.find (λ key, n =? key_n key) keys with
    | Some key =>
        Credentials.with_verified
          (if pkcs1_15_verify key blob signature then "yes" else "no") c
    | None => c
    end.
Proof.
  induction keys as [|key keys IH]; cbn [Credentials.verify_keys List.find]; [done|].
  destruct (n =? key_n key); [|done]. by destruct (pkcs1_15_verify _ _ _).
Qed.

(** X24: an RSA4096KEY credential is checked against the first key whose
    modulus is the one stored in the credential (512 bytes, big endian),
    and only that key: [verified] becomes "yes" or "no" as the PKCS#1 v1.5
    check of the signature under that key says, and stays as it was when
    no key has that modulus.  The constructor never checks such a
    credential: it leaves [verified] "unknown" and sets [valid] when the
    credential has 1024 bytes. *)
Theorem verify_rsa_first_matching_key (keys : list RsaKey) (blob buf : bytes)
    (self : Credentials.TBFFooterTLVCredentials) :
  Credentials.credentials_type self = Some Credentials.CREDENTIALS_TYPE_RSA4096KEY →
  Credentials.buffer self = Some buf →
  credentials_verify keys (Some blob) self =
    (Ok tt,
     match List.find (λ key, Credentials.int_from_bytes_big (slice 0 512 buf) =? key_n key)
             keys with
     | Some key =>
         Credentials.with_verified
           (if pkcs1_15_verify key blob (slice 512 1024 buf) then "yes" else "no") self
     | None => self
     end) ∧
  credentials_init (le_split 4 Credentials.CREDENTIALS_TYPE_RSA4096KEY ++ buf) (Some blob) =
    Ok (Credentials.mkCredentials (len buf =? 1024) "unknown"
          (Some Credentials.CREDENTIALS_TYPE_RSA4096KEY) (Some buf)).
Proof.
  intros Hct Hbuf. split.
  - unfold Credentials.verify. rewrite Hct, Hbuf. cbn [Z.eqb Pos.eqb Credentials.CREDENTIALS_TYPE_RSA4096KEY
      Credentials.CREDENTIALS_TYPE_SHA256 Credentials.CREDENTIALS_TYPE_SHA384
      Credentials.CREDENTIALS_TYPE_SHA512].
    by rewrite verify_keys_find.
  - unfold Credentials.TBFFooterTLVCredentials_init.
    assert ((len (le_split 4 Credentials.CREDENTIALS_TYPE_RSA4096KEY ++ buf) >=? 4) = true)
      as -> by (rewrite Z.geb_leb; bool_lia; list_len).
    rewrite unpack_credentials_word by list_len. cbn [mbind result_bind nth].
    rewrite slice_0, firstn_le_split_app, le_combine_le_split_small by done.
    rewrite skipn_le_split_app.
    cbn [Z.eqb Pos.eqb Credentials.CREDENTIALS_TYPE_RSA4096KEY
      Credentials.CREDENTIALS_TYPE_SHA256 Credentials.CREDENTIALS_TYPE_SHA384
      Credentials.CREDENTIALS_TYPE_SHA512 Credentials.CREDENTIALS_TYPE_RESERVED].
    by destruct (len buf =? 1024).
Qed.

Lemma credentials_pack_verify keys blob c :
  Credentials.pack (credentials_verify keys blob c).2 = Credentials.pack c.
Proof.
  destruct (credentials_verify_fields keys blob c) as (Hct & Hbuf & _).
  unfold Credentials.pack. by rewrite Hct, Hbuf.
Qed.

Lemma verify_tlvs_pack keys blob tlvs :
  Forall2 (λ c c', Credentials.pack c' = Credentials.pack c ∧
                   Credentials.valid c' = Credentials.valid c ∧
                   Credentials.credentials_type c' = Credentials.credentials_type c ∧
                   Credentials.buffer c' = Credentials.buffer c)
    tlvs (verify_tlvs keys blob tlvs).2.
Proof.
  assert (∀ c : Credentials.TBFFooterTLVCredentials,
            Credentials.pack c = Credentials.pack c ∧
            Credentials.valid c = Credentials.valid c ∧
            Credentials.credentials_type c = Credentials.credentials_type c ∧
            Credentials.buffer c = Credentials.buffer c) as Hsame by done.
  induction tlvs as [|c tlvs IH]; cbn [Footer.verify_tlvs]; [constructor|].
  pose proof (credentials_pack_verify keys blob c) as Hpack.
  destruct (credentials_verify_fields keys blob c) as (Hct & Hbuf & Hvalid).
  destruct (credentials_verify keys blob c) as [[[]|e] c']; cbn [snd] in *.
  - by constructor.
  - constructor; [done|]. clear -Hsame. induction tlvs; by constructor.
Qed.

Lemma pack_tlvs_same tlvs tlvs' :
  Forall2 (λ c c', Credentials.pack c' = Credentials.pack c ∧
                   Credentials.valid c' = Credentials.valid c ∧
                   Credentials.credentials_type c' = Credentials.credentials_type c ∧
                   Credentials.buffer c' = Credentials.buffer c) tlvs tlvs' →
  ∀ buf, Footer.pack_tlvs buf tlvs' = Footer.pack_tlvs buf tlvs.
Proof.
  induction 1 as [|c c' tlvs tlvs' [Hpack _] _ IH]; intros buf; cbn [Footer.pack_tlvs]; [done|].
  rewrite Hpack. destruct (Credentials.pack c); [|done]. cbn [mbind result_bind]. apply IH.
Qed.

(** X25: [verify_credentials] only records verdicts.  Whatever the keys
    and the blob, and whether or not it raises, the footer afterwards has
    as many TLVs, each with the [valid], [credentials_type] and [buffer] it
    had, the same [version] and [modified], and the same [get_binary]. *)
Theorem verify_credentials_keeps_binary (public_keys : option (list bytes))
    (integrity_blob : option bytes) (f : Footer.TBFFooter) :
  let f' := (verify_credentials public_keys integrity_blob f).2 in
  Forall2 (λ c c', Credentials.valid c' = Credentials.valid c ∧
                   Credentials.credentials_type c' = Credentials.credentials_type c ∧
                   Credentials.buffer c' = Credentials.buffer c)
    (Footer.tlvs f) (Footer.tlvs f') ∧
  Footer.version f' = Footer.version f ∧
  Footer.modified f' = Footer.modified f ∧
  Footer.get_binary f' = Footer.get_binary f.
Proof.
  unfold Footer.verify_credentials.
  match goal with |- context [match ?m with Ok _ => _ | Raise _ => _ end] =>
    destruct m as [keys|e] end; cbn [snd].
  - pose proof (verify_tlvs_pack keys integrity_blob (Footer.tlvs f)) as Hsame.
    cbn [Footer.tlvs Footer.version Footer.modified]. split; [|split; [done|split; [done|]]].
    + eapply Forall2_impl; [exact Hsame|]. by intros c c' (_ & ? & ? & ?).
    + unfold Footer.get_binary. cbn [Footer.tlvs Footer.version].
      destruct (Footer.version f =? 2); [|done]. by apply pack_tlvs_same.
  - split; [|done]. induction (Footer.tlvs f); by constructor.
Qed.

End FooterProperties.
(** The theorems at stand-ins for the digest functions and the RSA
    library: the digest is the header checksum on 64 bytes, a key is its
    modulus, and a signature is good under key 7 only. *)
Lemma credentials_pack_init_witness :
  let sha := λ blob : bytes, le_split 64 (_checksum blob) in
  let blob := [Byte.x54; Byte.x6f; Byte.x63; Byte.x6b] in
  let body := le_split 4 Credentials.CREDENTIALS_TYPE_SHA256 ++ sha blob in
  ∃ c, Credentials.TBFFooterTLVCredentials_init sha sha sha Z id (λ key _ _, key =? 7)
         body (Some blob) = Ok c ∧
       Credentials.pack c = Ok (footer_record 0x80 body) ∧
       Credentials.get_tlvid c = 0x80.
Proof.
  intros sha blob body.
  apply (credentials_pack_init sha sha sha Z id (λ key _ _, key =? 7) body (Some blob)).
  split; [unfold len; simpl; lia | reflexivity].
Defined.

Lemma credentials_unknown_type_witness :
  let sha := λ blob : bytes, le_split 64 (_checksum blob) in
  let body := le_split 4 1 ++ [Byte.x2a] in
  Credentials.TBFFooterTLVCredentials_init sha sha sha Z id (λ key _ _, key =? 7) body None
    = Ok (Credentials.mkCredentials false "unknown" None None) ∧
  Credentials.pack (Credentials.mkCredentials false "unknown" None None)
    = Raise (AttributeError "buffer").
Proof.
  intros sha body.
  apply (credentials_unknown_type sha sha sha Z id (λ key _ _, key =? 7) body None).
  right. reflexivity.
Defined.

Lemma footer_round_trip_witness :
  let sha := λ blob : bytes, le_split 64 (_checksum blob) in
  let bodies := [le_split 4 Credentials.CREDENTIALS_TYPE_RESERVED ++ [Byte.x01; Byte.x02];
                 le_split 4 Credentials.CREDENTIALS_TYPE_SHA256 ++ sha [Byte.x54];
                 le_split 4 Credentials.CREDENTIALS_TYPE_RSA4096KEY] in
  ∃ f, Footer.TBFFooter_init sha sha sha Z id (λ key _ _, key =? 7)
         example_protected_app_header (Some [Byte.x54]) (credentials_footer bodies) = Ok f ∧
       length (Footer.tlvs f) = 3%nat ∧
       Footer.modified f = false ∧
       Footer.get_binary f = Ok (credentials_footer bodies).
Proof.
  intros sha bodies.
  apply (footer_round_trip sha sha sha Z id (λ key _ _, key =? 7)
           example_protected_app_header (Some [Byte.x54]) bodies).
  - reflexivity.
  - right. exists (example_protected_app ++ zeros 8). vm_compute. reflexivity.
  - repeat (constructor; [split; [unfold len; simpl; lia | reflexivity]|]). constructor.
Defined.

Lemma footer_parser_skips_witness :
  let sha := λ blob : bytes, le_split 64 (_checksum blob) in
  let init := Footer.TBFFooter_init sha sha sha Z id (λ key _ _, key =? 7)
                example_protected_app_header None in
  init (footer_record 0x81 [Byte.x01] ++ []) = init [] ∧
  init (le_split 2 0x80 ++ le_split 2 5 ++ [Byte.x01]) = init [] ∧
  init [Byte.x80; Byte.x00; Byte.x00] = Raise StructError.
Proof.
  intros sha init.
  destruct (footer_parser_skips sha sha sha Z id (λ key _ _, key =? 7)
              example_protected_app_header None) as (Hother & Hlong & Hshort).
  split; [|split].
  - apply (Hother 0x81 [Byte.x01] []); [lia | discriminate | unfold len; simpl; lia].
  - apply (Hlong 5 [Byte.x01]). unfold len. simpl. lia.
  - apply (Hshort [Byte.x80; Byte.x00; Byte.x00] (Footer.mkFooter 2 [] false)).
    + unfold len. simpl. lia.
    + reflexivity.
Defined.

Lemma verify_rsa_first_matching_key_witness :
  let sha := λ blob : bytes, le_split 64 (_checksum blob) in
  let buf := [Byte.x00; Byte.x07] in
  let self := Credentials.mkCredentials false "unknown"
                (Some Credentials.CREDENTIALS_TYPE_RSA4096KEY) (Some buf) in
  Credentials.verify sha sha sha Z id (λ key _ _, key =? 7) [5; 7; 7] (Some [Byte.x54]) self
    = (Ok tt, Credentials.with_verified "yes" self) ∧
  Credentials.TBFFooterTLVCredentials_init sha sha sha Z id (λ key _ _, key =? 7)
    (le_split 4 Credentials.CREDENTIALS_TYPE_RSA4096KEY ++ buf) (Some [Byte.x54]) = Ok self.
Proof.
  intros sha buf self.
  apply (verify_rsa_first_matching_key sha sha sha Z id (λ key _ _, key =? 7)
           [5; 7; 7] [Byte.x54] buf self); reflexivity.
Defined.
